(** * WC-Album: the football data ingestion pipeline

    A shallow embedding of the ingestion code of the repository
    ([src/ingest.js], [src/db.js], [src/sportmonksClient.js],
    [src/config.js]) and the properties of its specification.

    Conventions of the embedding.
    - A JavaScript primitive is a [prim]; numbers are the integers
      (identifiers, counters, millisecond time stamps), NaN is modelled
      where the code can produce it, as [None] of an [option Z].
    - A JSON object of the provider is a record whose members are
      primitives ([JUndef] for a member that is absent), nested objects
      are [option]s of records ([None]: absent or null).
    - Asynchronous code is sequential in this program (every promise is
      awaited at once), so it is written in a state and exception monad
      over the state of the process and of the database. *)

From stdpp Require Import base option list gmap strings pretty countable sorting.
From Stdlib Require Import ZArith String Ascii Lia Permutation.

Open Scope string_scope.
Open Scope list_scope.
Open Scope Z_scope.

(** ** JavaScript primitives *)

Inductive prim : Type :=
| JUndef
| JNull
| JBool (b : bool)
| JNum (n : Z)
| JStr (s : string).

Global Instance prim_eq_dec : EqDecision prim.
Proof. solve_decision. Defined.

Global Instance prim_countable : Countable prim.
Proof.
  refine (inj_countable'
    (fun p => match p with
              | JUndef => inl (inl true)
              | JNull => inl (inl false)
              | JBool b => inl (inr b)
              | JNum n => inr (inl n)
              | JStr s => inr (inr s)
              end)
    (fun x => match x with
              | inl (inl true) => JUndef
              | inl (inl false) => JNull
              | inl (inr b) => JBool b
              | inr (inl n) => JNum n
              | inr (inr s) => JStr s
              end) _).
  by intros [].
Defined.

(** ToBoolean: [undefined], [null], [false], [0] and the empty string are
    falsy. *)
Definition truthy (p : prim) : bool :=
  match p with
  | JUndef | JNull => false
  | JBool b => b
  | JNum n => negb (n =? 0)
  | JStr s => negb (String.eqb s "")
  end.

(** [a || b] *)
Definition orElse (a b : prim) : prim := if truthy a then a else b.

(** ToString, as a template literal applies it. *)
Definition toString (p : prim) : string :=
  match p with
  | JUndef => "undefined"
  | JNull => "null"
  | JBool true => "true"
  | JBool false => "false"
  | JNum n => pretty n
  | JStr s => s
  end.

(** ** Provider payloads *)

Record country : Type := Country {
  c_id : prim;
  c_name : prim;
  c_official_name : prim;
  c_iso2 : prim;
  c_fifa_name : prim
}.

Record pivot : Type := Pivot {
  pv_start : prim;
  pv_end : prim
}.

(** One entry of a player's [teams] array. *)
Record membership : Type := Membership {
  m_id : prim;
  m_name : prim;
  m_type : prim;
  m_pivot : option pivot;
  m_country : option country;
  m_country_id : prim
}.

Record player : Type := Player {
  p_id : prim;
  p_display_name : prim;
  p_common_name : prim;
  p_firstname : prim;
  p_lastname : prim;
  p_nationality_id : prim;
  p_nationality : option country;
  p_image_path : prim;
  p_teams : option (list membership)
}.

Record team : Type := Team {
  t_id : prim;
  t_name : prim;
  t_type : prim;
  t_image_path : prim;
  t_country : option country
}.

Record squadEntry : Type := SquadEntry {
  e_player_id : prim;
  e_player : option player
}.

(** The normalised reference [{id, name, code}]. *)
Record countryInfo : Type := CountryInfo {
  ci_id : prim;
  ci_name : prim;
  ci_code : prim
}.

Record clubInfo : Type := ClubInfo {
  cl_id : prim;
  cl_name : prim
}.

(** ** The record normaliser ([src/ingest.js]) *)

(** [[a, b].filter(Boolean).join(' ')] *)
Definition joinTruthy (parts : list prim) : string :=
  String.concat " " (toString <$> filter (fun p => truthy p = true) parts).

(** [getPlayerName(player)]: [None] is the player argument being absent. *)
Definition getPlayerName (pl : option player) : prim :=
  match pl with
  | None => JNull
  | Some p =>
      orElse (p_display_name p)
        (orElse (p_common_name p)
           (orElse (JStr (joinTruthy [p_firstname p; p_lastname p])) JNull))
  end.

Definition nullCountryInfo : countryInfo := CountryInfo JNull JNull JNull.

(** [extractCountryInfo(country)] *)
Definition extractCountryInfo (c : option country) : countryInfo :=
  match c with
  | None => nullCountryInfo
  | Some c =>
      {| ci_id := orElse (c_id c) JNull;
         ci_name := orElse (c_name c) (orElse (c_official_name c) JNull);
         ci_code := orElse (c_iso2 c) (orElse (c_fifa_name c) JNull) |}
  end.

(** *** Array.prototype.sort

    The sort of ECMAScript is stable, and its result is fixed by the
    language only when the comparator is consistent.  It is modelled as the
    stable insertion sort; a comparator result that is NaN counts as 0. *)
Section JsSort.
Context {A : Type} (cmp : A -> A -> option Z).

(** [a] may stay in front of [b]: the comparator is not positive. *)
Definition notAfter (a b : A) : bool :=
  match cmp a b with
  | Some v => v <=? 0
  | None => true
  end.

Fixpoint sortInsert (x : A) (l : list A) : list A :=
  match l with
  | [] => [x]
  | y :: l' => if notAfter x y then x :: y :: l' else y :: sortInsert x l'
  end.

Definition jsSort (l : list A) : list A := foldr sortInsert [] l.
End JsSort.

(** *** Current club *)
Section CurrentClub.
(** [Date.parse] of a string ([None]: Invalid Date) and the time of the
    call, [new Date()]. *)
Variable Date_parse : string -> option Z.
Variable now : Z.

(** The time value of [new Date(v)]. *)
Definition newDate (v : prim) : option Z :=
  match v with
  | JStr s => Date_parse s
  | JNum n => Some n
  | JBool true => Some 1
  | JBool false => Some 0
  | JNull => Some 0
  | JUndef => None
  end.

(** [a.pivot?.end] and [a.pivot?.start] *)
Definition pivotEnd (t : membership) : prim :=
  match m_pivot t with Some pv => pv_end pv | None => JUndef end.
Definition pivotStart (t : membership) : prim :=
  match m_pivot t with Some pv => pv_start pv | None => JUndef end.

(** The filter of [findCurrentClub]. *)
Definition isClubTeam (t : membership) : bool :=
  bool_decide (m_type t = JStr "domestic")
  || bool_decide (m_type t = JStr "club")
  || negb (truthy (m_type t)).

(** [!a.pivot?.end || new Date(a.pivot.end) > new Date()] *)
Definition isActive (t : membership) : bool :=
  negb (truthy (pivotEnd t))
  || match newDate (pivotEnd t) with
     | Some e => now <? e
     | None => false
     end.

(** [a.pivot?.start ? new Date(a.pivot.start) : new Date(0)] *)
Definition startTime (t : membership) : option Z :=
  if truthy (pivotStart t) then newDate (pivotStart t) else Some 0.

(** The comparator handed to [sort]. *)
Definition compareClubs (a b : membership) : option Z :=
  let aActive := isActive a in
  let bActive := isActive b in
  if aActive && negb bActive then Some (-1)
  else if negb aActive && bActive then Some 1
  else match startTime b, startTime a with
       | Some sb, Some sa => Some (sb - sa)
       | _, _ => None
       end.

(** [findCurrentClub(teams)]: the argument is [None] when [teams] is
    absent or not an array. *)
Definition findCurrentClub (teams : option (list membership)) : option membership :=
  match teams with
  | None => None
  | Some l =>
      let clubTeams := filter (fun t => isClubTeam t = true) l in
      let sorted := jsSort compareClubs clubTeams in
      head sorted
  end.


End CurrentClub.

(** ** Exceptions and the state monad of the embedding *)

(** A JavaScript [Error]: its [name], its [code] (set by the network layer
    of Node, [JUndef] otherwise) and its [message]. *)
Record jsError : Type := JsError {
  err_name : string;
  err_code : prim;
  err_message : string
}.

Global Instance jsError_eq_dec : EqDecision jsError.
Proof. solve_decision. Defined.

(** [new Error(message)] *)
Definition newError (message : string) : jsError := JsError "Error" JUndef message.

Inductive result (A : Type) : Type :=
| Ok (a : A)
| Throw (e : jsError).
Arguments Ok {A} a.
Arguments Throw {A} e.

(** A computation over a state [S] that returns or throws; what it did to
    the state before it threw stays done. *)
Definition M (S A : Type) : Type := S -> result A * S.

Definition ret {S A} (a : A) : M S A := fun s => (Ok a, s).
Definition throw {S A} (e : jsError) : M S A := fun s => (Throw e, s).
Definition bind {S A B} (c : M S A) (k : A -> M S B) : M S B :=
  fun s => match c s with
           | (Ok a, s') => k a s'
           | (Throw e, s') => (Throw e, s')
           end.
(** [try { c } catch (error) { h error }] *)
Definition tryCatch {S A} (c : M S A) (h : jsError -> M S A) : M S A :=
  fun s => match c s with
           | (Ok a, s') => (Ok a, s')
           | (Throw e, s') => h e s'
           end.
Definition gets {S A} (f : S -> A) : M S A := fun s => (Ok (f s), s).
Definition modify {S} (f : S -> S) : M S unit := fun s => (Ok tt, f s).

Notation "'let*' x ':=' c 'in' k" := (bind c (fun x => k))
  (at level 10, x name, c at level 100, k at level 200).
Notation "c ';;;' k" := (bind c (fun _ => k))
  (at level 100, k at level 200, right associativity).

(** ** The document store ([src/db.js]) *)

(** The value of a member of a stored document. *)
Inductive dval : Type :=
| DPrim (p : prim)
| DObj (members : list (string * prim))
| DArr (items : list string)
| DDate (t : Z).

Global Instance dval_eq_dec : EqDecision dval.
Proof. solve_decision. Defined.

(** A document is its members by name; a collection is its documents by
    [_id]. *)
Abbreviation doc := (gmap string dval).
Abbreviation collection := (gmap prim doc).

Record database : Type := Database {
  db_teams : collection;
  db_players : collection;
  db_squads : collection;
  db_countries : collection
}.

Definition emptyDb : database := Database ∅ ∅ ∅ ∅.

Definition setTeams (c : collection) (d : database) : database :=
  Database c (db_players d) (db_squads d) (db_countries d).
Definition setPlayers (c : collection) (d : database) : database :=
  Database (db_teams d) c (db_squads d) (db_countries d).
Definition setSquads (c : collection) (d : database) : database :=
  Database (db_teams d) (db_players d) c (db_countries d).
Definition setCountries (c : collection) (d : database) : database :=
  Database (db_teams d) (db_players d) (db_squads d) c.

(** The unique indexes that [ensureIndexes] creates: on
    [{provider, providerId}] for teams, players and countries, on
    [{provider, teamId}] for squads. *)
Definition provider_providerId_unique : list string := ["provider"; "providerId"].
Definition provider_teamId_unique : list string := ["provider"; "teamId"].

(** The key of a document in an index; a member that is absent is indexed
    as null. *)
Definition indexKey (ix : list string) (d : doc) : list dval :=
  (fun f => default (DPrim JNull) (d !! f)) <$> ix.

(** No other document of the collection has the index key of [d]. *)
Definition indexFree (ix : list string) (c : collection) (_id : prim) (d : doc) : Prop :=
  map_Forall (fun k d' => k = _id \/ indexKey ix d' <> indexKey ix d) c.

Global Instance indexFree_dec ix c _id d : Decision (indexFree ix c _id d).
Proof. unfold indexFree. apply _. Defined.

Definition duplicateKeyError : jsError :=
  JsError "MongoServerError" (JNum 11000) "E11000 duplicate key error".

(** [collection.updateOne({ _id }, { $set: doc }, { upsert: true })]: the
    members of [set] are written over those of the document found (of a
    new document when none is), the other members stay; the write is
    refused when it breaks the unique index. *)
Definition updateOne (ix : list string) (c : collection) (_id : prim) (set : doc)
  : result collection :=
  let found := default ∅ (c !! _id) in
  let written := set ∪ found in
  if decide (indexFree ix c _id written)
  then Ok (<[_id := written]> c)
  else Throw duplicateKeyError.

Definition countryObj (ci : countryInfo) : dval :=
  DObj [("id", ci_id ci); ("name", ci_name ci); ("code", ci_code ci)].
Definition clubObj (cl : clubInfo) : dval :=
  DObj [("id", cl_id cl); ("name", cl_name cl)].

(** The argument of [upsertTeam]. *)
Record teamData : Type := TeamData {
  td__id : prim;
  td_provider : prim;
  td_providerId : prim;
  td_name : prim;
  td_type : prim;
  td_country : option countryInfo;
  td_image_path : prim
}.

Record playerData : Type := PlayerData {
  pd__id : prim;
  pd_provider : prim;
  pd_providerId : prim;
  pd_name : prim;
  pd_position : prim;
  pd_nationality : option countryInfo;
  pd_image_path : prim;
  pd_currentClub : option clubInfo;
  pd_currentClubCountry : option countryInfo
}.

Record squadData : Type := SquadData {
  sd__id : prim;
  sd_provider : prim;
  sd_teamId : prim;
  sd_teamName : prim;
  sd_playerIds : option (list string)
}.

Record countryData : Type := CountryData {
  cd_providerId : prim;
  cd_name : prim;
  cd_code : prim
}.

(** The [_id] and the [doc] that each upsert builds; [now] is the
    [new Date()] of the call. *)
Definition teamId_of (d : teamData) : prim :=
  orElse (td__id d) (JStr ("team:sportmonks:" +:+ toString (td_providerId d))).
Definition teamDoc (now : Z) (d : teamData) : doc :=
  list_to_map
    [("_id", DPrim (teamId_of d));
     ("provider", DPrim (orElse (td_provider d) (JStr "sportmonks")));
     ("providerId", DPrim (td_providerId d));
     ("name", DPrim (orElse (td_name d) JNull));
     ("type", DPrim (orElse (td_type d) JNull));
     ("country", countryObj (default nullCountryInfo (td_country d)));
     ("image_path", DPrim (orElse (td_image_path d) JNull));
     ("updatedAt", DDate now)].

Definition playerId_of (d : playerData) : prim :=
  orElse (pd__id d) (JStr ("player:sportmonks:" +:+ toString (pd_providerId d))).
Definition playerDoc (now : Z) (d : playerData) : doc :=
  list_to_map
    [("_id", DPrim (playerId_of d));
     ("provider", DPrim (orElse (pd_provider d) (JStr "sportmonks")));
     ("providerId", DPrim (pd_providerId d));
     ("name", DPrim (orElse (pd_name d) JNull));
     ("position", DPrim (orElse (pd_position d) JNull));
     ("nationality", countryObj (default nullCountryInfo (pd_nationality d)));
     ("image_path", DPrim (orElse (pd_image_path d) JNull));
     ("currentClub", clubObj (default (ClubInfo JNull JNull) (pd_currentClub d)));
     ("currentClubCountry", countryObj (default nullCountryInfo (pd_currentClubCountry d)));
     ("updatedAt", DDate now)].

Definition squadId_of (d : squadData) : prim :=
  orElse (sd__id d)
    (JStr ("squad:sportmonks:" +:+ toString (sd_teamId d) +:+ ":current")).
Definition squadDoc (now : Z) (d : squadData) : doc :=
  list_to_map
    [("_id", DPrim (squadId_of d));
     ("provider", DPrim (orElse (sd_provider d) (JStr "sportmonks")));
     ("teamId", DPrim (sd_teamId d));
     ("teamName", DPrim (orElse (sd_teamName d) JNull));
     ("playerIds", DArr (default [] (sd_playerIds d)));
     ("fetchedAt", DDate now)].

Definition countryId_of (d : countryData) : prim :=
  JStr ("country:sportmonks:" +:+ toString (cd_providerId d)).
Definition countryDoc (now : Z) (d : countryData) : doc :=
  list_to_map
    [("_id", DPrim (countryId_of d));
     ("provider", DPrim (JStr "sportmonks"));
     ("providerId", DPrim (cd_providerId d));
     ("name", DPrim (orElse (cd_name d) JNull));
     ("code", DPrim (orElse (cd_code d) JNull));
     ("updatedAt", DDate now)].

(** The write of an upsert into one collection of the database. *)
Definition upsertInto (proj : database -> collection)
    (inj : collection -> database -> database)
    (ix : list string) (_id : prim) (d : doc) : M database doc :=
  fun db => match updateOne ix (proj db) _id d with
            | Ok c => (Ok d, inj c db)
            | Throw e => (Throw e, db)
            end.

Definition upsertTeam (now : Z) (teamData : teamData) : M database doc :=
  upsertInto db_teams setTeams provider_providerId_unique
    (teamId_of teamData) (teamDoc now teamData).

Definition upsertPlayer (now : Z) (playerData : playerData) : M database doc :=
  upsertInto db_players setPlayers provider_providerId_unique
    (playerId_of playerData) (playerDoc now playerData).

Definition upsertSquad (now : Z) (squadData : squadData) : M database doc :=
  upsertInto db_squads setSquads provider_teamId_unique
    (squadId_of squadData) (squadDoc now squadData).

Definition upsertCountry (now : Z) (countryData : countryData) : M database doc :=
  upsertInto db_countries setCountries provider_providerId_unique
    (countryId_of countryData) (countryDoc now countryData).

(** ** Notions of the specification and example data *)

(** The calls are equivalent: they name the same entity. *)
Definition sameTeam (a b : teamData) : Prop :=
  td__id a = td__id b /\ td_provider a = td_provider b
  /\ td_providerId a = td_providerId b.
Definition samePlayer (a b : playerData) : Prop :=
  pd__id a = pd__id b /\ pd_provider a = pd_provider b
  /\ pd_providerId a = pd_providerId b.
Definition sameSquad (a b : squadData) : Prop :=
  sd__id a = sd__id b /\ sd_provider a = sd_provider b
  /\ sd_teamId a = sd_teamId b.

(** What two successive calls of an upsert on the same entity leave: the
    second call cannot fail once the first went through, it computes the
    same [_id], adds no document, and every member it writes is in the
    stored document, whatever the first call wrote; when there was no such
    document before the two calls, one document was added, and it is the
    document of the second call. *)
Definition lastWriteWins {D : Type} (upsert : Z -> D -> M database doc)
    (idOf : D -> prim) (docOf : Z -> D -> doc)
    (coll : database -> collection) (same : D -> D -> Prop) : Prop :=
  forall now1 now2 d1 d2 db r1 db1,
    same d1 d2 ->
    upsert now1 d1 db = (Ok r1, db1) ->
    exists r2 db2 final,
      upsert now2 d2 db1 = (Ok r2, db2)
      /\ idOf d2 = idOf d1
      /\ coll db2 !! idOf d1 = Some final
      /\ dom (coll db2) = dom (coll db1)
      /\ (forall f v, docOf now2 d2 !! f = Some v -> final !! f = Some v)
      /\ (coll db !! idOf d1 = None ->
          final = docOf now2 d2 /\ size (coll db2) = S (size (coll db))).

(** A member of a normalised entity holds a value or null. *)
Definition normal (p : prim) : Prop := truthy p = true \/ p = JNull.

(** Spain is upserted at time 10 without a name, at time 20 with one. *)
Definition spainFirst : teamData :=
  TeamData JUndef JUndef (JNum 18710) JNull (JStr "national") None JNull.
Definition spainAgain : teamData :=
  TeamData JUndef JUndef (JNum 18710) (JStr "Spain") JNull
    (Some (CountryInfo (JNum 32) (JStr "Spain") (JStr "ES"))) JNull.

(** The form that the specification gives to an identifier:
    [<entity>:<provider>:<provider-local-key>]. *)
Definition canonicalId (entity provider key : string) : string :=
  entity +:+ ":" +:+ provider +:+ ":" +:+ key.

(** A squad of team 18710, handed to the store without an [_id]. *)
Definition squad18710 : squadData :=
  SquadData JUndef JUndef (JNum 18710) JUndef (Some []).

(** No two space characters in a row: what a string looks like once its
    white space is collapsed to single spaces. *)
Fixpoint singleSpaced (s : string) : bool :=
  match s with
  | String " " ((String " " _) as rest) => false
  | String _ rest => singleSpaced rest
  | EmptyString => true
  end.

Definition jeanPaul : player :=
  Player (JNum 7) JUndef JNull (JStr "Jean  Paul") (JStr "Sartre")
    JUndef None JUndef None.

(** ** Configuration ([src/config.js]) *)

Record config : Type := Config {
  SPORTMONKS_API_KEY : string;
  TEAM_IDS : list prim;
  REQUEST_DELAY_MS : Z;
  REQUEST_TIMEOUT_MS : Z;
  MAX_RETRIES : Z;
  MAX_PLAYERS_PER_SQUAD : Z
}.

(** [DEFAULTS], spread into what [loadConfig] returns. *)
Definition defaultConfig (key : string) (teamIds : list prim) : config :=
  {| SPORTMONKS_API_KEY := key;
     TEAM_IDS := teamIds;
     REQUEST_DELAY_MS := 350;
     REQUEST_TIMEOUT_MS := 30000;
     MAX_RETRIES := 4;
     MAX_PLAYERS_PER_SQUAD := 24 |}.

(** ** The API client ([src/sportmonksClient.js]) *)

Definition API_BASE : string := "https://api.sportmonks.com/v3/football".

(** A URL: the address and its search parameters. *)
Record url : Type := Url {
  u_href : string;
  u_searchParams : list (string * string)
}.

Global Instance url_eq_dec : EqDecision url.
Proof. solve_decision. Defined.

(** [url.searchParams.set(key, value)] *)
Fixpoint searchParams_set (key value : string) (ps : list (string * string))
  : list (string * string) :=
  match ps with
  | [] => [(key, value)]
  | (k, v) :: ps' =>
      if String.eqb k key
      then (key, value) :: filter (fun kv => negb (String.eqb kv.1 key) = true) ps'
      else (k, v) :: searchParams_set key value ps'
  end.

(** [s.includes(sub)] *)
Fixpoint includes (s sub : string) : bool :=
  prefix sub s
  || match s with
     | String _ s' => includes s' sub
     | EmptyString => false
     end.

(** What the provider sends back for a request.  A response has a status,
    its body read as text and its body read as JSON (a syntax error, or the
    document [{data: ...}], [None] when it has no [data]); [fetch] can also
    reject, with the error of the network layer. *)
Inductive jsonBody (A : Type) : Type :=
| BadJson (e : jsError)
| Json (data : option A).
Arguments BadJson {A} e.
Arguments Json {A} data.

Inductive outcome (A : Type) : Type :=
| Responds (status : Z) (text : string) (body : jsonBody A)
| Rejects (e : jsError).
Arguments Responds {A} status text body.
Arguments Rejects {A} e.

(** The answer to one [fetch]: how long it takes to settle, and how. *)
Record reply (A : Type) : Type := Reply {
  latency : Z;
  settles : outcome A
}.
Arguments Reply {A} latency settles.
Arguments latency {A} r.
Arguments settles {A} r.

(** The provider as the process meets it: what the n-th [fetch] of the
    process gets, for the address asked, at each kind of endpoint. *)
Record provider : Type := Provider {
  serveSquad : url -> nat -> reply (list squadEntry);
  servePlayer : url -> nat -> reply player;
  serveTeam : url -> nat -> reply team;
  serveCountry : url -> nat -> reply country
}.

Inductive event : Type :=
| EvRateLimitWait (ms : Z)
| EvBackoff (ms : Z)
| EvFetch (u : url).

(** The module state of the client (caches, rate limiter, call counter)
    together with the clock of the process, the number of [fetch] calls
    made and the trace of what the client did. *)
Record netState : Type := NetState {
  clock : Z;
  fetched : nat;
  trace : list event;
  lastRequestTime : Z;
  totalApiCalls : Z;
  cache_teams : gmap prim team;
  cache_players : gmap prim player;
  cache_countries : gmap prim country
}.

Definition initialNet (now : Z) : netState :=
  NetState now 0 [] 0 0 ∅ ∅ ∅.

Definition abortError : jsError :=
  JsError "AbortError" (JNum 20) "This operation was aborted".

(** [await new Promise(resolve => setTimeout(resolve, ms))], noted in the
    trace as [ev]. *)
Definition sleep (ev : event) (ms : Z) : M netState unit :=
  modify (fun s =>
    NetState (clock s + Z.max 0 ms) (fetched s) (trace s ++ [ev])
      (lastRequestTime s) (totalApiCalls s)
      (cache_teams s) (cache_players s) (cache_countries s)).

Definition setLastRequestTime (t : Z) (s : netState) : netState :=
  NetState (clock s) (fetched s) (trace s) t (totalApiCalls s)
    (cache_teams s) (cache_players s) (cache_countries s).
Definition countApiCall (s : netState) : netState :=
  NetState (clock s) (fetched s) (trace s) (lastRequestTime s)
    (totalApiCalls s + 1)
    (cache_teams s) (cache_players s) (cache_countries s).
Definition setCacheTeams (c : gmap prim team) (s : netState) : netState :=
  NetState (clock s) (fetched s) (trace s) (lastRequestTime s)
    (totalApiCalls s) c (cache_players s) (cache_countries s).
Definition setCachePlayers (c : gmap prim player) (s : netState) : netState :=
  NetState (clock s) (fetched s) (trace s) (lastRequestTime s)
    (totalApiCalls s) (cache_teams s) c (cache_countries s).
Definition setCacheCountries (c : gmap prim country) (s : netState) : netState :=
  NetState (clock s) (fetched s) (trace s) (lastRequestTime s)
    (totalApiCalls s) (cache_teams s) (cache_players s) c.

(** How an iteration of the retry loop ends: [continue] (with the value
    that [lastError] then has) or [return data]. *)
Inductive loopStep (A : Type) : Type :=
| Continue (lastError : option jsError)
| Return (data : A).
Arguments Continue {A} lastError.
Arguments Return {A} data.

Section CreateClient.
Variable cfg : config.
Variable api : provider.

(** [waitForRateLimit()] *)
Definition waitForRateLimit : M netState unit :=
  let* now := gets clock in
  let* last := gets lastRequestTime in
  let elapsed := now - last in
  (if elapsed <? REQUEST_DELAY_MS cfg
   then let waitTime := REQUEST_DELAY_MS cfg - elapsed in
        sleep (EvRateLimitWait waitTime) waitTime
   else ret tt) ;;;
  let* now' := gets clock in
  modify (setLastRequestTime now').

(** [await fetch(url, { signal })] under the timer that aborts it after
    [REQUEST_TIMEOUT_MS]: the response, or the error thrown. *)
Definition fetch {A : Type} (serve : url -> nat -> reply A) (u : url)
  : M netState (Z * string * jsonBody A) :=
  fun s =>
    let r := serve u (fetched s) in
    let timedOut := REQUEST_TIMEOUT_MS cfg <=? latency r in
    let s' := NetState
                (clock s + (if timedOut then Z.max 0 (REQUEST_TIMEOUT_MS cfg)
                            else Z.max 0 (latency r)))
                (S (fetched s)) (trace s ++ [EvFetch u])
                (lastRequestTime s) (totalApiCalls s)
                (cache_teams s) (cache_players s) (cache_countries s) in
    if timedOut then (Throw abortError, s')
    else match settles r with
         | Responds status text body => (Ok (status, text, body), s')
         | Rejects e => (Throw e, s')
         end.

(** [Math.pow(2, attempt) * 1000] *)
Definition backoffMs (attempt : Z) : Z := 2 ^ attempt * 1000.

(** The body of the retry loop of [apiRequest], for one [attempt]. *)
Definition attemptOnce {A : Type} (serve : url -> nat -> reply A) (u : url)
    (attempt : Z) (lastError : option jsError) : M netState (loopStep (option A)) :=
  waitForRateLimit ;;;
  modify countApiCall ;;;
  tryCatch
    (let* response := fetch serve u in
     let '(status, text, body) := response in
     if status =? 429 then
       sleep (EvBackoff (backoffMs attempt)) (backoffMs attempt) ;;;
       ret (Continue lastError)
     else if 500 <=? status then
       sleep (EvBackoff (backoffMs attempt)) (backoffMs attempt) ;;;
       ret (Continue lastError)
     else if 400 <=? status then
       let errorText := text in
       throw (newError ("API Error " +:+ pretty status +:+ ": " +:+ errorText))
     else
       match body with
       | Json data => ret (Return data)
       | BadJson e => throw e
       end)
    (fun error =>
       if String.eqb (err_name error) "AbortError" then
         ret (Continue (Some error))
       else if bool_decide (err_code error = JStr "ECONNRESET")
               || bool_decide (err_code error = JStr "ENOTFOUND")
               || includes (err_message error) "fetch" then
         sleep (EvBackoff (backoffMs attempt)) (backoffMs attempt) ;;;
         ret (Continue (Some error))
       else throw error).

(** The loop [for (attempt = 0; attempt <= MAX_RETRIES; attempt++)], with
    [n] iterations left, and the [throw] after it. *)
Fixpoint attemptsFrom {A : Type} (serve : url -> nat -> reply A) (u : url)
    (n : nat) (attempt : Z) (lastError : option jsError) : M netState (option A) :=
  match n with
  | O =>
      throw (newError ("Max retries exceeded. Last error: "
                       +:+ match lastError with
                           | Some e => err_message e
                           | None => "undefined"
                           end))
  | S n' =>
      let* step := attemptOnce serve u attempt lastError in
      match step with
      | Return data => ret data
      | Continue lastError' => attemptsFrom serve u n' (attempt + 1) lastError'
      end
  end.

(** The address that [apiRequest] builds. *)
Definition requestUrl (endpoint : string) (params : list (string * prim)) : url :=
  let withToken := searchParams_set "api_token" (SPORTMONKS_API_KEY cfg) [] in
  Url (API_BASE +:+ endpoint)
    (foldl (fun ps kv =>
              match kv.2 with
              | JUndef | JNull => ps
              | value => searchParams_set kv.1 (toString value) ps
              end) withToken params).

(** [apiRequest(endpoint, params)]: the [data] member of the document
    received. *)
Definition apiRequest {A : Type} (serve : url -> nat -> reply A)
    (endpoint : string) (params : list (string * prim)) : M netState (option A) :=
  attemptsFrom serve (requestUrl endpoint params)
    (Z.to_nat (MAX_RETRIES cfg + 1)) 0 None.

(** [getTeamSquad(teamId)] *)
Definition getTeamSquad (teamId : prim) : M netState (list squadEntry) :=
  let* data := apiRequest (serveSquad api)
                 ("/squads/teams/" +:+ toString teamId) [("include", JStr "player")] in
  ret (default [] data).

(** [getPlayer(playerId)] *)
Definition getPlayer (playerId : prim) : M netState (option player) :=
  let* cached := gets (fun s => cache_players s !! playerId) in
  match cached with
  | Some p => ret (Some p)
  | None =>
      let* data := apiRequest (servePlayer api)
                     ("/players/" +:+ toString playerId)
                     [("include", JStr "nationality,teams")] in
      match data with
      | Some player =>
          modify (fun s => setCachePlayers (<[playerId := player]> (cache_players s)) s) ;;;
          ret (Some player)
      | None => ret None
      end
  end.

(** [getTeam(teamId)] *)
Definition getTeam (teamId : prim) : M netState (option team) :=
  let* cached := gets (fun s => cache_teams s !! teamId) in
  match cached with
  | Some t => ret (Some t)
  | None =>
      let* data := apiRequest (serveTeam api)
                     ("/teams/" +:+ toString teamId) [("include", JStr "country")] in
      match data with
      | Some team =>
          modify (fun s => setCacheTeams (<[teamId := team]> (cache_teams s)) s) ;;;
          ret (Some team)
      | None => ret None
      end
  end.

(** [getCountry(countryId)] *)
Definition getCountry (countryId : prim) : M netState (option country) :=
  if negb (truthy countryId) then ret None
  else
    let* cached := gets (fun s => cache_countries s !! countryId) in
    match cached with
    | Some c => ret (Some c)
    | None =>
        let* data := apiRequest (serveCountry api)
                       ("/countries/" +:+ toString countryId) [] in
        match data with
        | Some country =>
            modify (fun s => setCacheCountries (<[countryId := country]> (cache_countries s)) s) ;;;
            ret (Some country)
        | None => ret None
        end
    end.
End CreateClient.

(** The client object, as [processTeamSquad] receives it: four operations
    over a state of their own. *)
Record Client (E : Type) : Type := MkClient {
  client_getTeamSquad : prim -> M E (option (list squadEntry));
  client_getTeam : prim -> M E (option team);
  client_getPlayer : prim -> M E (option player);
  client_getCountry : prim -> M E (option country)
}.
Arguments MkClient {E}.
Arguments client_getTeamSquad {E} c teamId.
Arguments client_getTeam {E} c teamId.
Arguments client_getPlayer {E} c playerId.
Arguments client_getCountry {E} c countryId.

(** [createClient(config)] *)
Definition createClient (cfg : config) (api : provider) : Client netState :=
  MkClient
    (fun teamId => let* entries := getTeamSquad cfg api teamId in ret (Some entries))
    (getTeam cfg api)
    (getPlayer cfg api)
    (getCountry cfg api).

(** ** The orchestrator ([src/ingest.js]) *)

Inductive errorEntry : Type :=
| PlayerError (playerId : prim) (error : string)
| TeamError (teamId : prim) (error : string).

Global Instance errorEntry_eq_dec : EqDecision errorEntry.
Proof. solve_decision. Defined.

Record teamStats : Type := Stats {
  playersUpserted : Z;
  errors : list errorEntry
}.

(** What the process works on: the state of the client and the database. *)
Record world (E : Type) : Type := World {
  w_env : E;
  w_db : database
}.
Arguments World {E} w_env w_db.
Arguments w_env {E} w.
Arguments w_db {E} w.

(** The same, with the local variables [playerIds] and [stats] of a call
    of [processTeamSquad]. *)
Record frame (E : Type) : Type := Frame {
  f_env : E;
  f_db : database;
  f_playerIds : list string;
  f_stats : teamStats
}.
Arguments Frame {E} f_env f_db f_playerIds f_stats.
Arguments f_env {E} f.
Arguments f_db {E} f.
Arguments f_playerIds {E} f.
Arguments f_stats {E} f.

Record runSummary : Type := Summary {
  teamsProcessed : Z;
  sum_playersUpserted : Z;
  squadsUpserted : Z;
  sum_errors : list errorEntry
}.

(** [TypeError], thrown on reading a member of [undefined]. *)
Definition typeError (message : string) : jsError :=
  JsError "TypeError" JUndef message.

Section Ingest.
Context {E : Type}.
(** [Date.now()] in a state of the client, and [Date.parse]. *)
Variable timeOf : E -> Z.
Variable Date_parse : string -> option Z.
Variable client : Client E.
Variable cfg : config.

(** [await client.f(...)] and [await db.f(...)] *)
Definition callClient {A : Type} (c : M E A) : M (frame E) A :=
  fun f => let '(r, e') := c (f_env f) in
           (r, Frame e' (f_db f) (f_playerIds f) (f_stats f)).
Definition callDb {A : Type} (c : Z -> M database A) : M (frame E) A :=
  fun f => let '(r, db') := c (timeOf (f_env f)) (f_db f) in
           (r, Frame (f_env f) db' (f_playerIds f) (f_stats f)).

(** [playerIds.push(playerDocId); stats.playersUpserted++] *)
Definition pushPlayer (playerDocId : string) (f : frame E) : frame E :=
  Frame (f_env f) (f_db f) (f_playerIds f ++ [playerDocId])
    (Stats (playersUpserted (f_stats f) + 1) (errors (f_stats f))).
(** [stats.errors.push(entry)] *)
Definition pushError (entry : errorEntry) (f : frame E) : frame E :=
  Frame (f_env f) (f_db f) (f_playerIds f)
    (Stats (playersUpserted (f_stats f)) (errors (f_stats f) ++ [entry])).

(** The block "Get nationality info". *)
Definition nationalityOf (player : player) : M (frame E) countryInfo :=
  match p_nationality player with
  | Some nationality => ret (extractCountryInfo (Some nationality))
  | None =>
      if truthy (p_nationality_id player) then
        let* natCountry := callClient (client_getCountry client (p_nationality_id player)) in
        ret (extractCountryInfo natCountry)
      else ret nullCountryInfo
  end.

(** The block "Get current club info": the club and its country. *)
Definition currentClubOf (player : player) : M (frame E) (clubInfo * countryInfo) :=
  match p_teams player with
  | Some teams =>
      let* now := gets (fun f => timeOf (f_env f)) in
      match findCurrentClub Date_parse now (Some teams) with
      | Some currentClub =>
          let currentClubInfo :=
            ClubInfo (orElse (m_id currentClub) JNull) (orElse (m_name currentClub) JNull) in
          match m_country currentClub with
          | Some c => ret (currentClubInfo, extractCountryInfo (Some c))
          | None =>
              if truthy (m_country_id currentClub) then
                let* clubCountry :=
                  callClient (client_getCountry client (m_country_id currentClub)) in
                ret (currentClubInfo, extractCountryInfo clubCountry)
              else ret (currentClubInfo, nullCountryInfo)
          end
      | None => ret (ClubInfo JNull JNull, nullCountryInfo)
      end
  | None => ret (ClubInfo JNull JNull, nullCountryInfo)
  end.

Definition playerDocId (player : player) : string :=
  "player:sportmonks:" +:+ toString (p_id player).

(** The argument of [db.upsertPlayer] in [processTeamSquad]. *)
Definition playerDataOf (player : player) (nationalityInfo : countryInfo)
    (club : clubInfo * countryInfo) : playerData :=
  {| pd__id := JUndef;
     pd_provider := JUndef;
     pd_providerId := p_id player;
     pd_name := getPlayerName (Some player);
     pd_position := JUndef;
     pd_nationality := Some nationalityInfo;
     pd_image_path := orElse (p_image_path player) JNull;
     pd_currentClub := Some club.1;
     pd_currentClubCountry := Some club.2 |}.

(** The body of the loop over the squad entries. *)
Definition processEntry (entry : squadEntry) : M (frame E) unit :=
  let playerId := e_player_id entry in
  if negb (truthy playerId) then ret tt
  else
    tryCatch
      (let* player :=
         match e_player entry with
         | Some p =>
             if truthy (p_nationality_id p) then ret (Some p)
             else callClient (client_getPlayer client playerId)
         | None => callClient (client_getPlayer client playerId)
         end in
       match player with
       | None => ret tt
       | Some player =>
           let* nationalityInfo := nationalityOf player in
           let* club := currentClubOf player in
           callDb (fun now => upsertPlayer now (playerDataOf player nationalityInfo club)) ;;;
           modify (pushPlayer (playerDocId player))
       end)
      (fun error => modify (pushError (PlayerError playerId (err_message error)))).

(** [for (let i = 0; i < maxPlayers; i++)], with [n] iterations left. *)
Fixpoint playersLoop (squadEntries : list squadEntry) (n i : nat) : M (frame E) unit :=
  match n with
  | O => ret tt
  | S n' =>
      match squadEntries !! i with
      | Some entry => processEntry entry ;;; playersLoop squadEntries n' (S i)
      | None => throw (typeError "Cannot read properties of undefined (reading 'player_id')")
      end
  end.

(** The same loop, as the traversal of the entries that it visits. *)
Fixpoint processEntries (entries : list squadEntry) : M (frame E) unit :=
  match entries with
  | [] => ret tt
  | entry :: rest => processEntry entry ;;; processEntries rest
  end.

(** The argument of [db.upsertTeam] and of [db.upsertCountry]. *)
Definition teamDataOf (team : team) : teamData :=
  {| td__id := JUndef;
     td_provider := JUndef;
     td_providerId := t_id team;
     td_name := t_name team;
     td_type := orElse (t_type team) JNull;
     td_country := Some (extractCountryInfo (t_country team));
     td_image_path := orElse (t_image_path team) JNull |}.
Definition countryDataOf (c : country) : countryData :=
  {| cd_providerId := c_id c;
     cd_name := c_name c;
     cd_code := orElse (c_iso2 c) (orElse (c_fifa_name c) JNull) |}.

(** The block [if (team) { ... }]: the team and its country are upserted. *)
Definition saveTeam (team : option team) : M (frame E) unit :=
  match team with
  | Some team =>
      callDb (fun now => upsertTeam now (teamDataOf team)) ;;;
      match t_country team with
      | Some c =>
          if truthy (c_id c)
          then callDb (fun now => upsertCountry now (countryDataOf c)) ;;; ret tt
          else ret tt
      | None => ret tt
      end
  | None => ret tt
  end.

(** The argument of [db.upsertSquad] in [processTeamSquad]. *)
Definition squadDataOf (teamId : prim) (playerIds : list string) : squadData :=
  {| sd__id := JUndef; sd_provider := JUndef; sd_teamId := teamId;
     sd_teamName := JUndef; sd_playerIds := Some playerIds |}.

(** The [try] block of [processTeamSquad] and its [catch]. *)
Definition processTeamSquadBody (teamId : prim) : M (frame E) unit :=
  tryCatch
    (let* squadEntries := callClient (client_getTeamSquad client teamId) in
     match squadEntries with
     | None => ret tt
     | Some squadEntries =>
         if Z.of_nat (List.length squadEntries) =? 0 then ret tt
         else
           let* team := callClient (client_getTeam client teamId) in
           saveTeam team ;;;
           let maxPlayers :=
             Z.min (Z.of_nat (List.length squadEntries)) (MAX_PLAYERS_PER_SQUAD cfg) in
           playersLoop squadEntries (Z.to_nat maxPlayers) 0 ;;;
           let* playerIds := gets f_playerIds in
           callDb (fun now => upsertSquad now (squadDataOf teamId playerIds)) ;;;
           ret tt
     end)
    (fun error => modify (pushError (TeamError teamId (err_message error)))).

(** [processTeamSquad(client, teamId, config)]: it returns its [stats],
    whatever happened. *)
Definition processTeamSquad (teamId : prim) : world E -> teamStats * world E :=
  fun w =>
    let f := snd (processTeamSquadBody teamId
                    (Frame (w_env w) (w_db w) [] (Stats 0 []))) in
    (f_stats f, World (f_env f) (f_db f)).

(** Step 5 of [main]: the loop over [config.TEAM_IDS]. *)
Fixpoint processTeams (teamIds : list prim) (summary : runSummary) (w : world E)
  : runSummary * world E :=
  match teamIds with
  | [] => (summary, w)
  | teamId :: rest =>
      let '(stats, w') := processTeamSquad teamId w in
      processTeams rest
        {| teamsProcessed := teamsProcessed summary + 1;
           sum_playersUpserted := sum_playersUpserted summary + playersUpserted stats;
           squadsUpserted := squadsUpserted summary + 1;
           sum_errors := sum_errors summary ++ errors stats |}
        w'
  end.

(** [main()], from the loaded configuration to the exit status; the
    connection to the database and its indexes are taken as set up. *)
Definition main (w : world E) : Z * option runSummary * world E :=
  match TEAM_IDS cfg with
  | [] => (1, None, w)
  | teamIds =>
      let '(summary, w') := processTeams teamIds (Summary 0 0 0 []) w in
      (if 0 <? Z.of_nat (List.length (sum_errors summary)) then 1 else 0, Some summary, w')
  end.
End Ingest.

(** ** Notions of the retry policy *)

(** The back-off waits of a trace, in order. *)
Definition backoffs (tr : list event) : list Z :=
  omap (fun ev => match ev with EvBackoff ms => Some ms | _ => None end) tr.

Section Replies.
Variable cfg : config.
Context {A : Type}.

(** The request timed out: the timer aborted it. *)
Definition timesOut (r : reply A) : bool :=
  (REQUEST_TIMEOUT_MS cfg <=? latency r)
  || match settles r with
     | Rejects e => String.eqb (err_name e) "AbortError"
     | Responds _ _ _ => false
     end.

(** HTTP 429, HTTP 5xx, or a network failure that the client takes as
    transient. *)
Definition transient (r : reply A) : bool :=
  negb (timesOut r)
  && match settles r with
     | Responds status _ _ => (status =? 429) || (500 <=? status)
     | Rejects e =>
         bool_decide (err_code e = JStr "ECONNRESET")
         || bool_decide (err_code e = JStr "ENOTFOUND")
         || includes (err_message e) "fetch"
     end.

(** The request is answered in time, below status 400, with a JSON
    document whose [data] member is [data]. *)
Definition delivers (r : reply A) (data : option A) : Prop :=
  timesOut r = false
  /\ exists status text, settles r = Responds status text (Json data) /\ status < 400.

(** A 4xx answer other than 429, in time. *)
Definition clientError (r : reply A) (status : Z) (text : string) : Prop :=
  timesOut r = false
  /\ 400 <= status < 500 /\ status <> 429
  /\ exists body, settles r = Responds status text body.

(** The back-off waits that a run of failed attempts asks for, the first
    of them being attempt number [attempt]: none after a time-out. *)
Fixpoint backoffsOf (attempt : Z) (rs : list (reply A)) : list Z :=
  match rs with
  | [] => []
  | r :: rs' =>
      (if timesOut r then [] else [backoffMs attempt]) ++ backoffsOf (attempt + 1) rs'
  end.
End Replies.

(** The caches of the client are the same in both states. *)
Definition sameCaches (s s' : netState) : Prop :=
  cache_teams s' = cache_teams s
  /\ cache_players s' = cache_players s
  /\ cache_countries s' = cache_countries s.

(** What an attempt leaves untouched, and how it moves the count of
    requests and the back-off waits of the trace. *)
Definition attemptMoves (s s' : netState) (waits : list Z) : Prop :=
  fetched s' = S (fetched s)
  /\ backoffs (trace s') = backoffs (trace s) ++ waits
  /\ totalApiCalls s' = totalApiCalls s + 1
  /\ sameCaches s s'.

(** The replies that the provider gives to the next requests for [u],
    from the state [s] on. *)
Definition nextReplies {A : Type} (serve : url -> nat -> reply A) (u : url)
    (s : netState) (rs : list (reply A)) : Prop :=
  forall (i : nat) r, rs !! i = Some r -> serve u (fetched s + i)%nat = r.

(** The reply is a response with this status, in time. *)
Definition answers {A : Type} (cfg : config) (r : reply A) (status : Z) : Prop :=
  latency r < REQUEST_TIMEOUT_MS cfg
  /\ exists text body, settles r = Responds status text body.

(** Example data: a configuration, a player, and providers whose player
    endpoint fails before it answers. *)
Definition exampleConfig : config := defaultConfig "token" [JNum 18710].

Definition pedri : player :=
  Player (JNum 7) (JStr "Pedri") JUndef (JStr "Pedro") (JStr "Gonzalez")
    (JNum 32) None JUndef None.

Definition found {A : Type} (a : A) : reply A :=
  Reply 120 (Responds 200 "" (Json (Some a))).
Definition refused {A : Type} (status : Z) (text : string) : reply A :=
  Reply 120 (Responds status text (Json None)).

Definition busyThenFound : url -> nat -> reply player :=
  fun _ n => match n with
             | O => refused 429 "Too Many Requests"
             | S O => refused 500 "Internal Server Error"
             | _ => found pedri
             end.
Definition slowThenFound : url -> nat -> reply player :=
  fun _ n => match n with
             | O => Reply 45000 (Responds 200 "" (Json (Some pedri)))
             | _ => found pedri
             end.
Definition notFoundThenFound : url -> nat -> reply player :=
  fun _ n => match n with
             | O => refused 404 "Could not fetch the player"
             | _ => found pedri
             end.

(** ** Notions of the orchestrator's properties *)

(** The documents of the provider [sportmonks] in a collection are stored
    under the identifier that the store computes from their key. *)
Definition canonical (mkId : prim -> string) (ix : list string) (c : collection) : Prop :=
  map_Forall (fun k d =>
    forall key, indexKey ix d = [DPrim (JStr "sportmonks"); DPrim key] ->
                k = JStr (mkId key)) c.

Definition dbCanonical (db : database) : Prop :=
  canonical (fun key => "team:sportmonks:" +:+ toString key)
    provider_providerId_unique (db_teams db)
  /\ canonical (fun key => "player:sportmonks:" +:+ toString key)
       provider_providerId_unique (db_players db)
  /\ canonical (fun key => "squad:sportmonks:" +:+ toString key +:+ ":current")
       provider_teamId_unique (db_squads db)
  /\ canonical (fun key => "country:sportmonks:" +:+ toString key)
       provider_providerId_unique (db_countries db).

(** What a call of the client does in every state that satisfies [Inv], an
    invariant of the client: it returns [a], it throws [err], it returns
    something. *)
Section Outcomes.
Context {E : Type} (Inv : E -> Prop).

Definition returns {A : Type} (c : M E A) (a : A) : Prop :=
  forall e, Inv e -> exists e', c e = (Ok a, e') /\ Inv e'.
Definition throws {A : Type} (c : M E A) (err : jsError) : Prop :=
  forall e, Inv e -> exists e', c e = (Throw err, e') /\ Inv e'.
Definition completes {A : Type} (c : M E A) : Prop :=
  forall e, Inv e -> exists a e', c e = (Ok a, e') /\ Inv e'.
End Outcomes.

(** [!player || !player.nationality_id]: the entry does not carry the
    player, and the player is fetched. *)
Definition needsFetch (entry : squadEntry) : bool :=
  match e_player entry with
  | Some p => negb (truthy (p_nationality_id p))
  | None => true
  end.

(** What becomes of a squad entry: its player is upserted, the fetch of
    the player fails, the fetch yields no payload, or the entry names no
    player. *)
Inductive fate : Type :=
| Upserted (p : player)
| Failed (error : jsError)
| Missing
| NoId.

Definition hasFate {E : Type} (Inv : E -> Prop) (client : Client E)
    (entry : squadEntry) (ft : fate) : Prop :=
  match ft with
  | Upserted p =>
      truthy (e_player_id entry) = true
      /\ ((needsFetch entry = false /\ e_player entry = Some p)
          \/ (needsFetch entry = true
              /\ returns Inv (client_getPlayer client (e_player_id entry)) (Some p)))
  | Failed error =>
      truthy (e_player_id entry) = true /\ needsFetch entry = true
      /\ throws Inv (client_getPlayer client (e_player_id entry)) error
  | Missing =>
      truthy (e_player_id entry) = true /\ needsFetch entry = true
      /\ returns Inv (client_getPlayer client (e_player_id entry)) None
  | NoId => truthy (e_player_id entry) = false
  end.

(** The identifiers and the errors that the fates of the entries leave. *)
Definition upsertedId (ft : fate) : option string :=
  match ft with Upserted p => Some (playerDocId p) | _ => None end.
Definition playerErrorOf (ef : squadEntry * fate) : option errorEntry :=
  match ef.2 with
  | Failed error => Some (PlayerError (e_player_id ef.1) (err_message error))
  | _ => None
  end.
Definition upsertedIds (fates : list fate) : list string := omap upsertedId fates.
Definition playerErrors (entries : list squadEntry) (fates : list fate)
  : list errorEntry := omap playerErrorOf (zip entries fates).

(** Between two states of a call of [processTeamSquad]: the squads
    collection is the same, and [playerIds] has at most [n] more entries. *)
Definition grows {E : Type} (n : nat) (f f' : frame E) : Prop :=
  db_squads (f_db f') = db_squads (f_db f)
  /\ (List.length (f_playerIds f') <= List.length (f_playerIds f) + n)%nat.

(** The [_id] under which [processTeamSquad] writes the squad of a team. *)
Definition squadDocId (teamId : prim) : prim :=
  JStr ("squad:sportmonks:" +:+ toString teamId +:+ ":current").

(** Example data: a client that answers from tables and keeps no state
    but the clock, and squads to fetch with it. *)
Definition tableClient
    (squads : prim -> result (option (list squadEntry)))
    (teams : prim -> result (option team))
    (players : prim -> result (option player))
    (countries : prim -> result (option country)) : Client Z :=
  MkClient (fun teamId e => (squads teamId, e))
           (fun teamId e => (teams teamId, e))
           (fun playerId e => (players playerId, e))
           (fun countryId e => (countries countryId, e)).

Definition notFound (what : string) : jsError :=
  newError ("API Error 404: " +:+ what +:+ " not found").

(** The player with this number, as a squad lists and as the provider
    describes it. *)
Definition playerNo (n : Z) : player :=
  Player (JNum n) JUndef JUndef (JStr "Player") (JStr (pretty n))
    (JNum 32) None JUndef None.
Definition listed (n : Z) : squadEntry := SquadEntry (JNum n) None.
Definition listedWithPlayer (n : Z) : squadEntry :=
  SquadEntry (JNum n) (Some (playerNo n)).

Definition spainTeam : team :=
  Team (JNum 18710) (JStr "Spain") (JStr "national") JUndef
    (Some (Country (JNum 32) (JStr "Spain") JUndef (JStr "ES") JUndef)).

(** Three players are listed; the provider has no player 2 (it answers
    404) and sends no payload for player 3 in [absentThird]. *)
Definition threeListed : list squadEntry := [listed 1; listed 2; listed 3].
Definition secondMissing : Client Z :=
  tableClient (fun _ => Ok (Some threeListed)) (fun _ => Ok (Some spainTeam))
    (fun playerId =>
       if bool_decide (playerId = JNum 2) then Throw (notFound "player")
       else match playerId with
            | JNum n => Ok (Some (playerNo n))
            | _ => Ok None
            end)
    (fun _ => Ok None).
Definition absentThird : Client Z :=
  tableClient (fun _ => Ok (Some threeListed)) (fun _ => Ok (Some spainTeam))
    (fun playerId =>
       if bool_decide (playerId = JNum 3) then Ok None
       else match playerId with
            | JNum n => Ok (Some (playerNo n))
            | _ => Ok None
            end)
    (fun _ => Ok None).

(** Thirty players are listed with their data. *)
Definition thirtyListed : list squadEntry :=
  listedWithPlayer <$> (Z.of_nat <$> seq 1 30).
Definition thirtyClient : Client Z :=
  tableClient (fun _ => Ok (Some thirtyListed)) (fun _ => Ok (Some spainTeam))
    (fun _ => Ok None) (fun _ => Ok None).

(** The provider is down. *)
Definition offlineClient : Client Z :=
  tableClient (fun _ => Throw (newError "fetch failed"))
    (fun _ => Throw (newError "fetch failed"))
    (fun _ => Throw (newError "fetch failed"))
    (fun _ => Throw (newError "fetch failed")).

Definition noDates : string -> option Z := fun _ => None.
Definition freshWorld : world Z := World 1700000000000 emptyDb.

(** Example data: the memberships of a player, with dates that a toy
    [Date.parse] knows. *)
Definition isoDates : string -> option Z := fun s =>
  if String.eqb s "2017-07-01" then Some 1498867200000
  else if String.eqb s "2019-06-30" then Some 1561852800000
  else if String.eqb s "2019-07-01" then Some 1561939200000
  else None.

(** Example data: a provider that lists three players for a team, knows
    the first and the third, answers 404 for the second in [withoutSecond]
    and sends a document without [data] for the third in [emptyThird]. *)
Definition spainCountry : country :=
  Country (JNum 32) (JStr "Spain") JUndef (JStr "ES") JUndef.

Definition playersEndpoint (second third : reply player) : url -> nat -> reply player :=
  fun u _ =>
    if String.eqb (u_href u) (API_BASE +:+ "/players/1") then found (playerNo 1)
    else if String.eqb (u_href u) (API_BASE +:+ "/players/2") then second
    else if String.eqb (u_href u) (API_BASE +:+ "/players/3") then third
    else refused 404 "Not found".

Definition withoutSecond : provider :=
  Provider (fun _ _ => found threeListed)
           (playersEndpoint (refused 404 "Player not found") (found (playerNo 3)))
           (fun _ _ => found spainTeam)
           (fun _ _ => found spainCountry).
Definition emptyThird : provider :=
  Provider (fun _ _ => found threeListed)
           (playersEndpoint (found (playerNo 2)) (Reply 120 (Responds 200 "{}" (Json None))))
           (fun _ _ => found spainTeam)
           (fun _ _ => found spainCountry).

Definition firstRun : world netState := World (initialNet 1700000000000) emptyDb.

(** ** Notions on the provider *)

(** The addresses that the client asks. *)
Definition squadUrl (cfg : config) (teamId : prim) : url :=
  requestUrl cfg ("/squads/teams/" +:+ toString teamId) [("include", JStr "player")].
Definition playerUrl (cfg : config) (playerId : prim) : url :=
  requestUrl cfg ("/players/" +:+ toString playerId)
    [("include", JStr "nationality,teams")].
Definition teamUrl (cfg : config) (teamId : prim) : url :=
  requestUrl cfg ("/teams/" +:+ toString teamId) [("include", JStr "country")].
Definition countryUrl (cfg : config) (countryId : prim) : url :=
  requestUrl cfg ("/countries/" +:+ toString countryId) [].

(** The provider answers an address the same way each time. *)
Definition steady (api : provider) : Prop :=
  (forall u n m, serveSquad api u n = serveSquad api u m)
  /\ (forall u n m, servePlayer api u n = servePlayer api u m)
  /\ (forall u n m, serveTeam api u n = serveTeam api u m)
  /\ (forall u n m, serveCountry api u n = serveCountry api u m).

(** What the caches hold is what the provider delivers. *)
Definition cachesAgree (cfg : config) (api : provider) (s : netState) : Prop :=
  (forall id t n, cache_teams s !! id = Some t ->
     delivers cfg (serveTeam api (teamUrl cfg id) n) (Some t))
  /\ (forall id p n, cache_players s !! id = Some p ->
     delivers cfg (servePlayer api (playerUrl cfg id) n) (Some p))
  /\ (forall id c n, cache_countries s !! id = Some c ->
     delivers cfg (serveCountry api (countryUrl cfg id) n) (Some c)).

(** ** Notions on the requests of the client *)

(** The requests made between two states of the process. *)
Definition requestsMade (s s' : netState) : Z :=
  Z.of_nat (fetched s') - Z.of_nat (fetched s).

(** The provider is overloaded: every request gets HTTP 503, in time. *)
Definition overloaded {A : Type} : url -> nat -> reply A :=
  fun _ _ => refused 503 "Service Unavailable".

(** The error that the [catch] of the retry loop keeps from a reply: the
    abort of a request that timed out, the rejection of [fetch]; nothing
    for an HTTP response that is retried. *)
Definition caughtError {A : Type} (cfg : config) (r : reply A) : option jsError :=
  if REQUEST_TIMEOUT_MS cfg <=? latency r then Some abortError
  else match settles r with
       | Rejects e => Some e
       | Responds _ _ _ => None
       end.

(** [lastError?.message] after the attempts that got the replies [rs]. *)
Definition lastErrorOf {A : Type} (cfg : config) (rs : list (reply A))
    (lastError : option jsError) : option jsError :=
  foldl (fun le r => match caughtError cfg r with
                     | Some e => Some e
                     | None => le
                     end) lastError rs.
Definition lastErrorMessage (lastError : option jsError) : string :=
  match lastError with
  | Some e => err_message e
  | None => "undefined"
  end.

(** The reply is an HTTP response, received in time. *)
Definition respondsInTime {A : Type} (cfg : config) (r : reply A) : Prop :=
  latency r < REQUEST_TIMEOUT_MS cfg
  /\ exists status text body, settles r = Responds status text body.

(** ** Notions on the writes of the store *)





(** ** Notions on any run of the orchestrator *)


(** The membership carries no date. *)
Definition undated (t : membership) : Prop :=
  truthy (pivotStart t) = false /\ truthy (pivotEnd t) = false.

Definition isPlayerError (entry : errorEntry) : Prop :=
  match entry with
  | PlayerError _ _ => True
  | TeamError _ _ => False
  end.

(** The player document with this identifier is in the store. *)
Definition playerStored (db : database) (id : string) : Prop :=
  exists pd, db_players db !! JStr id = Some pd
             /\ pd !! "_id" = Some (DPrim (JStr id)).

(** The steps that [processTeamSquad] takes between the fetch of the
    squad and the write of the squad document, whatever the client and
    the store answer: a call of the client; an upsert of the team, of its
    country, of a player (refused, or done and then noted in [playerIds]
    and in [stats]); an error noted for a player.  The number bounds the
    players and the player errors noted. *)
Inductive moves {E : Type} : nat -> frame E -> frame E -> Prop :=
| moves_refl f : moves 0 f f
| moves_le n m f f' : (n <= m)%nat -> moves n f f' -> moves m f f'
| moves_trans n m f1 f2 f3 : moves n f1 f2 -> moves m f2 f3 -> moves (n + m) f1 f3
| moves_client f e' :
    moves 0 f (Frame e' (f_db f) (f_playerIds f) (f_stats f))
| moves_team f now team r db' :
    upsertTeam now (teamDataOf team) (f_db f) = (r, db') ->
    moves 0 f (Frame (f_env f) db' (f_playerIds f) (f_stats f))
| moves_country f now c r db' :
    upsertCountry now (countryDataOf c) (f_db f) = (r, db') ->
    moves 0 f (Frame (f_env f) db' (f_playerIds f) (f_stats f))
| moves_refused f now player info club e db' :
    upsertPlayer now (playerDataOf player info club) (f_db f) = (Throw e, db') ->
    moves 0 f (Frame (f_env f) db' (f_playerIds f) (f_stats f))
| moves_upserted f now player info club d db' :
    upsertPlayer now (playerDataOf player info club) (f_db f) = (Ok d, db') ->
    moves 1 f (pushPlayer (playerDocId player)
                 (Frame (f_env f) db' (f_playerIds f) (f_stats f)))
| moves_playerError f playerId message :
    moves 1 f (pushError (PlayerError playerId message) f).

(** How a call of [processTeamSquad] ends, [f] being the frame when the
    loop over the entries is over or the call is cut short: without a
    write of the squad, with the statistics as they are or with the error
    of the team noted last; or with the squad written. *)
Definition endsFrom {E : Type} (teamId : prim) (f : frame E)
    (stats : teamStats) (w' : world E) : Prop :=
  w_env w' = f_env f
  /\ ((w_db w' = f_db f
       /\ (stats = f_stats f
           \/ exists message,
                stats = Stats (playersUpserted (f_stats f))
                          (errors (f_stats f) ++ [TeamError teamId message])))
      \/ (stats = f_stats f
          /\ exists now d,
               upsertSquad now (squadDataOf teamId (f_playerIds f)) (f_db f)
               = (Ok d, w_db w'))).

(** A roster with an entry that names no player and one that carries its
    player, and a client whose provider is reachable for the squad and the
    team, not for the players. *)
Definition mixedRoster : list squadEntry :=
  [listed 1; SquadEntry JNull None; listedWithPlayer 2; listed 3].
Definition playersDown : Client Z :=
  tableClient (fun _ => Ok (Some mixedRoster)) (fun _ => Ok (Some spainTeam))
    (fun _ => Throw (newError "fetch failed")) (fun _ => Ok None).

(** Memberships without dates: a national team, then two clubs. *)
Definition undatedTeams : list membership :=
  [Membership (JNum 18710) (JStr "Spain") (JStr "national") None None (JNum 32);
   Membership (JNum 83) (JStr "FC Barcelona") (JStr "domestic") None None (JNum 32);
   Membership (JNum 2975) (JStr "Las Palmas") JUndef None None (JNum 32)].


(** * The other programs of the repository

    ** Strings of the runtime

    A string is the sequence of the bytes of its UTF-8 encoding: the
    characters that the code tests (the comma, the double quote, the line
    feed, the ASCII letters and digits, the white space of ECMAScript,
    the combining marks U+0300 to U+036F) are told apart on the bytes as
    on the code units.  The functions of the runtime that rest on the
    tables of Unicode ([toLowerCase], [normalize]) or on the grammar of
    numbers ([parseInt]) are parameters. *)

Definition dquote : ascii := ascii_of_nat 34.
Definition lineFeed : ascii := ascii_of_nat 10.
Definition bytes (codes : list nat) : string :=
  string_of_list_ascii (ascii_of_nat <$> codes).

(** The white space and the line terminators of ECMAScript, which
    [trim] removes and [\s] matches: U+0009 to U+000D, U+0020, U+00A0,
    U+1680, U+2000 to U+200A, U+2028, U+2029, U+202F, U+205F, U+3000 and
    U+FEFF. *)
Definition whiteSpace : list string :=
  bytes <$> [[9]; [10]; [11]; [12]; [13]; [32]; [194; 160]; [225; 154; 128];
             [226; 128; 128]; [226; 128; 129]; [226; 128; 130]; [226; 128; 131];
             [226; 128; 132]; [226; 128; 133]; [226; 128; 134]; [226; 128; 135];
             [226; 128; 136]; [226; 128; 137]; [226; 128; 138]; [226; 128; 168];
             [226; 128; 169]; [226; 128; 175]; [226; 129; 159]; [227; 128; 128];
             [239; 187; 191]]%nat.

(** [s] without [w] in front, when [w] starts it. *)
Fixpoint dropPrefix (w s : string) : option string :=
  match w with
  | EmptyString => Some s
  | String a w' =>
      match s with
      | String b s' => if Ascii.eqb a b then dropPrefix w' s' else None
      | EmptyString => None
      end
  end.

(** [s] without the first of [ws] that starts it. *)
Fixpoint dropOneOf (ws : list string) (s : string) : option string :=
  match ws with
  | [] => None
  | w :: ws' =>
      match dropPrefix w s with
      | Some s' => Some s'
      | None => dropOneOf ws' s
      end
  end.

(** [s] without the run of [ws] in front; [fuel] bounds the run. *)
Fixpoint stripStart (ws : list string) (fuel : nat) (s : string) : string :=
  match fuel with
  | O => s
  | S fuel' =>
      match dropOneOf ws s with
      | Some s' => stripStart ws fuel' s'
      | None => s
      end
  end.

(** [s.trim()] *)
Definition trimStart (s : string) : string :=
  stripStart whiteSpace (String.length s) s.
Definition trimEnd (s : string) : string :=
  String.rev (stripStart (String.rev <$> whiteSpace) (String.length s) (String.rev s)).
Definition trim (s : string) : string := trimEnd (trimStart s).

(** [s.split(sep)], for a separator of one character; [current] is the
    piece being read. *)
Fixpoint splitFrom (sep : ascii) (s current : string) : list string :=
  match s with
  | EmptyString => [current]
  | String c rest =>
      if Ascii.eqb c sep then current :: splitFrom sep rest ""
      else splitFrom sep rest (current +:+ String c "")
  end.
Definition split (sep : ascii) (s : string) : list string := splitFrom sep s "".

(** [s.replace(/\s+/g, '-')]; [fuel] bounds the length. *)
Fixpoint dashSpacesFrom (fuel : nat) (s : string) : string :=
  match fuel with
  | O => s
  | S fuel' =>
      match dropOneOf whiteSpace s with
      | Some s' =>
          String "-" (dashSpacesFrom fuel' (stripStart whiteSpace (String.length s') s'))
      | None =>
          match s with
          | EmptyString => ""
          | String c s' => String c (dashSpacesFrom fuel' s')
          end
      end
  end.
Definition dashSpaces (s : string) : string := dashSpacesFrom (String.length s) s.

(** The classes [[a-z0-9]] and [[\u0300-\u036f]], the latter on the two
    bytes of its characters (CC 80 to CD AF). *)
Definition isAlnum (c : ascii) : bool :=
  let n := nat_of_ascii c in
  ((97 <=? n) && (n <=? 122) || (48 <=? n) && (n <=? 57))%nat.
Definition isMark (c1 c2 : ascii) : bool :=
  let n1 := nat_of_ascii c1 in
  let n2 := nat_of_ascii c2 in
  ((n1 =? 204) && (128 <=? n2) && (n2 <=? 191)
   || (n1 =? 205) && (128 <=? n2) && (n2 <=? 175))%nat.

(** [s.replace(/[\u0300-\u036f]/g, '')] *)
Fixpoint removeMarks (s : string) : string :=
  match s with
  | String c1 ((String c2 rest) as t) =>
      if isMark c1 c2 then removeMarks rest else String c1 (removeMarks t)
  | _ => s
  end.

(** [s.replace(/[^a-z0-9]+/g, '-')]; [inRun]: the character before was
    replaced. *)
Fixpoint dashRuns (s : string) (inRun : bool) : string :=
  match s with
  | EmptyString => ""
  | String c rest =>
      if isAlnum c then String c (dashRuns rest false)
      else if inRun then dashRuns rest true
      else String "-" (dashRuns rest true)
  end.

(** [s.replace(/^-|-$/g, '')]: without the hyphen in front, and without
    the hyphen at the end of what is left. *)
Definition stripLeadingDash (s : string) : string :=
  match s with
  | String c rest => if Ascii.eqb c "-" then rest else s
  | EmptyString => s
  end.
Fixpoint stripTrailingDash (s : string) : string :=
  match s with
  | EmptyString => ""
  | String c EmptyString => if Ascii.eqb c "-" then "" else s
  | String c rest => String c (stripTrailingDash rest)
  end.
Definition trimDashes (s : string) : string :=
  stripTrailingDash (stripLeadingDash s).

(** An object as its own members, in the order in which they were first
    assigned: [o[key] = v] and [o[key]]. *)
Fixpoint objSet {V : Type} (key : string) (v : V) (o : list (string * V))
  : list (string * V) :=
  match o with
  | [] => [(key, v)]
  | (k, x) :: o' =>
      if String.eqb k key then (k, v) :: o' else (k, x) :: objSet key v o'
  end.
Fixpoint objGet {V : Type} (o : list (string * V)) (key : string) : option V :=
  match o with
  | [] => None
  | (k, x) :: o' => if String.eqb k key then Some x else objGet o' key
  end.

(** Every character of the string is in the class. *)
Fixpoint allChars (P : ascii -> bool) (s : string) : bool :=
  match s with
  | EmptyString => true
  | String c rest => P c && allChars P rest
  end.
(** The character does not occur in the string. *)
Definition without (c : ascii) (s : string) : bool :=
  allChars (fun x => negb (Ascii.eqb x c)) s.

(** The shape of a slug: letters [a] to [z], digits and hyphens, no two
    hyphens in a row, no hyphen in front or at the end. *)
Definition isSlugChar (c : ascii) : bool := isAlnum c || Ascii.eqb c "-".
Definition startsWithDash (s : string) : bool :=
  match s with
  | String c _ => Ascii.eqb c "-"
  | EmptyString => false
  end.
Fixpoint endsWithDash (s : string) : bool :=
  match s with
  | EmptyString => false
  | String c EmptyString => Ascii.eqb c "-"
  | String _ rest => endsWithDash rest
  end.
Fixpoint noDoubleDash (s : string) : bool :=
  match s with
  | EmptyString => true
  | String c rest =>
      negb (Ascii.eqb c "-" && startsWithDash rest) && noDoubleDash rest
  end.
Definition slugShaped (s : string) : bool :=
  allChars isSlugChar s && noDoubleDash s
  && negb (startsWithDash s) && negb (endsWithDash s).

(** Writes a string between double quotes. *)
Definition quoted (s : string) : string :=
  String dquote (s +:+ String dquote "").

(** The receiver of a call of [toLowerCase]: the string, or the TypeError
    of the call on a value that is not one. *)
Definition toLowerCaseOf (what : string) (p : prim) : result string :=
  match p with
  | JStr s => Ok s
  | JUndef | JNull =>
      Throw (typeError ("Cannot read properties of " +:+ toString p
                        +:+ " (reading 'toLowerCase')"))
  | _ => Throw (typeError (what +:+ ".toLowerCase is not a function"))
  end.

(** ** The CSV import ([src/ingestCSV.js]) *)

Module IngestCSV.

Definition MAX_PLAYERS_PER_SQUAD : Z := 26.

(** The loop of [parseCSVLine], with its variables [values], [current]
    and [inQuotes]. *)
Fixpoint parseLineFrom (line : string) (values : list string) (current : string)
    (inQuotes : bool) : list string :=
  match line with
  | EmptyString => values ++ [current]
  | String char rest =>
      if Ascii.eqb char dquote then parseLineFrom rest values current (negb inQuotes)
      else if Ascii.eqb char "," && negb inQuotes
           then parseLineFrom rest (values ++ [current]) "" inQuotes
           else parseLineFrom rest values (current +:+ String char "") inQuotes
  end.

(** [parseCSVLine(line)] *)
Definition parseCSVLine (line : string) : list string :=
  parseLineFrom line [] "" false.

(** A row object. *)
Abbreviation row := (list (string * prim)).

(** [row.name]: the member, [undefined] when the row has none. *)
Definition member (r : row) (name : string) : prim := default JUndef (objGet r name).

(** [header.forEach((col, idx) => { row[col] = values[idx]?.trim() || null })];
    the assignment to [__proto__] adds no member. *)
Definition rowOf (header values : list string) : row :=
  foldl (fun r cv =>
           if String.eqb cv.1 "__proto__" then r
           else objSet cv.1 (orElse (JStr (trim cv.2)) JNull) r)
        [] (zip header values).

(** [teamMap.get(team).push(row)], after [teamMap.set(team, [])] when the
    map has no such key; a [Map] keeps the order in which its keys came. *)
Fixpoint mapPush (teamMap : list (prim * list row)) (team : prim) (r : row)
  : list (prim * list row) :=
  match teamMap with
  | [] => [(team, [r])]
  | (k, rs) :: rest =>
      if decide (k = team) then (k, rs ++ [r]) :: rest
      else (k, rs) :: mapPush rest team r
  end.

(** Step 5 of [main]: the players by team. *)
Definition groupByTeam (rows : list row) : list (prim * list row) :=
  foldl (fun teamMap r => mapPush teamMap (member r "team") r) [] rows.

Record summary : Type := Summary {
  teamsUpserted : Z;
  playersUpserted : Z;
  squadsUpserted : Z
}.

(** What the import works on: the database, and the number of writes made,
    which tells the time of the next one. *)
Record importState : Type := ImportState {
  writes : nat;
  store : database
}.

Section Importer.
Variable toLowerCase : string -> string.
Variable normalizeNFD : string -> string.
(** [new Date()] at the n-th write of the process. *)
Variable Date_now : nat -> Z.

(** The body of the loop over the data lines: the row of the line, when
    the line gives one. *)
Definition parseDataLine (header : list string) (line : string) : option row :=
  let line := trim line in
  if String.eqb line "" then None
  else
    let values := parseCSVLine line in
    if negb (List.length values =? List.length header)%nat then None
    else Some (rowOf header values).

(** [parseCSV(content)] *)
Definition parseCSV (content : string) : result (list row) :=
  let lines := split lineFeed (trim content) in
  if (List.length lines <? 2)%nat then
    Throw (newError "CSV must have a header row and at least one data row")
  else
    let header := (fun h => toLowerCase (trim h)) <$> split "," (hd "" lines) in
    let hasTeam := bool_decide ("team" ∈ header) in
    let hasName := bool_decide ("name" ∈ header)
                   || bool_decide ("player_fullname" ∈ header) in
    if negb hasTeam || negb hasName then
      Throw (newError ("CSV must have " +:+ quoted "team" +:+ " and either "
                       +:+ quoted "name" +:+ " or " +:+ quoted "player_fullname"
                       +:+ " columns"))
    else Ok (omap (parseDataLine header) (tl lines)).

(** The slug of [generateId]. *)
Definition slugOf (name : string) : string :=
  trimDashes (dashRuns (removeMarks (normalizeNFD (toLowerCase name))) false).

(** [generateId(prefix, name)], for a name that is a string. *)
Definition generateId (prefix name : string) : string :=
  prefix +:+ ":csv:" +:+ slugOf name.

(** [await db.f(...)] *)
Definition callDb {A : Type} (c : Z -> M database A) : M importState A :=
  fun s => let '(r, db') := c (Date_now (writes s)) (store s) in
           (r, ImportState (S (writes s)) db').

(** The arguments of the three upserts. *)
Definition teamDataOf (teamName : prim) (teamId : string) : teamData :=
  {| td__id := JStr teamId;
     td_provider := JStr "csv";
     td_providerId := teamName;
     td_name := teamName;
     td_type := JStr "national";
     td_country := Some (CountryInfo JNull teamName JNull);
     td_image_path := JNull |}.

Definition playerIdOf (teamName : string) (player : row) : string :=
  let playerName := orElse (member player "name") (member player "player_fullname") in
  generateId "player" (teamName +:+ "-" +:+ toString playerName).

Definition playerDataOf (teamName : string) (player : row) : playerData :=
  let playerName := orElse (member player "name") (member player "player_fullname") in
  let clubCountry :=
    orElse (member player "club_country") (orElse (member player "country") JNull) in
  {| pd__id := JStr (playerIdOf teamName player);
     pd_provider := JStr "csv";
     pd_providerId := JStr (teamName +:+ ":" +:+ toString playerName);
     pd_name := playerName;
     pd_position := orElse (member player "position") JNull;
     pd_nationality := Some (CountryInfo JNull (JStr teamName) JNull);
     pd_image_path := orElse (member player "image") JNull;
     pd_currentClub := Some (ClubInfo JNull (orElse (member player "club") JNull));
     pd_currentClubCountry := Some (CountryInfo JNull clubCountry JNull) |}.

Definition squadIdOf (teamName : string) : string :=
  "squad:csv:" +:+ dashSpaces (toLowerCase teamName) +:+ ":current".

Definition squadDataOf (teamName : string) (playerIds : list string) : squadData :=
  {| sd__id := JStr (squadIdOf teamName);
     sd_provider := JStr "csv";
     sd_teamId := JStr teamName;
     sd_teamName := JStr teamName;
     sd_playerIds := Some playerIds |}.

(** The loop over the players of a team, with its variables [playerIds]
    and [summary]. *)
Fixpoint upsertPlayers (teamName : string) (players : list row)
    (playerIds : list string) (sum : summary) : M importState (list string * summary) :=
  match players with
  | [] => ret (playerIds, sum)
  | player :: rest =>
      callDb (fun now => upsertPlayer now (playerDataOf teamName player)) ;;;
      upsertPlayers teamName rest (playerIds ++ [playerIdOf teamName player])
        (Summary (teamsUpserted sum) (playersUpserted sum + 1) (squadsUpserted sum))
  end.

(** The body of the loop over the teams. *)
Definition processTeam (teamName : prim) (players : list row) (sum : summary)
  : M importState summary :=
  let* name := (fun s => (toLowerCaseOf "name" teamName, s)) in
  let teamId := generateId "team" name in
  callDb (fun now => upsertTeam now (teamDataOf teamName teamId)) ;;;
  let sum := Summary (teamsUpserted sum + 1) (playersUpserted sum) (squadsUpserted sum) in
  let maxPlayers := Z.min (Z.of_nat (List.length players)) MAX_PLAYERS_PER_SQUAD in
  let* done := upsertPlayers name (take (Z.to_nat maxPlayers) players) [] sum in
  let '(playerIds, sum) := done in
  callDb (fun now => upsertSquad now (squadDataOf name playerIds)) ;;;
  ret (Summary (teamsUpserted sum) (playersUpserted sum) (squadsUpserted sum + 1)).

(** Step 6 of [main]: the loop over the teams of the map. *)
Fixpoint processTeams (teamMap : list (prim * list row)) (sum : summary)
  : M importState summary :=
  match teamMap with
  | [] => ret sum
  | (teamName, players) :: rest =>
      let* sum' := processTeam teamName players sum in
      processTeams rest sum'
  end.

(** [main()], from the content of the file to the summary; the connection
    to the database and its indexes are taken as set up. *)
Definition main (csvContent : string) : M importState summary :=
  let* rows := (fun s => (parseCSV csvContent, s)) in
  processTeams (groupByTeam rows) (Summary 0 0 0).
End Importer.

End IngestCSV.

(** What a member of a parsed row can be: a string that is not empty, or
    null. *)
Definition isCell (p : prim) : Prop :=
  p = JNull \/ exists s, p = JStr s /\ s <> "".

(** The header of the file, as [parseCSV] reads it. *)
Definition headerOf (toLowerCase : string -> string) (content : string) : list string :=
  (fun h => toLowerCase (trim h)) <$> split "," (hd "" (split lineFeed (trim content))).

(** [toLowerCase] on the ASCII letters, for examples. *)
Definition lowerChar (c : ascii) : ascii :=
  let n := nat_of_ascii c in
  if ((65 <=? n) && (n <=? 90))%nat then ascii_of_nat (n + 32) else c.
Fixpoint asciiLower (s : string) : string :=
  match s with
  | EmptyString => ""
  | String c rest => String (lowerChar c) (asciiLower rest)
  end.

(** The players under a key of the map, none when the map has no such key. *)
Fixpoint playersOf (teamMap : list (prim * list IngestCSV.row)) (team : prim)
  : list IngestCSV.row :=
  match teamMap with
  | [] => []
  | (k, rs) :: rest => if decide (k = team) then rs else playersOf rest team
  end.

(** The rows of a team. *)
Definition rowsOf (team : prim) (rows : list IngestCSV.row) : list IngestCSV.row :=
  filter (fun r => IngestCSV.member r "team" = team) rows.

(** The players that the import keeps of a team, and the sum of numbers. *)
Definition playersKept (players : list IngestCSV.row) : Z :=
  Z.min (Z.of_nat (List.length players)) IngestCSV.MAX_PLAYERS_PER_SQUAD.
Definition sumZ (l : list Z) : Z := foldr Z.add 0 l.

(** The squad document under this identifier lists at most 26 players. *)
Definition cappedSquad (db : database) (id : string) : Prop :=
  exists d ids,
    db_squads db !! JStr id = Some d
    /\ d !! "playerIds" = Some (DArr ids)
    /\ Z.of_nat (List.length ids) <= IngestCSV.MAX_PLAYERS_PER_SQUAD.

(** The time of the n-th write, for examples: one second apart. *)
Definition everySecond (n : nat) : Z := 1700000000000 + 1000 * Z.of_nat n.

Definition squadsCsv : string :=
  "team,Name,position,club" +:+ String lineFeed
  ("Spain,Pedri,MID,Barcelona" +:+ String lineFeed
  (String lineFeed
  ("Spain, Lamine Yamal ,," +:+ String lineFeed
  ("too,many,cells,in,here" +:+ String lineFeed
  ("Brazil,Vini,FWD,Real Madrid" +:+ String lineFeed ""))))).

(** A cell of a line, as a writer of CSV files puts it: the text as it is,
    or between double quotes.  The parser reads it back when the text has
    no double quote and, unless it is quoted, no comma. *)
Definition writeCell (cell : bool * string) : string :=
  if cell.1 then quoted cell.2 else cell.2.
Definition readable (cell : bool * string) : Prop :=
  without dquote cell.2 = true /\ (cell.1 = false -> without "," cell.2 = true).

(** The documents of the provider [csv] are filed as the import files
    them: a team under the identifier of its name, a player under the
    identifier of its team and name, a squad under the identifier of its
    team. *)
Definition csvFiled (toLowerCase normalizeNFD : string -> string) (db : database) : Prop :=
  (forall k d name,
     db_teams db !! k = Some d ->
     indexKey provider_providerId_unique d = [DPrim (JStr "csv"); DPrim (JStr name)] ->
     k = JStr (IngestCSV.generateId toLowerCase normalizeNFD "team" name))
  /\ (forall k d teamName playerName,
        db_players db !! k = Some d ->
        indexKey provider_providerId_unique d
        = [DPrim (JStr "csv"); DPrim (JStr (teamName +:+ ":" +:+ playerName))] ->
        k = JStr (IngestCSV.generateId toLowerCase normalizeNFD "player"
                    (teamName +:+ "-" +:+ playerName)))
  /\ (forall k d name,
        db_squads db !! k = Some d ->
        indexKey provider_teamId_unique d = [DPrim (JStr "csv"); DPrim (JStr name)] ->
        k = JStr (IngestCSV.squadIdOf toLowerCase name)).

(** The key of a player has one slug, however it splits into the name of
    a team and the name of a player. *)
Definition slugsOfKeys (toLowerCase normalizeNFD : string -> string) : Prop :=
  forall teamName playerName teamName' playerName',
    teamName +:+ ":" +:+ playerName = teamName' +:+ ":" +:+ playerName' ->
    IngestCSV.slugOf toLowerCase normalizeNFD (teamName +:+ "-" +:+ playerName)
    = IngestCSV.slugOf toLowerCase normalizeNFD (teamName' +:+ "-" +:+ playerName').

(** ** The order of the positions ([client/src/components/TeamGrid.jsx],
    and the route of the players of a team in the server) *)

(** The members that an object literal inherits from [Object.prototype]. *)
Definition objectPrototypeMembers : list string :=
  ["constructor"; "__defineGetter__"; "__defineSetter__"; "hasOwnProperty";
   "__lookupGetter__"; "__lookupSetter__"; "isPrototypeOf";
   "propertyIsEnumerable"; "toString"; "valueOf"; "__proto__"; "toLocaleString"].

(** [positionOrder[position] || 5] as a number: the order of the four
    positions, 5 for what the object has no member for, and NaN ([None])
    for an inherited member, which is a function or an object. *)
Definition positionOrder (position : prim) : option Z :=
  let key := toString position in
  if String.eqb key "GK" then Some 1
  else if String.eqb key "DEF" then Some 2
  else if String.eqb key "MID" then Some 3
  else if String.eqb key "FWD" then Some 4
  else if bool_decide (key ∈ objectPrototypeMembers) then None
  else Some 5.

Section SortPlayers.
Context {A : Type}.
(** [player.position] *)
Variable position : A -> prim.

(** The comparator: [orderA - orderB]. *)
Definition comparePositions (a b : A) : option Z :=
  match positionOrder (position a), positionOrder (position b) with
  | Some orderA, Some orderB => Some (orderA - orderB)
  | _, _ => None
  end.

(** [sortPlayersByPosition(players)] *)
Definition sortPlayersByPosition (players : list A) : list A :=
  jsSort comparePositions players.

(** The rank of a player whose position names no inherited member. *)
Definition positionRank (player : A) : Z := default 5 (positionOrder (position player)).
End SortPlayers.

(** Example data: players as the server sends them. *)
Definition fourPlayers : list (string * prim) :=
  [("Pedri", JStr "MID"); ("Unai Simon", JStr "GK"); ("Rodri", JStr "MID");
   ("Coach", JNull)].

(** ** Loading the configuration ([src/config.js]) *)

(** How a call ends that may end the process: it returns, or the process
    exits with a code, after these lines on the error stream. *)
Inductive ending (A : Type) : Type :=
  | Returned (a : A)
  | Exited (code : Z) (stderr : list string).
Arguments Returned {A} a.
Arguments Exited {A} code stderr.

Section LoadConfig.
(** The numbers of the runtime, with [parseInt(id, 10)] and [isNaN]. *)
Variable number : Type.
Variable parseInt : string -> number.
Variable isNaN : number -> bool.

(** A member of the configuration. *)
Inductive configValue : Type :=
  | CUndefined
  | CStr (s : string)
  | CNum (n : Z)
  | CIds (ids : list number).

(** A string that may be undefined, as a member. *)
Definition stringValue (s : option string) : configValue :=
  match s with
  | Some s => CStr s
  | None => CUndefined
  end.

(** [DEFAULTS] *)
Definition DEFAULTS : list (string * configValue) :=
  [("DB_NAME", CStr "football");
   ("REQUEST_DELAY_MS", CNum 350);
   ("REQUEST_TIMEOUT_MS", CNum 30000);
   ("MAX_RETRIES", CNum 4);
   ("MAX_PLAYERS_PER_SQUAD", CNum 24)].

(** [{ ...o, ...source }]: the members of [source] assigned in order. *)
Definition spread {V : Type} (source o : list (string * V)) : list (string * V) :=
  foldl (fun o kv => objSet kv.1 kv.2 o) o source.

(** [!s], for a string that may be undefined. *)
Definition blank (s : option string) : bool :=
  match s with
  | Some s => String.eqb s ""
  | None => true
  end.

(** The segments of [TEAM_IDS] that the code parses. *)
Definition teamIdSegments (TEAM_IDS_RAW : option string) : list string :=
  if blank TEAM_IDS_RAW then []
  else filter (fun id => String.length id <> 0%nat)
         (trim <$> split "," (default "" TEAM_IDS_RAW)).

(** The callback of the second [map], with [errors]: the number, or null
    ([None]) after the error is pushed. *)
Definition parseTeamId (done : list string * list (option number)) (id : string)
  : list string * list (option number) :=
  let num := parseInt id in
  if isNaN num then
    (done.1 ++ ["Invalid team ID: " +:+ quoted id +:+ " is not a number"],
     done.2 ++ [None])
  else (done.1, done.2 ++ [Some num]).

(** [loadConfig()], in the environment [process.env]. *)
Definition loadConfig (env : string -> option string)
  : ending (list (string * configValue)) :=
  let errors : list string := [] in
  let SPORTMONKS_API_KEY := trim <$> env "SPORTMONKS_API_KEY" in
  let MONGODB_URI := trim <$> env "MONGODB_URI" in
  let TEAM_IDS_RAW := trim <$> env "TEAM_IDS" in
  let errors :=
    if blank SPORTMONKS_API_KEY then
      errors ++ ["SPORTMONKS_API_KEY is required. Get your API key from https://sportmonks.com"]
    else errors in
  let errors :=
    if blank MONGODB_URI then
      errors ++ ["MONGODB_URI is required. Get your connection string from MongoDB Atlas."]
    else errors in
  let '(errors, parsed) := foldl parseTeamId (errors, []) (teamIdSegments TEAM_IDS_RAW) in
  let teamIds := omap id parsed in
  let DB_NAME :=
    if blank (trim <$> env "DB_NAME") then "football"
    else default "" (trim <$> env "DB_NAME") in
  if (0 <? List.length errors)%nat then
    Exited 1
      ([String lineFeed "[CONFIG ERROR] Missing or invalid environment variables:"
        +:+ String lineFeed ""]
       ++ ((fun err => "  - " +:+ err) <$> errors)
       ++ [String lineFeed "Please check your .env file and try again."
           +:+ String lineFeed ""])
  else
    Returned
      (spread DEFAULTS
         (objSet "TEAM_IDS" (CIds teamIds)
            (objSet "DB_NAME" (CStr DB_NAME)
               (objSet "MONGODB_URI" (stringValue MONGODB_URI)
                  (objSet "SPORTMONKS_API_KEY" (stringValue SPORTMONKS_API_KEY)
                     []))))).

(** [requireTeamIds(config)]; a string has a length, a number has none. *)
Definition requireTeamIds (config : list (string * configValue)) : ending unit :=
  let exits :=
    Exited 1
      [String lineFeed "[CONFIG ERROR] TEAM_IDS is empty or not set."
       +:+ String lineFeed "";
       "  Please set TEAM_IDS in your .env file with comma-separated team IDs.";
       "  Example: TEAM_IDS=18710,18645,18647" +:+ String lineFeed "";
       "  Tip: Use " +:+ quoted "npm run find-teams -- Spain England Brazil"
       +:+ " to find team IDs." +:+ String lineFeed ""] in
  match objGet config "TEAM_IDS" with
  | Some (CIds (_ :: _)) => Returned tt
  | Some (CStr (String _ _)) => Returned tt
  | Some (CNum n) => if n =? 0 then exits else Returned tt
  | _ => exits
  end.
End LoadConfig.

Arguments CUndefined {number}.
Arguments CStr {number} s.
Arguments CNum {number} n.
Arguments CIds {number} ids.

(** The environment with a variable set. *)
Definition setenv (name : string) (value : option string) (env : string -> option string)
  : string -> option string :=
  fun k => if String.eqb k name then value else env k.

(** Example data: numbers as integers, read from decimal digits only. *)
Fixpoint digitsFrom (s : string) (acc : Z) : option Z :=
  match s with
  | EmptyString => Some acc
  | String c rest =>
      let n := nat_of_ascii c in
      if ((48 <=? n) && (n <=? 57))%nat then digitsFrom rest (10 * acc + Z.of_nat (n - 48))
      else None
  end.
Definition digits (s : string) : option Z :=
  match s with
  | EmptyString => None
  | _ => digitsFrom s 0
  end.
Definition notANumber (n : option Z) : bool :=
  match n with
  | None => true
  | Some _ => false
  end.
Definition exampleEnv : string -> option string :=
  setenv "SPORTMONKS_API_KEY" (Some " key ")
    (setenv "MONGODB_URI" (Some "mongodb://localhost")
       (setenv "TEAM_IDS" (Some "18710, 18645,,18647 ")
          (setenv "DB_NAME" (Some "worldcup") (fun _ => None)))).

(** ** Finding the teams of a country ([src/findTeamIds.js]) *)

(** [array.filter(f)] with a callback that may throw. *)
Fixpoint filterR {A : Type} (f : A -> result bool) (l : list A) : result (list A) :=
  match l with
  | [] => Ok []
  | x :: rest =>
      match f x with
      | Throw e => Throw e
      | Ok keep =>
          match filterR f rest with
          | Throw e => Throw e
          | Ok kept => Ok (if keep then x :: kept else kept)
          end
      end
  end.

(** A team of the result. *)
Record foundTeam : Type := FoundTeam {
  ft_id : prim;
  ft_name : prim;
  ft_type : prim;
  ft_country : prim;
  ft_countryCode : prim
}.

Record searchResult : Type := SearchResult {
  sr_countryName : string;
  sr_found : bool;
  sr_teams : list foundTeam
}.

Section FindTeams.
Variable toLowerCase : string -> string.

(** [team.name?.toLowerCase()]: undefined ([None]) for a team without a
    name. *)
Definition nameLowerOf (team : team) : result (option string) :=
  match t_name team with
  | JUndef | JNull => Ok None
  | p => match toLowerCaseOf "team.name?" p with
         | Ok s => Ok (Some (toLowerCase s))
         | Throw e => Throw e
         end
  end.

(** The callback of the first filter. *)
Definition isNational (team : team) : result bool :=
  if decide (t_type team = JStr "national") then Ok true
  else match nameLowerOf team with
       | Ok (Some nameLower) => Ok (includes nameLower "national")
       | Ok None => Ok false
       | Throw e => Throw e
       end.

(** The callback of the second filter. *)
Definition isMatch (countryName : string) (team : team) : result bool :=
  match nameLowerOf team with
  | Ok name =>
      let nameLower :=
        match name with
        | Some s => if String.eqb s "" then "" else s
        | None => ""
        end in
      let searchLower := toLowerCase countryName in
      Ok (includes nameLower searchLower || includes searchLower nameLower)
  | Throw e => Throw e
  end.

(** The object that the loop pushes for a team. *)
Definition foundTeamOf (team : team) : foundTeam :=
  {| ft_id := t_id team;
     ft_name := t_name team;
     ft_type := t_type team;
     ft_country :=
       orElse (default JUndef (c_name <$> t_country team)) (JStr "Unknown");
     ft_countryCode :=
       orElse (default JUndef (c_iso2 <$> t_country team))
         (orElse (default JUndef (c_fifa_name <$> t_country team)) (JStr "N/A")) |}.

(** The body of the loop over the teams, with [seen] and [combined]. *)
Definition combine (done : list prim * list foundTeam) (team : team)
  : list prim * list foundTeam :=
  if bool_decide (t_id team ∈ done.1) then done
  else (done.1 ++ [t_id team], done.2 ++ [foundTeamOf team]).

(** [findNationalTeam(client, countryName)], from the results of the
    search. *)
Definition teamsAmong (countryName : string) (results : list team) : result searchResult :=
  match results with
  | [] => Ok (SearchResult countryName false [])
  | _ =>
      match filterR isNational results with
      | Throw e => Throw e
      | Ok nationalTeams =>
          match filterR (isMatch countryName) results with
          | Throw e => Throw e
          | Ok allMatches =>
              let combined := (foldl combine ([], []) (nationalTeams ++ allMatches)).2 in
              Ok (SearchResult countryName (0 <? List.length combined)%nat combined)
          end
      end
  end.

(** [findNationalTeam(client, countryName)], with [client.searchTeam]. *)
Definition findNationalTeam {E : Type} (searchTeam : string -> M E (list team))
    (countryName : string) : M E searchResult :=
  let* results := searchTeam countryName in
  fun e => (teamsAmong countryName results, e).
End FindTeams.

(** Example data. *)
Definition spanishTeams : list team :=
  [Team (JNum 1) (JStr "spain u21") (JStr "domestic") JNull None;
   Team (JNum 2) JNull (JStr "domestic") JNull None;
   Team (JNum 3) (JStr "spain") (JStr "national") JNull None;
   Team (JNum 4) (JStr "portugal") (JStr "domestic") JNull None;
   Team (JNum 3) (JStr "spain") (JStr "national") JNull None].

(** * Part II: properties *)

(** ** Properties of the store *)

Section UpdateOne.
Context (ix : list string).
Implicit Types (c : collection) (d : doc) (_id : prim).

Lemma indexKey_union_same (d1 d2 older : doc) :
  (forall f, f ∈ ix -> d2 !! f = d1 !! f) ->
  indexKey ix (d2 ∪ (d1 ∪ older)) = indexKey ix (d1 ∪ older).
Proof.
  intros Hsame. unfold indexKey. apply Forall_fmap_ext_1, Forall_forall.
  intros f Hf. f_equal. rewrite !lookup_union, (Hsame f Hf).
  by destruct (d1 !! f), (older !! f).
Qed.

Lemma union_overwrite (d1 d2 older : doc) :
  dom d1 = dom d2 -> d2 ∪ (d1 ∪ older) = d2 ∪ older.
Proof.
  intros Hdom. apply map_eq. intros f. rewrite !lookup_union.
  destruct (d2 !! f) as [v|] eqn:E2; [by destruct (d1 !! f), (older !! f)|].
  assert (d1 !! f = None) as ->; [|by destruct (older !! f)].
  apply not_elem_of_dom. rewrite Hdom. by apply not_elem_of_dom.
Qed.

(** A second [updateOne] on the same [_id], with the same index key and
    the same member names, cannot be refused, adds no document, and
    leaves the members of the second write. *)
Lemma updateOne_twice c c1 _id d1 d2 :
  updateOne ix c _id d1 = Ok c1 ->
  dom d1 = dom d2 ->
  (forall f, f ∈ ix -> d2 !! f = d1 !! f) ->
  updateOne ix c1 _id d2 = Ok (<[_id := d2 ∪ default ∅ (c !! _id)]> c).
Proof.
  unfold updateOne. intros H1 Hdom Hsame.
  destruct (decide (indexFree ix c _id (d1 ∪ default ∅ (c !! _id)))) as [Hfree|];
    [|done].
  injection H1 as <-. rewrite lookup_insert_eq. simpl.
  rewrite (union_overwrite _ _ _ Hdom), insert_insert_eq.
  rewrite decide_True; [done|].
  intros k d' Hk. destruct (decide (k = _id)) as [->|Hne]; [by left|right].
  rewrite lookup_insert_ne in Hk by done.
  destruct (Hfree k d' Hk) as [?|Hd']; [done|].
  rewrite <- (union_overwrite d1 d2 _ Hdom), indexKey_union_same; done.
Qed.
End UpdateOne.

Lemma updateOne_Ok_inv ix (c c1 : collection) _id (d : doc) :
  updateOne ix c _id d = Ok c1 -> c1 = <[_id := d ∪ default ∅ (c !! _id)]> c.
Proof. unfold updateOne. case_decide; congruence. Qed.

Lemma upsertInto_twice proj inj ix _id (d1 d2 : doc) db r1 db1 :
  (forall c d, proj (inj c d) = c) ->
  upsertInto proj inj ix _id d1 db = (Ok r1, db1) ->
  dom d1 = dom d2 ->
  (forall f, f ∈ ix -> d2 !! f = d1 !! f) ->
  exists db2 final,
    upsertInto proj inj ix _id d2 db1 = (Ok d2, db2)
    /\ proj db2 !! _id = Some final
    /\ dom (proj db2) = dom (proj db1)
    /\ (forall f v, d2 !! f = Some v -> final !! f = Some v)
    /\ (proj db !! _id = None ->
        final = d2 /\ size (proj db2) = S (size (proj db))).
Proof.
  intros Hpi H1 Hdom Hsame. unfold upsertInto in *.
  destruct (updateOne ix (proj db) _id d1) as [c1|] eqn:E1; [|done].
  injection H1 as _ <-. rewrite Hpi.
  rewrite (updateOne_twice ix _ _ _ _ _ E1 Hdom Hsame).
  apply updateOne_Ok_inv in E1 as ->.
  eexists _, _. split; [done|]. rewrite Hpi, lookup_insert_eq.
  split; [done|]. split; [by rewrite !dom_insert_L|].
  split.
  - intros f v Hf. by apply lookup_union_Some_l.
  - intros Hnone. rewrite Hnone. simpl. split.
    + apply map_eq. intros f. rewrite lookup_union, lookup_empty.
      by destruct (d2 !! f).
    + by apply map_size_insert_None.
Qed.

(** The three upserts differ in the collection and in the members; the
    steps of the argument are the same. *)
Ltac same_index_members Hf :=
  apply list_elem_of_In in Hf; simpl in Hf;
  destruct Hf as [<-|[<-|[]]]; reflexivity.

Lemma upsertTeam_lastWriteWins :
  lastWriteWins upsertTeam teamId_of teamDoc db_teams sameTeam.
Proof.
  intros now1 now2 d1 d2 db r1 db1 (Hid & Hprov & Hpid) H1.
  assert (teamId_of d2 = teamId_of d1) as Heq.
  { unfold teamId_of. by rewrite Hid, Hpid. }
  unfold upsertTeam in *. rewrite Heq.
  destruct (upsertInto_twice db_teams setTeams _ _ _ (teamDoc now2 d2) _ _ _
              (fun _ _ => eq_refl) H1) as (db2 & final & H2 & rest).
  - unfold teamDoc. by rewrite !dom_list_to_map_L.
  - intros f Hf. unfold teamDoc. rewrite Heq, Hprov, Hpid.
    same_index_members Hf.
  - by exists (teamDoc now2 d2), db2, final.
Qed.

Lemma upsertPlayer_lastWriteWins :
  lastWriteWins upsertPlayer playerId_of playerDoc db_players samePlayer.
Proof.
  intros now1 now2 d1 d2 db r1 db1 (Hid & Hprov & Hpid) H1.
  assert (playerId_of d2 = playerId_of d1) as Heq.
  { unfold playerId_of. by rewrite Hid, Hpid. }
  unfold upsertPlayer in *. rewrite Heq.
  destruct (upsertInto_twice db_players setPlayers _ _ _ (playerDoc now2 d2) _ _ _
              (fun _ _ => eq_refl) H1) as (db2 & final & H2 & rest).
  - unfold playerDoc. by rewrite !dom_list_to_map_L.
  - intros f Hf. unfold playerDoc. rewrite Heq, Hprov, Hpid.
    same_index_members Hf.
  - by exists (playerDoc now2 d2), db2, final.
Qed.

Lemma upsertSquad_lastWriteWins :
  lastWriteWins upsertSquad squadId_of squadDoc db_squads sameSquad.
Proof.
  intros now1 now2 d1 d2 db r1 db1 (Hid & Hprov & Hpid) H1.
  assert (squadId_of d2 = squadId_of d1) as Heq.
  { unfold squadId_of. by rewrite Hid, Hpid. }
  unfold upsertSquad in *. rewrite Heq.
  destruct (upsertInto_twice db_squads setSquads _ _ _ (squadDoc now2 d2) _ _ _
              (fun _ _ => eq_refl) H1) as (db2 & final & H2 & rest).
  - unfold squadDoc. by rewrite !dom_list_to_map_L.
  - intros f Hf. unfold squadDoc. rewrite Heq, Hprov, Hpid.
    same_index_members Hf.
  - by exists (squadDoc now2 d2), db2, final.
Qed.

Lemma orElse_normal p : normal p -> orElse p JNull = p.
Proof. unfold orElse. by intros [->| ->]. Qed.

(** [C1] Upserting a Team, a Player or a Squad twice with equivalent input
    (the same entity, the other members free) keeps one document under the
    one identifier that both calls compute: the second call goes through,
    adds no document, and every member it writes is the stored one, none
    is merged with the first call's; of a normalised input the stored
    members are the supplied values themselves. *)
Theorem upsert_twice_last_write_wins :
  lastWriteWins upsertTeam teamId_of teamDoc db_teams sameTeam
  /\ lastWriteWins upsertPlayer playerId_of playerDoc db_players samePlayer
  /\ lastWriteWins upsertSquad squadId_of squadDoc db_squads sameSquad
  /\ (forall now d c,
        normal (td_name d) -> normal (td_type d) -> normal (td_image_path d) ->
        td_country d = Some c ->
        teamDoc now d !! "name" = Some (DPrim (td_name d))
        /\ teamDoc now d !! "type" = Some (DPrim (td_type d))
        /\ teamDoc now d !! "country" = Some (countryObj c)
        /\ teamDoc now d !! "image_path" = Some (DPrim (td_image_path d))
        /\ teamDoc now d !! "updatedAt" = Some (DDate now))
  /\ (forall now d nat club clubCountry,
        normal (pd_name d) -> normal (pd_position d) -> normal (pd_image_path d) ->
        pd_nationality d = Some nat -> pd_currentClub d = Some club ->
        pd_currentClubCountry d = Some clubCountry ->
        playerDoc now d !! "name" = Some (DPrim (pd_name d))
        /\ playerDoc now d !! "position" = Some (DPrim (pd_position d))
        /\ playerDoc now d !! "nationality" = Some (countryObj nat)
        /\ playerDoc now d !! "image_path" = Some (DPrim (pd_image_path d))
        /\ playerDoc now d !! "currentClub" = Some (clubObj club)
        /\ playerDoc now d !! "currentClubCountry" = Some (countryObj clubCountry)
        /\ playerDoc now d !! "updatedAt" = Some (DDate now))
  /\ (forall now d ids,
        normal (sd_teamName d) -> sd_playerIds d = Some ids ->
        squadDoc now d !! "teamName" = Some (DPrim (sd_teamName d))
        /\ squadDoc now d !! "playerIds" = Some (DArr ids)
        /\ squadDoc now d !! "fetchedAt" = Some (DDate now)).
Proof.
  split; [exact upsertTeam_lastWriteWins|].
  split; [exact upsertPlayer_lastWriteWins|].
  split; [exact upsertSquad_lastWriteWins|].
  split; [|split].
  - intros now d c Hn Ht Hi Hc. unfold teamDoc.
    rewrite (orElse_normal _ Hn), (orElse_normal _ Ht), (orElse_normal _ Hi), Hc.
    by repeat split.
  - intros now d nat club cc Hn Hp Hi Hnat Hclub Hcc. unfold playerDoc.
    rewrite (orElse_normal _ Hn), (orElse_normal _ Hp), (orElse_normal _ Hi),
      Hnat, Hclub, Hcc.
    by repeat split.
  - intros now d ids Hn Hids. unfold squadDoc.
    rewrite (orElse_normal _ Hn), Hids. by repeat split.
Qed.

Lemma upsert_twice_last_write_wins_witness :
  exists r2 db2 final,
    upsertTeam 20 spainAgain (snd (upsertTeam 10 spainFirst emptyDb)) = (Ok r2, db2)
    /\ teamId_of spainAgain = teamId_of spainFirst
    /\ db_teams db2 !! teamId_of spainFirst = Some final
    /\ dom (db_teams db2) = dom (db_teams (snd (upsertTeam 10 spainFirst emptyDb)))
    /\ (forall f v, teamDoc 20 spainAgain !! f = Some v -> final !! f = Some v)
    /\ (db_teams emptyDb !! teamId_of spainFirst = None ->
        final = teamDoc 20 spainAgain
        /\ size (db_teams db2) = S (size (db_teams emptyDb))).
Proof.
  apply (proj1 upsert_twice_last_write_wins 10 20 spainFirst spainAgain emptyDb
           (teamDoc 10 spainFirst)).
  - repeat split.
  - vm_compute. reflexivity.
Defined.

(** ** Document identifiers *)

Lemma squadId_not_canonical :
  ~ (forall d : squadData,
       truthy (sd__id d) = false ->
       squadId_of d
       = JStr (canonicalId "squad"
                 (toString (orElse (sd_provider d) (JStr "sportmonks")))
                 (toString (sd_teamId d)))).
Proof. intros H. specialize (H squad18710 eq_refl). vm_compute in H. discriminate. Qed.

(** [C9] Without an [_id] of the caller, a team, a player and a country get
    the identifier [<entity>:sportmonks:<providerId>], the provider part
    being the constant [sportmonks] whatever the [provider] member says; a
    squad gets [squad:sportmonks:<teamId>:current]. *)
Theorem computed_identifiers :
  (forall d, truthy (td__id d) = false ->
     teamId_of d = JStr (canonicalId "team" "sportmonks" (toString (td_providerId d))))
  /\ (forall d, truthy (pd__id d) = false ->
     playerId_of d = JStr (canonicalId "player" "sportmonks" (toString (pd_providerId d))))
  /\ (forall d,
     countryId_of d = JStr (canonicalId "country" "sportmonks" (toString (cd_providerId d))))
  /\ (forall d, truthy (sd__id d) = false ->
     squadId_of d
     = JStr (canonicalId "squad" "sportmonks" (toString (sd_teamId d) +:+ ":current"))).
Proof.
  unfold teamId_of, playerId_of, countryId_of, squadId_of, orElse.
  repeat split; intros d; try intros ->; reflexivity.
Qed.

Lemma computed_identifiers_witness :
  teamId_of (TeamData JUndef (JStr "csv") (JNum 18710) JNull JNull None JNull)
  = JStr "team:sportmonks:18710"
  /\ squadId_of squad18710 = JStr "squad:sportmonks:18710:current".
Proof.
  split.
  - exact (proj1 computed_identifiers
             (TeamData JUndef (JStr "csv") (JNum 18710) JNull JNull None JNull)
             eq_refl).
  - exact (proj2 (proj2 (proj2 computed_identifiers)) squad18710 eq_refl).
Defined.

(** ** Names *)

Lemma getPlayerName_keeps_inner_spaces :
  ~ (forall p s, getPlayerName (Some p) = JStr s -> singleSpaced s = true).
Proof. intros H. specialize (H jeanPaul _ eq_refl). vm_compute in H. discriminate. Qed.

Lemma pretty_N_go_nonempty (x : N) (s : string) :
  s <> "" -> pretty_N_go x s <> "".
Proof.
  revert s. induction (N.lt_wf_0 x) as [x _ IH]; intros s Hs.
  destruct (decide (x = 0)%N) as [->|Hx].
  - by rewrite pretty_N_go_0.
  - rewrite pretty_N_go_step by lia. apply IH; [|done].
    apply N.div_lt; lia.
Qed.

Lemma toString_truthy_nonempty (p : prim) :
  truthy p = true -> toString p <> "".
Proof.
  destruct p as [| |[]|[|n|n]|s]; simpl; try done.
  - intros _. unfold pretty, pretty_Z, pretty, pretty_positive, pretty, pretty_N.
    simpl. rewrite pretty_N_go_step by lia. by apply pretty_N_go_nonempty.
  - by destruct s.
Qed.

Lemma nonempty_eqb (s : string) : s <> "" -> negb (String.eqb s "") = true.
Proof. by destruct s. Qed.

(** [C8] The name of a player is the display name when there is one, else
    the common name, else the given and the family name that are there,
    joined by one space and otherwise as the provider wrote them; it is
    null, and never the empty string, when there is none. *)
Theorem getPlayerName_resolution (p : player) :
  getPlayerName (Some p)
  = (if truthy (p_display_name p) then p_display_name p
     else if truthy (p_common_name p) then p_common_name p
     else match truthy (p_firstname p), truthy (p_lastname p) with
          | true, true =>
              JStr (toString (p_firstname p) +:+ " " +:+ toString (p_lastname p))
          | true, false => JStr (toString (p_firstname p))
          | false, true => JStr (toString (p_lastname p))
          | false, false => JNull
          end)
  /\ getPlayerName (Some p) <> JStr ""
  /\ getPlayerName None = JNull.
Proof.
  assert (getPlayerName (Some p) <> JStr "") as Hne.
  { unfold getPlayerName, orElse.
    repeat match goal with
           | |- context [if truthy ?x then _ else _] =>
               let E := fresh "E" in destruct (truthy x) eqn:E
           end; try done; intros Heq; rewrite Heq in *; done. }
  split; [|done].
  unfold getPlayerName, orElse, joinTruthy.
  destruct (truthy (p_display_name p)); [done|].
  destruct (truthy (p_common_name p)); [done|].
  rewrite !filter_cons, filter_nil.
  destruct (truthy (p_firstname p)) eqn:Ef, (truthy (p_lastname p)) eqn:El;
    simpl; rewrite ?decide_True by done; rewrite ?decide_False by done;
    simpl; try done.
  - rewrite nonempty_eqb; [done|].
    pose proof (toString_truthy_nonempty _ Ef). by destruct (toString (p_firstname p)).
  - rewrite nonempty_eqb; [done|]. by apply toString_truthy_nonempty.
  - rewrite nonempty_eqb; [done|]. by apply toString_truthy_nonempty.
Qed.

(** ** The sort *)

Section JsSortFacts.
Context {A : Type} (cmp : A -> A -> option Z) (P : A -> Prop).

(** The comparator is consistent on the elements that satisfy [P]. *)
Hypothesis cmp_total : forall a b,
  P a -> P b -> notAfter cmp a b = true \/ notAfter cmp b a = true.
Hypothesis cmp_trans : forall a b c,
  P a -> P b -> P c ->
  notAfter cmp a b = true -> notAfter cmp b c = true -> notAfter cmp a c = true.

Lemma sortInsert_perm (x : A) (l : list A) : sortInsert cmp x l ≡ₚ x :: l.
Proof.
  induction l as [|y l IH]; simpl; [done|].
  destruct (notAfter cmp x y); [done|].
  rewrite IH. apply perm_swap.
Qed.

Lemma jsSort_perm (l : list A) : jsSort cmp l ≡ₚ l.
Proof.
  induction l as [|x l IH]; simpl; [done|].
  unfold jsSort in IH. by rewrite sortInsert_perm, IH.
Qed.

Lemma sortInsert_sorted (x : A) (l : list A) :
  P x -> Forall P l ->
  StronglySorted (fun a b => notAfter cmp a b = true) l ->
  StronglySorted (fun a b => notAfter cmp a b = true) (sortInsert cmp x l).
Proof.
  intros Hx HP Hs. induction l as [|y l IH]; simpl.
  - repeat constructor.
  - apply Forall_cons in HP as [Hy HP].
    apply StronglySorted_cons in Hs as [Hyl Hs].
    destruct (notAfter cmp x y) eqn:Exy.
    + apply StronglySorted_cons. split; [|by apply StronglySorted_cons].
      constructor; [done|].
      rewrite Forall_forall in Hyl, HP |- *. intros z Hz.
      apply (cmp_trans x y z); auto.
    + apply StronglySorted_cons. split; [|by apply IH].
      rewrite sortInsert_perm. constructor; [|done].
      destruct (cmp_total x y Hx Hy); congruence.
Qed.

Lemma jsSort_sorted (l : list A) :
  Forall P l -> StronglySorted (fun a b => notAfter cmp a b = true) (jsSort cmp l).
Proof.
  induction l as [|x l IH]; intros HP; simpl; [constructor|].
  apply Forall_cons in HP as [Hx HP].
  apply sortInsert_sorted; [done| |by apply IH].
  fold (jsSort cmp l). by rewrite jsSort_perm.
Qed.

End JsSortFacts.

(** ** The current club *)

Section CurrentClubFacts.
Variable Date_parse : string -> option Z.
Variable now : Z.
Implicit Types (a b c t r : membership) (teams : list membership).










End CurrentClubFacts.

(** ** Running the monad *)

Lemma bind_Ok {S A B : Type} (c : M S A) (k : A -> M S B) (s s' : S) (a : A) :
  c s = (Ok a, s') -> bind c k s = k a s'.
Proof. unfold bind. by intros ->. Qed.

Lemma bind_Throw {S A B : Type} (c : M S A) (k : A -> M S B) (s s' : S) e :
  c s = (Throw e, s') -> bind c k s = (Throw e, s').
Proof. unfold bind. by intros ->. Qed.

Lemma tryCatch_Ok {S A : Type} (c : M S A) (h : jsError -> M S A) (s s' : S) (a : A) :
  c s = (Ok a, s') -> tryCatch c h s = (Ok a, s').
Proof. unfold tryCatch. by intros ->. Qed.

Lemma tryCatch_Throw {S A : Type} (c : M S A) (h : jsError -> M S A) (s s' : S) e :
  c s = (Throw e, s') -> tryCatch c h s = h e s'.
Proof. unfold tryCatch. by intros ->. Qed.

Lemma bind_inv {S A B : Type} (c : M S A) (k : A -> M S B) (s s2 : S) (r : result B) :
  bind c k s = (r, s2) ->
  (exists a s1, c s = (Ok a, s1) /\ k a s1 = (r, s2))
  \/ (exists e, c s = (Throw e, s2) /\ r = Throw e).
Proof.
  unfold bind. destruct (c s) as [[a|e] s1]; intros H.
  - left. by exists a, s1.
  - right. exists e. by simplify_eq.
Qed.

Lemma tryCatch_inv {S A : Type} (c : M S A) (h : jsError -> M S A) (s s2 : S)
    (r : result A) :
  tryCatch c h s = (r, s2) ->
  (exists a, c s = (Ok a, s2) /\ r = Ok a)
  \/ (exists e s1, c s = (Throw e, s1) /\ h e s1 = (r, s2)).
Proof.
  unfold tryCatch. destruct (c s) as [[a|e] s1]; intros H.
  - left. exists a. by simplify_eq.
  - right. by exists e, s1.
Qed.

(** ** The retry loop of the client *)

Lemma backoffs_app (tr1 tr2 : list event) :
  backoffs (tr1 ++ tr2) = backoffs tr1 ++ backoffs tr2.
Proof. apply omap_app. Qed.

Lemma sameCaches_refl s : sameCaches s s.
Proof. done. Qed.

Lemma sameCaches_trans s1 s2 s3 :
  sameCaches s1 s2 -> sameCaches s2 s3 -> sameCaches s1 s3.
Proof. unfold sameCaches. intros (-> & -> & ->) (-> & -> & ->). done. Qed.

Section RetryFacts.
Variable cfg : config.
Context {A : Type}.
Variable serve : url -> nat -> reply A.
Variable u : url.

Lemma waitForRateLimit_run (s : netState) :
  exists s', waitForRateLimit cfg s = (Ok tt, s')
    /\ fetched s' = fetched s
    /\ backoffs (trace s') = backoffs (trace s)
    /\ totalApiCalls s' = totalApiCalls s
    /\ sameCaches s s'.
Proof.
  unfold waitForRateLimit, bind, gets, sleep, modify, ret. simpl.
  destruct (clock s - lastRequestTime s <? REQUEST_DELAY_MS cfg); simpl;
    eexists; (split; [reflexivity|]); simpl;
    rewrite ?backoffs_app, ?app_nil_r; done.
Qed.

(** Runs an attempt up to the answer of the provider. *)
Ltac run_attempt s :=
  let s1 := fresh "s1" in
  let Hf := fresh "Hf" in
  let Hb := fresh "Hb" in
  let Ht := fresh "Ht" in
  let Hc := fresh "Hc" in
  unfold attemptOnce, bind;
  destruct (waitForRateLimit_run s) as (s1 & -> & Hf & Hb & Ht & Hc);
  unfold modify, tryCatch, bind, fetch; simpl; rewrite Hf.

Ltac attempt_moved :=
  unfold attemptMoves, sleep, modify, ret, throw; simpl;
  rewrite ?backoffs_app, ?app_nil_r; simpl; rewrite ?app_nil_r;
  repeat split; (congruence || done || lia).

Lemma attemptOnce_transient (attempt : Z) (lastError : option jsError) (s : netState) :
  transient cfg (serve u (fetched s)) = true ->
  exists lastError' s',
    attemptOnce cfg serve u attempt lastError s = (Ok (Continue lastError'), s')
    /\ attemptMoves s s' [backoffMs attempt].
Proof.
  unfold transient, timesOut. intros H.
  run_attempt s.
  destruct (serve u (fetched s)) as [lat out]; simpl in *.
  destruct (REQUEST_TIMEOUT_MS cfg <=? lat); [done|]. simpl in *.
  destruct out as [status text body|e]; simpl in *.
  - destruct (status =? 429) eqn:E429; simpl in *.
    + eexists _, _. split; [reflexivity|]. destruct Hc as (? & ? & ?). attempt_moved.
    + rewrite H. eexists _, _. split; [reflexivity|].
      destruct Hc as (? & ? & ?). attempt_moved.
  - apply andb_true_iff in H as [Hname H].
    apply negb_true_iff in Hname. rewrite Hname, H.
    eexists _, _. split; [reflexivity|]. destruct Hc as (? & ? & ?). attempt_moved.
Qed.

Lemma attemptOnce_timesOut (attempt : Z) (lastError : option jsError) (s : netState) :
  timesOut cfg (serve u (fetched s)) = true ->
  exists lastError' s',
    attemptOnce cfg serve u attempt lastError s = (Ok (Continue lastError'), s')
    /\ attemptMoves s s' [].
Proof.
  unfold timesOut. intros H.
  run_attempt s.
  destruct (serve u (fetched s)) as [lat out]; simpl in *.
  destruct (REQUEST_TIMEOUT_MS cfg <=? lat); simpl in *.
  - eexists _, _. split; [reflexivity|]. destruct Hc as (? & ? & ?). attempt_moved.
  - destruct out as [status text body|e]; [done|]. simpl. rewrite H.
    eexists _, _. split; [reflexivity|]. destruct Hc as (? & ? & ?). attempt_moved.
Qed.

Lemma attemptOnce_delivers (attempt : Z) (lastError : option jsError) (s : netState)
    (data : option A) :
  delivers cfg (serve u (fetched s)) data ->
  exists s',
    attemptOnce cfg serve u attempt lastError s = (Ok (Return data), s')
    /\ attemptMoves s s' [].
Proof.
  unfold delivers, timesOut. intros (Hin & status & text & Hout & Hlt).
  run_attempt s.
  destruct (serve u (fetched s)) as [lat out]; simpl in *. subst out.
  destruct (REQUEST_TIMEOUT_MS cfg <=? lat); [done|]. simpl.
  rewrite (proj2 (Z.eqb_neq status 429)) by lia.
  rewrite (proj2 (Z.leb_gt 500 status)) by lia.
  rewrite (proj2 (Z.leb_gt 400 status)) by lia.
  eexists. split; [reflexivity|]. destruct Hc as (? & ? & ?). attempt_moved.
Qed.

(** A 4xx answer is thrown at once, unless the text of the error says
    "fetch" somewhere: the [catch] of the loop then takes it for a network
    failure. *)
Lemma attemptOnce_clientError (attempt : Z) (lastError : option jsError) (s : netState)
    (status : Z) (text : string) :
  clientError cfg (serve u (fetched s)) status text ->
  let error := newError ("API Error " +:+ pretty status +:+ ": " +:+ text) in
  exists s',
    attemptOnce cfg serve u attempt lastError s
    = (if includes (err_message error) "fetch"
       then Ok (Continue (Some error)) else Throw error, s')
    /\ attemptMoves s s'
         (if includes (err_message error) "fetch" then [backoffMs attempt] else []).
Proof.
  unfold clientError, timesOut. intros (Hin & Hrange & Hne & body & Hout).
  run_attempt s.
  destruct (serve u (fetched s)) as [lat out]; simpl in *. subst out.
  destruct (REQUEST_TIMEOUT_MS cfg <=? lat); [done|]. simpl.
  rewrite (proj2 (Z.eqb_neq status 429)) by lia.
  rewrite (proj2 (Z.leb_gt 500 status)) by lia.
  rewrite (proj2 (Z.leb_le 400 status)) by lia.
  unfold throw. simpl.
  destruct (includes _ "fetch"); simpl;
    (eexists; split; [reflexivity|]); destruct Hc as (? & ? & ?); attempt_moved.
Qed.

(** After failures that are all retried, an answer in time ends the loop:
    one request per reply, and the back-off waits of the failures that
    were not time-outs. *)
Lemma attemptsFrom_retries (rs : list (reply A)) :
  forall (n : nat) (attempt : Z) (lastError : option jsError) (s : netState)
         (data : option A),
    nextReplies serve u s rs ->
    Forall (fun r => transient cfg r || timesOut cfg r = true) rs ->
    (List.length rs < n)%nat ->
    delivers cfg (serve u (fetched s + List.length rs)%nat) data ->
    exists s',
      attemptsFrom cfg serve u n attempt lastError s = (Ok data, s')
      /\ fetched s' = (fetched s + S (List.length rs))%nat
      /\ backoffs (trace s') = backoffs (trace s) ++ backoffsOf cfg attempt rs
      /\ totalApiCalls s' = totalApiCalls s + Z.of_nat (S (List.length rs))
      /\ sameCaches s s'.
Proof.
  induction rs as [|r rs IH]; intros n attempt lastError s data Hrs Hall Hn Hlast;
    (destruct n as [|n]; [simpl in Hn; lia|]); simpl.
  - rewrite Nat.add_0_r in Hlast.
    destruct (attemptOnce_delivers attempt lastError s data Hlast)
      as (s' & Hrun & Hf & Hb & Ht & Hc).
    unfold bind. rewrite Hrun. exists s'. simpl in *.
    split; [done|]. split; [lia|]. split; [done|]. split; [lia|done].
  - apply Forall_cons in Hall as [Hr Hall].
    assert (serve u (fetched s) = r) as Hr0.
    { rewrite <- (Hrs 0%nat r eq_refl). f_equal. lia. }
    assert (exists lastError' s1,
      attemptOnce cfg serve u attempt lastError s = (Ok (Continue lastError'), s1)
      /\ attemptMoves s s1 (if timesOut cfg r then [] else [backoffMs attempt]))
      as (lastError' & s1 & Hrun & Hf & Hb & Ht & Hc).
    { subst r. destruct (timesOut cfg (serve u (fetched s))) eqn:Eto.
      - by apply attemptOnce_timesOut.
      - rewrite orb_false_r in Hr. by apply attemptOnce_transient. }
    unfold bind. rewrite Hrun.
    destruct (IH n (attempt + 1) lastError' s1 data) as (s' & Hrest & Hf' & Hb' & Ht' & Hc').
    + intros i r' Hi. rewrite <- (Hrs (S i) r' Hi). f_equal. lia.
    + done.
    + simpl in Hn. lia.
    + replace (fetched s1 + List.length rs)%nat
        with (fetched s + List.length (r :: rs))%nat by (simpl; lia). done.
    + exists s'. split; [done|]. simpl.
      rewrite Hf', Hb', Hb, Ht', Ht, <- app_assoc.
      split; [lia|]. split; [done|]. split; [lia|].
      by apply (sameCaches_trans s s1 s').
Qed.

(** When every attempt of the budget fails and is retried, the loop ends
    in the error "Max retries exceeded". *)
Lemma attemptsFrom_exhausted (rs : list (reply A)) :
  forall (attempt : Z) (lastError : option jsError) (s : netState),
    nextReplies serve u s rs ->
    Forall (fun r => transient cfg r || timesOut cfg r = true) rs ->
    exists lastError' s',
      attemptsFrom cfg serve u (List.length rs) attempt lastError s
      = (Throw (newError ("Max retries exceeded. Last error: "
                          +:+ match lastError' with
                              | Some e => err_message e
                              | None => "undefined"
                              end)), s')
      /\ fetched s' = (fetched s + List.length rs)%nat
      /\ backoffs (trace s') = backoffs (trace s) ++ backoffsOf cfg attempt rs.
Proof.
  induction rs as [|r rs IH]; intros attempt lastError s Hrs Hall; simpl.
  - exists lastError, s. unfold throw. rewrite app_nil_r.
    split; [done|]. split; [lia|done].
  - apply Forall_cons in Hall as [Hr Hall].
    assert (serve u (fetched s) = r) as Hr0.
    { rewrite <- (Hrs 0%nat r eq_refl). f_equal. lia. }
    assert (exists lastError' s1,
      attemptOnce cfg serve u attempt lastError s = (Ok (Continue lastError'), s1)
      /\ attemptMoves s s1 (if timesOut cfg r then [] else [backoffMs attempt]))
      as (lastError' & s1 & Hrun & Hf & Hb & Ht & Hc).
    { subst r. destruct (timesOut cfg (serve u (fetched s))) eqn:Eto.
      - by apply attemptOnce_timesOut.
      - rewrite orb_false_r in Hr. by apply attemptOnce_transient. }
    unfold bind. rewrite Hrun.
    destruct (IH (attempt + 1) lastError' s1) as (le & s' & Hrest & Hf' & Hb').
    + intros i r' Hi. rewrite <- (Hrs (S i) r' Hi). f_equal. lia.
    + done.
    + exists le, s'. split; [done|].
      rewrite Hf', Hb', Hb, <- app_assoc. split; [lia|done].
Qed.
End RetryFacts.

Lemma includes_app_r (p t sub : string) :
  includes t sub = true -> includes (p +:+ t) sub = true.
Proof.
  intros Ht. induction p as [|c p IH]; simpl; [done|].
  rewrite IH. apply orb_true_r.
Qed.

Lemma timeout_gets_no_backoff :
  ~ (forall (cfg : config) (serve : url -> nat -> reply player) (u : url)
            (attempt : Z) (lastError : option jsError) (s : netState),
       transient cfg (serve u (fetched s)) || timesOut cfg (serve u (fetched s)) = true ->
       backoffs (trace (snd (attemptOnce cfg serve u attempt lastError s)))
       = backoffs (trace s) ++ [backoffMs attempt]).
Proof.
  intros H.
  specialize (H exampleConfig slowThenFound (Url "" []) 0 None (initialNet 0) eq_refl).
  vm_compute in H. discriminate.
Qed.

(** [C3] On HTTP 429, HTTP 5xx and a network failure that it takes as
    transient, [apiRequest] waits [2^attempt] seconds and goes to the next
    attempt; on a request that timed out it goes to the next attempt
    without a back-off wait; there are at most [MAX_RETRIES] attempts after
    the first.  So, after failures that are all of these kinds, an answer
    within the budget is returned, with one request per reply and the
    back-off waits of the failures that were not time-outs; a budget of
    failures ends in an error; and the replies 429, 500, 200 give two
    retries, the result, and waits of 1000 and 2000 ms. *)
Theorem apiRequest_retry_policy {A : Type} (cfg : config)
    (serve : url -> nat -> reply A) (endpoint : string)
    (params : list (string * prim)) (s : netState) :
  let u := requestUrl cfg endpoint params in
  (forall rs data,
      nextReplies serve u s rs ->
      Forall (fun r => transient cfg r || timesOut cfg r = true) rs ->
      Z.of_nat (List.length rs) <= MAX_RETRIES cfg ->
      delivers cfg (serve u (fetched s + List.length rs)%nat) data ->
      exists s',
        apiRequest cfg serve endpoint params s = (Ok data, s')
        /\ fetched s' = (fetched s + S (List.length rs))%nat
        /\ backoffs (trace s') = backoffs (trace s) ++ backoffsOf cfg 0 rs)
  /\ (forall rs,
      nextReplies serve u s rs ->
      Forall (fun r => transient cfg r || timesOut cfg r = true) rs ->
      Z.of_nat (List.length rs) = MAX_RETRIES cfg + 1 ->
      exists e s',
        apiRequest cfg serve endpoint params s = (Throw e, s')
        /\ prefix "Max retries exceeded." (err_message e) = true
        /\ fetched s' = (fetched s + List.length rs)%nat
        /\ backoffs (trace s') = backoffs (trace s) ++ backoffsOf cfg 0 rs)
  /\ (forall attempt (r : reply A) rs,
      backoffsOf cfg attempt (r :: rs)
      = (if timesOut cfg r then [] else [2 ^ attempt * 1000])
        ++ backoffsOf cfg (attempt + 1) rs)
  /\ (forall r0 r1 data,
      2 <= MAX_RETRIES cfg ->
      nextReplies serve u s [r0; r1] ->
      answers cfg r0 429 -> answers cfg r1 500 ->
      delivers cfg (serve u (fetched s + 2)%nat) data ->
      exists s',
        apiRequest cfg serve endpoint params s = (Ok data, s')
        /\ fetched s' = (fetched s + 3)%nat
        /\ backoffs (trace s') = backoffs (trace s) ++ [1000; 2000]).
Proof.
  intros u.
  assert (forall rs data,
      nextReplies serve u s rs ->
      Forall (fun r => transient cfg r || timesOut cfg r = true) rs ->
      Z.of_nat (List.length rs) <= MAX_RETRIES cfg ->
      delivers cfg (serve u (fetched s + List.length rs)%nat) data ->
      exists s',
        apiRequest cfg serve endpoint params s = (Ok data, s')
        /\ fetched s' = (fetched s + S (List.length rs))%nat
        /\ backoffs (trace s') = backoffs (trace s) ++ backoffsOf cfg 0 rs) as Hretry.
  { intros rs data Hrs Hall Hlen Hlast. unfold apiRequest. fold u.
    destruct (attemptsFrom_retries cfg serve u rs
                (Z.to_nat (MAX_RETRIES cfg + 1)) 0 None s data Hrs Hall)
      as (s' & Hrun & Hf & Hb & _); [lia|done|].
    by exists s'. }
  split; [exact Hretry|]. split; [|split].
  - intros rs Hrs Hall Hlen. unfold apiRequest. fold u.
    replace (Z.to_nat (MAX_RETRIES cfg + 1)) with (List.length rs) by lia.
    destruct (attemptsFrom_exhausted cfg serve u rs 0 None s Hrs Hall)
      as (le & s' & Hrun & Hf & Hb).
    eexists _, s'. split; [exact Hrun|]. by repeat split.
  - done.
  - intros r0 r1 data Hmax Hrs (Hl0 & t0 & b0 & H0) (Hl1 & t1 & b1 & H1) Hlast.
    assert (timesOut cfg r0 = false) as Hto0.
    { unfold timesOut. rewrite H0, orb_false_r. by apply Z.leb_gt. }
    assert (timesOut cfg r1 = false) as Hto1.
    { unfold timesOut. rewrite H1, orb_false_r. by apply Z.leb_gt. }
    destruct (Hretry [r0; r1] data Hrs) as (s' & Hrun & Hf & Hb).
    + repeat constructor; unfold transient.
      * by rewrite Hto0, H0.
      * by rewrite Hto1, H1.
    + simpl. lia.
    + done.
    + exists s'. split; [done|]. split; [done|].
      rewrite Hb. simpl. by rewrite Hto0, Hto1.
Qed.

Lemma apiRequest_retry_policy_witness :
  exists s',
    apiRequest exampleConfig busyThenFound "/players/7"
      [("include", JStr "nationality,teams")] (initialNet 1000000)
    = (Ok (Some pedri), s')
    /\ fetched s' = 3%nat
    /\ backoffs (trace s') = [1000; 2000].
Proof.
  apply (proj2 (proj2 (proj2
           (apiRequest_retry_policy exampleConfig busyThenFound "/players/7"
              [("include", JStr "nationality,teams")] (initialNet 1000000))))
           (refused 429 "Too Many Requests")
           (refused 500 "Internal Server Error") (Some pedri)).
  - vm_compute. discriminate.
  - intros [|[|i]] r Hi; simpl in Hi; by simplify_eq.
  - split; [reflexivity|by eexists _, _].
  - split; [reflexivity|by eexists _, _].
  - split; [reflexivity|]. eexists _, _. split; [reflexivity|reflexivity].
Defined.

(** ** A 4xx answer, in general *)

Section ClientErrors.
Variable cfg : config.
Context {A : Type}.
Variable serve : url -> nat -> reply A.
Variables (endpoint : string) (params : list (string * prim)).

(** When the message of the error does not say "fetch", the 4xx is thrown
    at the first attempt: one request, no wait. *)
Lemma apiRequest_clientError_thrown (s : netState) (status : Z) (text : string) :
  0 <= MAX_RETRIES cfg ->
  clientError cfg (serve (requestUrl cfg endpoint params) (fetched s)) status text ->
  includes ("API Error " +:+ pretty status +:+ ": " +:+ text) "fetch" = false ->
  exists s',
    apiRequest cfg serve endpoint params s
    = (Throw (newError ("API Error " +:+ pretty status +:+ ": " +:+ text)), s')
    /\ fetched s' = S (fetched s)
    /\ backoffs (trace s') = backoffs (trace s).
Proof.
  intros Hmax Hcli Hfetch. unfold apiRequest.
  destruct (Z.to_nat (MAX_RETRIES cfg + 1)) as [|n] eqn:En; [lia|]. simpl.
  destruct (attemptOnce_clientError cfg serve _ 0 None s status text Hcli)
    as (s' & Hrun & Hf & Hb & _).
  cbn [newError err_message] in Hrun, Hb.
  rewrite Hfetch in Hrun, Hb. rewrite app_nil_r in Hb.
  exists s'. split; [by apply bind_Throw|done].
Qed.

(** When its text says "fetch", the 4xx is taken for a network failure:
    the client waits and asks again, and returns what it then gets. *)
Lemma apiRequest_clientError_retried (s : netState) (status : Z) (text : string)
    (data : option A) :
  1 <= MAX_RETRIES cfg ->
  clientError cfg (serve (requestUrl cfg endpoint params) (fetched s)) status text ->
  includes text "fetch" = true ->
  delivers cfg (serve (requestUrl cfg endpoint params) (S (fetched s))) data ->
  exists s',
    apiRequest cfg serve endpoint params s = (Ok data, s')
    /\ fetched s' = S (S (fetched s))
    /\ backoffs (trace s') = backoffs (trace s) ++ [1000].
Proof.
  intros Hmax Hcli Hfetch Hnext. unfold apiRequest.
  destruct (Z.to_nat (MAX_RETRIES cfg + 1)) as [|n] eqn:En; [lia|]. simpl.
  destruct (attemptOnce_clientError cfg serve _ 0 None s status text Hcli)
    as (s1 & Hrun & Hf & Hb & _).
  cbn [newError err_message] in Hrun, Hb.
  rewrite (includes_app_r "API Error " _ "fetch"
             (includes_app_r (pretty status) _ "fetch"
                (includes_app_r ": " text "fetch" Hfetch))) in Hrun, Hb.
  rewrite (bind_Ok _ _ _ _ _ Hrun).
  destruct (attemptsFrom_retries cfg serve (requestUrl cfg endpoint params) []
              n (0 + 1) (Some (newError ("API Error " +:+ pretty status +:+ ": " +:+ text)))
              s1 data) as (s' & Hrun' & Hf' & Hb' & _).
  - intros i r Hi. by rewrite lookup_nil in Hi.
  - constructor.
  - simpl. lia.
  - simpl. by rewrite Hf, Nat.add_0_r.
  - exists s'. split; [done|]. split; [simpl in Hf'; lia|].
    simpl in Hb'. by rewrite Hb', Hb, app_nil_r.
Qed.
End ClientErrors.

(** [C4] A 404 whose body says "fetch" somewhere is not thrown: the request
    is made again after a back-off wait, and here the second answer is
    returned. *)
Theorem apiRequest_retries_404_saying_fetch :
  let run := apiRequest exampleConfig notFoundThenFound "/players/7"
               [("include", JStr "nationality,teams")] (initialNet 1000000) in
  fst run = Ok (Some pedri)
  /\ fetched (snd run) = 2%nat
  /\ backoffs (trace (snd run)) = [1000].
Proof. vm_compute. done. Qed.

(** ** Upserts of the pipeline never meet a duplicate key *)

Lemma indexKey_union_l (ix : list string) (d older : doc) :
  (forall f, f ∈ ix -> is_Some (d !! f)) ->
  indexKey ix (d ∪ older) = indexKey ix d.
Proof.
  intros Hd. unfold indexKey. apply Forall_fmap_ext_1, Forall_forall.
  intros f Hf. destruct (Hd f Hf) as [v Hv].
  by rewrite (lookup_union_Some_l _ _ _ _ Hv), Hv.
Qed.

Lemma updateOne_canonical (mkId : prim -> string) (ix : list string)
    (c : collection) (key : prim) (d : doc) :
  canonical mkId ix c ->
  (forall f, f ∈ ix -> is_Some (d !! f)) ->
  indexKey ix d = [DPrim (JStr "sportmonks"); DPrim key] ->
  updateOne ix c (JStr (mkId key)) d
  = Ok (<[JStr (mkId key) := d ∪ default ∅ (c !! JStr (mkId key))]> c)
  /\ canonical mkId ix
       (<[JStr (mkId key) := d ∪ default ∅ (c !! JStr (mkId key))]> c).
Proof.
  intros Hcan Hd Hkey. unfold updateOne. split.
  - rewrite decide_True; [done|].
    intros k d' Hk.
    destruct (decide (indexKey ix d' = indexKey ix (d ∪ default ∅ (c !! JStr (mkId key)))))
      as [Heq|Hne]; [left|by right].
    rewrite indexKey_union_l, Hkey in Heq by done.
    by apply (Hcan k d' Hk).
  - apply map_Forall_insert_2; [|done].
    intros key'. rewrite indexKey_union_l, Hkey by done.
    by intros [= ->].
Qed.

Lemma canonical_empty mkId ix : canonical mkId ix ∅.
Proof. apply map_Forall_empty. Qed.

Lemma dbCanonical_empty : dbCanonical emptyDb.
Proof. repeat split; apply canonical_empty. Qed.

Ltac index_members Hf :=
  apply list_elem_of_In in Hf; simpl in Hf;
  destruct Hf as [<-|[<-|[]]]; by eexists.

Lemma upsertPlayer_canonical (now : Z) (player : player)
    (nationalityInfo : countryInfo) (club : clubInfo * countryInfo) (db : database) :
  dbCanonical db ->
  exists d db',
    upsertPlayer now (playerDataOf player nationalityInfo club) db = (Ok d, db')
    /\ dbCanonical db'
    /\ db_players db' = <[JStr (playerDocId player) := d ∪ default ∅ (db_players db !! JStr (playerDocId player))]> (db_players db)
    /\ d !! "_id" = Some (DPrim (JStr (playerDocId player)))
    /\ db_teams db' = db_teams db
    /\ db_squads db' = db_squads db
    /\ db_countries db' = db_countries db.
Proof.
  intros (Ht & Hp & Hs & Hc).
  unfold upsertPlayer, upsertInto.
  change (playerId_of (playerDataOf player nationalityInfo club))
    with (JStr ((fun key => "player:sportmonks:" +:+ toString key) (p_id player))).
  destruct (updateOne_canonical _ _ _ (p_id player)
              (playerDoc now (playerDataOf player nationalityInfo club)) Hp)
    as [-> Hp'].
  - intros f Hf. index_members Hf.
  - reflexivity.
  - eexists _, _. split; [reflexivity|]. by repeat split.
Qed.

Lemma upsertTeam_canonical (now : Z) (team : team) (db : database) :
  dbCanonical db ->
  exists d db',
    upsertTeam now (teamDataOf team) db = (Ok d, db')
    /\ dbCanonical db'
    /\ db_players db' = db_players db
    /\ db_squads db' = db_squads db.
Proof.
  intros (Ht & Hp & Hs & Hc).
  unfold upsertTeam, upsertInto.
  change (teamId_of (teamDataOf team))
    with (JStr ((fun key => "team:sportmonks:" +:+ toString key) (t_id team))).
  destruct (updateOne_canonical _ _ _ (t_id team)
              (teamDoc now (teamDataOf team)) Ht)
    as [-> Ht'].
  - intros f Hf. index_members Hf.
  - reflexivity.
  - eexists _, _. split; [reflexivity|]. by repeat split.
Qed.

Lemma upsertCountry_canonical (now : Z) (c : country) (db : database) :
  dbCanonical db ->
  exists d db',
    upsertCountry now (countryDataOf c) db = (Ok d, db')
    /\ dbCanonical db'
    /\ db_players db' = db_players db
    /\ db_squads db' = db_squads db.
Proof.
  intros (Ht & Hp & Hs & Hc).
  unfold upsertCountry, upsertInto.
  change (countryId_of (countryDataOf c))
    with (JStr ((fun key => "country:sportmonks:" +:+ toString key) (c_id c))).
  destruct (updateOne_canonical _ _ _ (c_id c)
              (countryDoc now (countryDataOf c)) Hc)
    as [-> Hc'].
  - intros f Hf. index_members Hf.
  - reflexivity.
  - eexists _, _. split; [reflexivity|]. by repeat split.
Qed.

Lemma upsertSquad_canonical (now : Z) (teamId : prim) (playerIds : list string)
    (db : database) :
  dbCanonical db ->
  exists d db',
    upsertSquad now (squadDataOf teamId playerIds) db = (Ok d, db')
    /\ dbCanonical db'
    /\ db_squads db' !! squadId_of (squadDataOf teamId playerIds)
       = Some (d ∪ default ∅ (db_squads db !! squadId_of (squadDataOf teamId playerIds)))
    /\ d !! "playerIds" = Some (DArr playerIds)
    /\ db_players db' = db_players db.
Proof.
  intros (Ht & Hp & Hs & Hc).
  unfold upsertSquad, upsertInto.
  change (squadId_of (squadDataOf teamId playerIds))
    with (JStr ((fun key => "squad:sportmonks:" +:+ toString key +:+ ":current") teamId)).
  destruct (updateOne_canonical _ _ _ teamId
              (squadDoc now (squadDataOf teamId playerIds)) Hs) as [-> Hs'].
  - intros f Hf. index_members Hf.
  - reflexivity.
  - eexists _, _. split; [reflexivity|]. simpl. rewrite lookup_insert_eq.
    by repeat split.
Qed.

(** ** One squad entry *)

Section EntryFacts.
Context {E : Type}.
Variable timeOf : E -> Z.
Variable Date_parse : string -> option Z.
Variable client : Client E.
Variable Inv : E -> Prop.
Hypothesis countries_complete :
  forall countryId, completes Inv (client_getCountry client countryId).
Implicit Types (f : frame E) (entry : squadEntry).
Local Arguments findCurrentClub : simpl never.

Lemma callClient_run {A : Type} (c : M E A) f (r : result A) (e' : E) :
  c (f_env f) = (r, e') ->
  callClient c f = (r, Frame e' (f_db f) (f_playerIds f) (f_stats f)).
Proof. unfold callClient. by intros ->. Qed.

Lemma nationalityOf_run (player : player) f :
  Inv (f_env f) ->
  exists info e',
    nationalityOf client player f
    = (Ok info, Frame e' (f_db f) (f_playerIds f) (f_stats f))
    /\ Inv e'.
Proof.
  intros Hinv. unfold nationalityOf. destruct f as [e db ids st]. simpl in *.
  destruct (p_nationality player); [by eexists _, _|].
  destruct (truthy (p_nationality_id player)); [|by eexists _, _].
  destruct (countries_complete (p_nationality_id player) e Hinv) as (c & e' & Hrun & Hinv').
  erewrite bind_Ok; [|by apply callClient_run]. by eexists _, _.
Qed.

Lemma currentClubOf_run (player : player) f :
  Inv (f_env f) ->
  exists club e',
    currentClubOf timeOf Date_parse client player f
    = (Ok club, Frame e' (f_db f) (f_playerIds f) (f_stats f))
    /\ Inv e'.
Proof.
  intros Hinv. unfold currentClubOf. destruct f as [e db ids st]. simpl in *.
  destruct (p_teams player) as [teams|]; [|by eexists _, _].
  unfold bind, gets. simpl.
  destruct (findCurrentClub Date_parse (timeOf e) (Some teams)) as [currentClub|];
    [|by eexists _, _].
  destruct (m_country currentClub); [by eexists _, _|].
  destruct (truthy (m_country_id currentClub)); [|by eexists _, _].
  destruct (countries_complete (m_country_id currentClub) e Hinv) as (c & e' & Hrun & Hinv').
  unfold callClient. simpl. rewrite Hrun. by eexists _, _.
Qed.

(** The entry whose player is there: the player is upserted and counted,
    its identifier joins [playerIds]. *)
Lemma processEntry_upserted entry (p : player) f :
  hasFate Inv client entry (Upserted p) ->
  Inv (f_env f) -> dbCanonical (f_db f) ->
  exists e' db' d,
    processEntry timeOf Date_parse client entry f
    = (Ok tt, Frame e' db' (f_playerIds f ++ [playerDocId p])
                (Stats (playersUpserted (f_stats f) + 1) (errors (f_stats f))))
    /\ Inv e' /\ dbCanonical db'
    /\ db_players db' = <[JStr (playerDocId p) := d]> (db_players (f_db f))
    /\ d !! "_id" = Some (DPrim (JStr (playerDocId p)))
    /\ db_squads db' = db_squads (f_db f).
Proof.
  intros [Hid Hplayer] Hinv Hdb. unfold processEntry. rewrite Hid. simpl.
  assert (exists e1,
    (match e_player entry with
     | Some p0 =>
         if truthy (p_nationality_id p0) then ret (Some p0)
         else callClient (client_getPlayer client (e_player_id entry))
     | None => callClient (client_getPlayer client (e_player_id entry))
     end) f = (Ok (Some p), Frame e1 (f_db f) (f_playerIds f) (f_stats f))
    /\ Inv e1) as (e1 & Hfetch & Hinv1).
  { destruct Hplayer as [[Hnf Hp]|[Hnf Hret]]; unfold needsFetch in Hnf.
    - rewrite Hp in *. apply negb_false_iff in Hnf. rewrite Hnf.
      exists (f_env f). by destruct f.
    - destruct (Hret _ Hinv) as (e1 & Hrun & Hinv1). exists e1. split; [|done].
      destruct (e_player entry) as [p0|]; [|by apply callClient_run].
      apply negb_true_iff in Hnf. rewrite Hnf. by apply callClient_run. }
  destruct (nationalityOf_run p (Frame e1 (f_db f) (f_playerIds f) (f_stats f)) Hinv1)
    as (info & e2 & Hnat & Hinv2).
  destruct (currentClubOf_run p (Frame e2 (f_db f) (f_playerIds f) (f_stats f)) Hinv2)
    as (club & e3 & Hclub & Hinv3).
  destruct (upsertPlayer_canonical (timeOf e3) p info club (f_db f) Hdb)
    as (d & db' & Hup & Hdb' & Hplayers & Hd & _ & Hsquads & _).
  exists e3, db', (d ∪ default ∅ (db_players (f_db f) !! JStr (playerDocId p))).
  split.
  - simpl in Hnat, Hclub.
    apply tryCatch_Ok. rewrite (bind_Ok _ _ _ _ _ Hfetch).
    rewrite (bind_Ok _ _ _ _ _ Hnat), (bind_Ok _ _ _ _ _ Hclub).
    unfold bind, callDb. simpl. by rewrite Hup.
  - split; [done|]. split; [done|]. split; [done|]. split; [|done].
    by apply lookup_union_Some_l.
Qed.

(** The entry whose player cannot be fetched: the error is noted with the
    identifier of the player, nothing else changes. *)
Lemma processEntry_failed entry (error : jsError) f :
  hasFate Inv client entry (Failed error) ->
  Inv (f_env f) ->
  exists e',
    processEntry timeOf Date_parse client entry f
    = (Ok tt, Frame e' (f_db f) (f_playerIds f)
                (Stats (playersUpserted (f_stats f))
                   (errors (f_stats f)
                    ++ [PlayerError (e_player_id entry) (err_message error)])))
    /\ Inv e'.
Proof.
  intros (Hid & Hnf & Hthrows) Hinv. unfold processEntry. rewrite Hid. simpl.
  destruct (Hthrows _ Hinv) as (e1 & Hrun & Hinv1). exists e1. split; [|done].
  erewrite tryCatch_Throw.
  2: { apply bind_Throw. unfold needsFetch in Hnf.
       destruct (e_player entry) as [p0|]; [|by apply callClient_run].
       apply negb_true_iff in Hnf. rewrite Hnf. by apply callClient_run. }
  reflexivity.
Qed.

(** The entry whose fetch yields no payload: nothing is noted. *)
Lemma processEntry_missing entry f :
  hasFate Inv client entry Missing ->
  Inv (f_env f) ->
  exists e',
    processEntry timeOf Date_parse client entry f
    = (Ok tt, Frame e' (f_db f) (f_playerIds f) (f_stats f))
    /\ Inv e'.
Proof.
  intros (Hid & Hnf & Hret) Hinv. unfold processEntry. rewrite Hid. simpl.
  destruct (Hret _ Hinv) as (e1 & Hrun & Hinv1). exists e1. split; [|done].
  apply tryCatch_Ok. erewrite bind_Ok.
  2: { unfold needsFetch in Hnf.
       destruct (e_player entry) as [p0|]; [|by apply callClient_run].
       apply negb_true_iff in Hnf. rewrite Hnf. by apply callClient_run. }
  reflexivity.
Qed.

Lemma processEntry_noId entry f :
  hasFate Inv client entry NoId ->
  processEntry timeOf Date_parse client entry f = (Ok tt, f).
Proof. simpl. intros Hid. unfold processEntry. by rewrite Hid. Qed.
End EntryFacts.

(** ** The loop over the squad entries *)

Section LoopFacts.
Context {E : Type}.
Variable timeOf : E -> Z.
Variable Date_parse : string -> option Z.
Variable client : Client E.
Variable Inv : E -> Prop.
Hypothesis countries_complete :
  forall countryId, completes Inv (client_getCountry client countryId).
Implicit Types (f : frame E) (entries : list squadEntry) (fates : list fate).

(** The loop visits the first [n] entries from the [i]-th on. *)
Lemma playersLoop_processEntries entries (n i : nat) :
  (i + n <= List.length entries)%nat ->
  playersLoop timeOf Date_parse client entries n i
  = processEntries timeOf Date_parse client (take n (drop i entries)).
Proof.
  revert i. induction n as [|n IH]; intros i Hlen; simpl; [done|].
  destruct (lookup_lt_is_Some_2 entries i) as [entry Hi]; [lia|].
  rewrite Hi, (drop_S _ _ _ Hi). simpl. rewrite IH by lia. done.
Qed.

Lemma upsertedIds_cons (ft : fate) fates :
  upsertedIds (ft :: fates)
  = match ft with
    | Upserted p => playerDocId p :: upsertedIds fates
    | _ => upsertedIds fates
    end.
Proof. by destruct ft. Qed.

Lemma playerErrors_cons (entry : squadEntry) (ft : fate) entries fates :
  playerErrors (entry :: entries) (ft :: fates)
  = match ft with
    | Failed error =>
        PlayerError (e_player_id entry) (err_message error)
        :: playerErrors entries fates
    | _ => playerErrors entries fates
    end.
Proof. by destruct ft. Qed.

(** The entries meet their fates, one after the other. *)
Lemma processEntries_fates entries fates :
  Forall2 (hasFate Inv client) entries fates ->
  forall f,
    Inv (f_env f) -> dbCanonical (f_db f) ->
    exists e' db',
      processEntries timeOf Date_parse client entries f
      = (Ok tt, Frame e' db' (f_playerIds f ++ upsertedIds fates)
                  (Stats (playersUpserted (f_stats f)
                          + Z.of_nat (List.length (upsertedIds fates)))
                     (errors (f_stats f) ++ playerErrors entries fates)))
      /\ Inv e' /\ dbCanonical db'
      /\ db_squads db' = db_squads (f_db f)
      /\ (forall id, id ∈ upsertedIds fates ->
            exists d, db_players db' !! JStr id = Some d
                      /\ d !! "_id" = Some (DPrim (JStr id)))
      /\ (forall k, (forall id, id ∈ upsertedIds fates -> k <> JStr id) ->
            db_players db' !! k = db_players (f_db f) !! k).
Proof.
  induction 1 as [|entry ft entries fates Hft Hrest IH]; intros f Hinv Hdb.
  - exists (f_env f), (f_db f). destruct f as [e db ids [pu errs]]. simpl.
    unfold ret. rewrite !app_nil_r, Z.add_0_r.
    split; [done|]. split; [done|]. split; [done|]. split; [done|].
    split; [|done]. intros id Hid. by apply elem_of_nil in Hid.
  - simpl processEntries. rewrite upsertedIds_cons, playerErrors_cons.
    destruct ft as [p|error| |].
    + destruct (processEntry_upserted timeOf Date_parse client Inv
                  countries_complete entry p f Hft Hinv Hdb)
        as (e1 & db1 & d & Hrun & Hinv1 & Hdb1 & Hplayers & Hd & Hsquads).
      destruct (IH (Frame e1 db1 (f_playerIds f ++ [playerDocId p])
                      (Stats (playersUpserted (f_stats f) + 1) (errors (f_stats f))))
                  Hinv1 Hdb1)
        as (e' & db' & Hrun' & Hinv' & Hdb' & Hsq' & Hin & Hout).
      exists e', db'. rewrite (bind_Ok _ _ _ _ _ Hrun), Hrun'. simpl in *.
      split; [|split; [done|split; [done|split; [congruence|split]]]].
      * rewrite <- app_assoc. simpl. do 3 f_equal. lia.
      * intros id Hid. destruct (decide (id ∈ upsertedIds fates)) as [Hlater|Hnot];
          [by apply Hin|].
        apply elem_of_cons in Hid as [Heq|?]; [subst id|done].
        exists d. rewrite Hout, Hplayers, lookup_insert_eq; [done|].
        intros id' Hid' [= <-]. done.
      * intros k Hk. rewrite Hout, Hplayers, lookup_insert_ne; [done| |].
        -- intros <-. eapply Hk; [left|done].
        -- intros id Hid. apply Hk. by right.
    + destruct (processEntry_failed timeOf Date_parse client Inv entry error f Hft Hinv)
        as (e1 & Hrun & Hinv1).
      destruct (IH (Frame e1 (f_db f) (f_playerIds f)
                      (Stats (playersUpserted (f_stats f))
                         (errors (f_stats f)
                          ++ [PlayerError (e_player_id entry) (err_message error)])))
                  Hinv1 Hdb) as (e' & db' & Hrun' & rest).
      exists e', db'. rewrite (bind_Ok _ _ _ _ _ Hrun), Hrun'. simpl.
      rewrite <- app_assoc. done.
    + destruct (processEntry_missing timeOf Date_parse client Inv entry f Hft Hinv)
        as (e1 & Hrun & Hinv1).
      destruct (IH (Frame e1 (f_db f) (f_playerIds f) (f_stats f)) Hinv1 Hdb)
        as (e' & db' & Hrun' & rest).
      exists e', db'. by rewrite (bind_Ok _ _ _ _ _ Hrun), Hrun'.
    + rewrite (bind_Ok _ _ _ _ _ (processEntry_noId timeOf Date_parse client Inv entry f Hft)).
      by apply IH.
Qed.
End LoopFacts.

(** ** One team *)

Lemma take_maxPlayers {A : Type} (l : list A) (cap : Z) :
  take (Z.to_nat (Z.min (Z.of_nat (List.length l)) cap)) l = take (Z.to_nat cap) l.
Proof.
  destruct (decide (cap <= Z.of_nat (List.length l))) as [Hle|Hgt].
  - by rewrite Z.min_r.
  - rewrite Z.min_l, Nat2Z.id by lia. rewrite !take_ge; [done|lia|lia].
Qed.

Section TeamFacts.
Context {E : Type}.
Variable timeOf : E -> Z.
Variable Date_parse : string -> option Z.
Variable client : Client E.
Variable cfg : config.
Variable Inv : E -> Prop.
Implicit Types (f : frame E) (w : world E) (teamId : prim).

Lemma saveTeam_run (team : option team) f :
  dbCanonical (f_db f) ->
  exists db',
    saveTeam timeOf team f = (Ok tt, Frame (f_env f) db' (f_playerIds f) (f_stats f))
    /\ dbCanonical db'
    /\ db_players db' = db_players (f_db f)
    /\ db_squads db' = db_squads (f_db f).
Proof.
  intros Hdb. destruct f as [e db ids st]. simpl in *.
  destruct team as [team|]; simpl; [|by exists db].
  destruct (upsertTeam_canonical (timeOf e) team db Hdb)
    as (d & db1 & Hup & Hdb1 & Hp1 & Hs1).
  unfold bind, callDb. simpl. rewrite Hup.
  destruct (t_country team) as [c|]; [|by exists db1].
  destruct (truthy (c_id c)); [|by exists db1].
  destruct (upsertCountry_canonical (timeOf e) c db1 Hdb1)
    as (d2 & db2 & Hup2 & Hdb2 & Hp2 & Hs2).
  simpl. rewrite Hup2. exists db2. simpl.
  split; [done|]. split; [done|]. split; congruence.
Qed.

(** The squad fetch fails: the team is noted as failed, nothing is
    written. *)
Lemma processTeamSquad_squad_fetch_fails teamId (error : jsError) w :
  throws Inv (client_getTeamSquad client teamId) error ->
  Inv (w_env w) ->
  exists e',
    processTeamSquad timeOf Date_parse client cfg teamId w
    = (Stats 0 [TeamError teamId (err_message error)], World e' (w_db w))
    /\ Inv e'.
Proof.
  intros Hthrows Hinv. destruct (Hthrows _ Hinv) as (e' & Hrun & Hinv').
  exists e'. split; [|done].
  unfold processTeamSquad, processTeamSquadBody.
  erewrite tryCatch_Throw.
  2: { apply bind_Throw. by apply callClient_run. }
  reflexivity.
Qed.

(** The team fetch fails: the same. *)
Lemma processTeamSquad_team_fetch_fails teamId (roster : list squadEntry)
    (error : jsError) w :
  returns Inv (client_getTeamSquad client teamId) (Some roster) ->
  roster <> [] ->
  throws Inv (client_getTeam client teamId) error ->
  Inv (w_env w) ->
  exists e',
    processTeamSquad timeOf Date_parse client cfg teamId w
    = (Stats 0 [TeamError teamId (err_message error)], World e' (w_db w))
    /\ Inv e'.
Proof.
  intros Hsquad Hne Hthrows Hinv.
  destruct (Hsquad _ Hinv) as (e1 & Hrun1 & Hinv1).
  destruct (Hthrows _ Hinv1) as (e2 & Hrun2 & Hinv2).
  exists e2. split; [|done].
  unfold processTeamSquad, processTeamSquadBody.
  erewrite tryCatch_Throw.
  2: { erewrite bind_Ok; [|by apply callClient_run].
       destruct roster as [|entry roster]; [done|]. simpl.
       apply bind_Throw. by apply callClient_run. }
  reflexivity.
Qed.

(** The team goes through: the entries within the cap meet their fates,
    and the squad is written with the identifiers of the players upserted,
    in the order of the roster. *)
Lemma processTeamSquad_done teamId (roster : list squadEntry) (fates : list fate) w :
  (forall countryId, completes Inv (client_getCountry client countryId)) ->
  returns Inv (client_getTeamSquad client teamId) (Some roster) ->
  roster <> [] ->
  completes Inv (client_getTeam client teamId) ->
  Forall2 (hasFate Inv client)
    (take (Z.to_nat (MAX_PLAYERS_PER_SQUAD cfg)) roster) fates ->
  Inv (w_env w) -> dbCanonical (w_db w) ->
  exists e' db' d,
    processTeamSquad timeOf Date_parse client cfg teamId w
    = (Stats (Z.of_nat (List.length (upsertedIds fates)))
         (playerErrors (take (Z.to_nat (MAX_PLAYERS_PER_SQUAD cfg)) roster) fates),
       World e' db')
    /\ Inv e' /\ dbCanonical db'
    /\ db_squads db' !! squadId_of (squadDataOf teamId (upsertedIds fates)) = Some d
    /\ d !! "playerIds" = Some (DArr (upsertedIds fates))
    /\ (forall id, id ∈ upsertedIds fates ->
          exists pd, db_players db' !! JStr id = Some pd
                     /\ pd !! "_id" = Some (DPrim (JStr id)))
    /\ (forall k, (forall id, id ∈ upsertedIds fates -> k <> JStr id) ->
          db_players db' !! k = db_players (w_db w) !! k).
Proof.
  intros Hcountries Hsquad Hne Hteam Hfates Hinv Hdb.
  destruct (Hsquad _ Hinv) as (e1 & Hrun1 & Hinv1).
  destruct (Hteam _ Hinv1) as (team & e2 & Hrun2 & Hinv2).
  destruct (saveTeam_run team (Frame e2 (w_db w) [] (Stats 0 [])) Hdb)
    as (db2 & Hrun3 & Hdb2 & Hp2 & Hs2).
  destruct (processEntries_fates timeOf Date_parse client Inv Hcountries _ _ Hfates
              (Frame e2 db2 [] (Stats 0 [])) Hinv2 Hdb2)
    as (e3 & db3 & Hrun4 & Hinv3 & Hdb3 & Hs3 & Hin & Hout).
  simpl in Hrun3, Hrun4, Hs3, Hout.
  destruct (upsertSquad_canonical (timeOf e3) teamId (upsertedIds fates) db3 Hdb3)
    as (d & db4 & Hrun5 & Hdb4 & Hsq & Hd & Hp4).
  exists e3, db4, (d ∪ default ∅ (db_squads db3 !! squadId_of (squadDataOf teamId (upsertedIds fates)))).
  split.
  - unfold processTeamSquad, processTeamSquadBody.
    destruct roster as [|entry roster]; [done|].
    erewrite tryCatch_Ok.
    2: { erewrite bind_Ok; [|by apply callClient_run].
         assert ((Z.of_nat (List.length (entry :: roster)) =? 0) = false) as Hz by done.
         cbv beta iota. rewrite Hz. cbn [f_db f_playerIds f_stats].
         erewrite bind_Ok; [|by apply callClient_run].
         rewrite (bind_Ok _ _ _ _ _ Hrun3).
         rewrite playersLoop_processEntries by lia.
         unfold drop. rewrite take_maxPlayers, (bind_Ok _ _ _ _ _ Hrun4).
         unfold bind, gets, callDb. simpl. rewrite Hrun5. reflexivity. }
    reflexivity.
  - split; [done|]. split; [done|]. split; [done|].
    split; [by apply lookup_union_Some_l|].
    rewrite Hp4. split; [done|].
    intros k Hk. by rewrite Hout, Hp2.
Qed.
End TeamFacts.

(** ** Whatever the client answers *)

Section AnyClient.
Context {E : Type}.
Variable timeOf : E -> Z.
Variable Date_parse : string -> option Z.
Variable client : Client E.
Variable cfg : config.
Implicit Types (f : frame E) (w : world E) (teamId : prim).
Local Arguments findCurrentClub : simpl never.

Lemma grows_refl f : grows 0 f f.
Proof. split; [done|lia]. Qed.

Lemma grows_trans (n m : nat) f1 f2 f3 :
  grows n f1 f2 -> grows m f2 f3 -> grows (n + m) f1 f3.
Proof. intros [Hs1 Hl1] [Hs2 Hl2]. split; [congruence|lia]. Qed.

Lemma grows_le (n m : nat) f1 f2 : (n <= m)%nat -> grows n f1 f2 -> grows m f1 f2.
Proof. intros Hle [Hs Hl]. split; [done|lia]. Qed.

Lemma callClient_any {A : Type} (c : M E A) f (r : result A) f' :
  callClient c f = (r, f') -> grows 0 f f'.
Proof.
  unfold callClient. destruct (c (f_env f)) as [r' e']. intros [= _ <-].
  split; simpl; [done|lia].
Qed.

Lemma callDb_players_any (data : Z -> playerData) f (r : result doc) f' :
  callDb timeOf (fun now => upsertPlayer now (data now)) f = (r, f') -> grows 0 f f'.
Proof.
  unfold callDb, upsertPlayer, upsertInto.
  destruct (updateOne _ _ _ _); intros [= _ <-]; (split; simpl; [done|lia]).
Qed.

Lemma nationalityOf_any (player : player) f (r : result countryInfo) f' :
  nationalityOf client player f = (r, f') -> grows 0 f f'.
Proof.
  unfold nationalityOf.
  destruct (p_nationality player); [intros [= _ <-]; apply grows_refl|].
  destruct (truthy (p_nationality_id player)); [|intros [= _ <-]; apply grows_refl].
  intros [(a & f1 & H1 & [= _ <-])|(e & H1 & _)]%bind_inv;
    by apply callClient_any in H1.
Qed.

Lemma currentClubOf_any (player : player) f (r : result (clubInfo * countryInfo)) f' :
  currentClubOf timeOf Date_parse client player f = (r, f') -> grows 0 f f'.
Proof.
  unfold currentClubOf.
  destruct (p_teams player) as [teams|]; [|intros [= _ <-]; apply grows_refl].
  unfold bind at 1, gets.
  destruct (findCurrentClub Date_parse (timeOf (f_env f)) (Some teams)) as [currentClub|];
    [|intros [= _ <-]; apply grows_refl].
  destruct (m_country currentClub); [intros [= _ <-]; apply grows_refl|].
  destruct (truthy (m_country_id currentClub)); [|intros [= _ <-]; apply grows_refl].
  intros [(a & f1 & H1 & [= _ <-])|(e & H1 & _)]%bind_inv;
    by apply callClient_any in H1.
Qed.

(** An entry adds at most one identifier, and leaves the squads alone. *)
Lemma processEntry_any (entry : squadEntry) f (r : result unit) f' :
  processEntry timeOf Date_parse client entry f = (r, f') -> grows 1 f f'.
Proof.
  unfold processEntry.
  destruct (truthy (e_player_id entry)); simpl;
    [|intros [= _ <-]; apply (grows_le 0); [lia|apply grows_refl]].
  assert (forall r1 f1,
    (match e_player entry with
     | Some p =>
         if truthy (p_nationality_id p) then ret (Some p)
         else callClient (client_getPlayer client (e_player_id entry))
     | None => callClient (client_getPlayer client (e_player_id entry))
     end) f = (r1, f1) -> grows 0 f f1) as Hfetch.
  { intros r1 f1. destruct (e_player entry) as [p|]; [|apply callClient_any].
    destruct (truthy (p_nationality_id p)); [|apply callClient_any].
    intros [= _ <-]. apply grows_refl. }
  assert (forall e f1, grows 0 f f1 ->
    grows 1 f (pushError (PlayerError (e_player_id entry) (err_message e)) f1))
    as Hcatch.
  { intros e f1 [Hs Hl]. split; simpl; [done|lia]. }
  intros [(a & Hrun & _)|(e & f1 & Hrun & [= _ <-])]%tryCatch_inv.
  - apply bind_inv in Hrun
      as [(player & f1 & H1 & Hrun)|(e & H1 & _)];
      [|apply (grows_le 0); [lia|by eapply Hfetch]].
    apply Hfetch in H1. destruct player as [player|];
      [|injection Hrun as _ <-; apply (grows_le 0); [lia|done]].
    apply bind_inv in Hrun as [(info & f2 & H2 & Hrun)|(e & H2 & [=])].
    apply nationalityOf_any in H2.
    apply bind_inv in Hrun as [(club & f3 & H3 & Hrun)|(e & H3 & [=])].
    apply currentClubOf_any in H3.
    apply bind_inv in Hrun as [(d & f4 & H4 & [= <-])|(e & H4 & [=])].
    apply callDb_players_any in H4.
    destruct H1 as [? ?], H2 as [? ?], H3 as [? ?], H4 as [? ?]. subst f'.
    split; simpl; [congruence|rewrite length_app; simpl; lia].
  - apply Hcatch.
    apply bind_inv in Hrun
      as [(player & f2 & H1 & Hrun)|(e' & H1 & _)]; [|by eapply Hfetch].
    apply Hfetch in H1. destruct player as [player|]; [|done].
    apply bind_inv in Hrun as [(info & f3 & H2 & Hrun)|(e' & H2 & _)].
    2: { apply nationalityOf_any in H2. apply (grows_trans 0 0 _ _ _ H1 H2). }
    apply nationalityOf_any in H2.
    apply bind_inv in Hrun as [(club & f4 & H3 & Hrun)|(e' & H3 & _)].
    2: { apply currentClubOf_any in H3.
         apply (grows_trans 0 0 _ _ _ (grows_trans 0 0 _ _ _ H1 H2) H3). }
    apply currentClubOf_any in H3.
    apply bind_inv in Hrun as [(d & f5 & H4 & [=])|(e' & H4 & _)].
    apply callDb_players_any in H4.
    apply (grows_trans 0 0 _ _ _
             (grows_trans 0 0 _ _ _ (grows_trans 0 0 _ _ _ H1 H2) H3) H4).
Qed.

Lemma playersLoop_any (entries : list squadEntry) (n i : nat) f (r : result unit) f' :
  playersLoop timeOf Date_parse client entries n i f = (r, f') -> grows n f f'.
Proof.
  revert i f. induction n as [|n IH]; intros i f; simpl.
  - intros [= _ <-]. apply grows_refl.
  - destruct (entries !! i) as [entry|];
      [|intros [= _ <-]; apply (grows_le 0); [lia|apply grows_refl]].
    intros [(a & f1 & H1 & Hrun)|(e & H1 & _)]%bind_inv.
    + apply processEntry_any in H1. apply IH in Hrun.
      apply (grows_trans 1 n _ _ _ H1 Hrun).
    + apply processEntry_any in H1. apply (grows_le 1); [lia|done].
Qed.

Lemma callDb_any {A : Type} (c : Z -> M database A) f (r : result A) f' :
  (forall now db r0 db', c now db = (r0, db') -> db_squads db' = db_squads db) ->
  callDb timeOf c f = (r, f') -> grows 0 f f'.
Proof.
  intros Hc. unfold callDb.
  destruct (c _ _) as [r2 db2] eqn:Ec. intros [= _ <-].
  split; simpl; [by eapply Hc|lia].
Qed.

Lemma upsertTeam_squads now d db (r : result doc) db' :
  upsertTeam now d db = (r, db') -> db_squads db' = db_squads db.
Proof.
  unfold upsertTeam, upsertInto. destruct (updateOne _ _ _ _); by intros [= _ <-].
Qed.

Lemma upsertCountry_squads now d db (r : result doc) db' :
  upsertCountry now d db = (r, db') -> db_squads db' = db_squads db.
Proof.
  unfold upsertCountry, upsertInto. destruct (updateOne _ _ _ _); by intros [= _ <-].
Qed.

Lemma saveTeam_any (team : option team) f (r : result unit) f' :
  saveTeam timeOf team f = (r, f') -> grows 0 f f'.
Proof.
  unfold saveTeam. destruct team as [team|]; [|intros [= _ <-]; apply grows_refl].
  intros [(a & f1 & H1 & Hrun)|(e & H1 & _)]%bind_inv;
    apply callDb_any in H1; try (intros; by eapply upsertTeam_squads); [|done].
  destruct (t_country team) as [c|]; [|injection Hrun as _ <-; done].
  destruct (truthy (c_id c)); [|injection Hrun as _ <-; done].
  apply bind_inv in Hrun as [(a' & f2 & H2 & [= _ <-])|(e & H2 & _)];
    (apply callDb_any in H2; [|intros; by eapply upsertCountry_squads]);
    apply (grows_trans 0 0 _ _ _ H1 H2).
Qed.
(** Whatever the client and the store answer, a call of [processTeamSquad]
    leaves the squads collection as it was, or writes the squad of the team
    with at most [MAX_PLAYERS_PER_SQUAD] identifiers. *)
Lemma processTeamSquad_cap teamId w :
  0 <= MAX_PLAYERS_PER_SQUAD cfg ->
  let w' := snd (processTeamSquad timeOf Date_parse client cfg teamId w) in
  db_squads (w_db w') = db_squads (w_db w)
  \/ exists d ids,
       db_squads (w_db w')
       = <[squadId_of (squadDataOf teamId ids) := d]> (db_squads (w_db w))
       /\ d !! "playerIds" = Some (DArr ids)
       /\ Z.of_nat (List.length ids) <= MAX_PLAYERS_PER_SQUAD cfg.
Proof.
  intros Hcap. unfold processTeamSquad. simpl.
  destruct (processTeamSquadBody timeOf Date_parse client cfg teamId
              (Frame (w_env w) (w_db w) [] (Stats 0 []))) as [r f'] eqn:Hbody.
  simpl. unfold processTeamSquadBody in Hbody.
  set (f0 := Frame (w_env w) (w_db w) [] (Stats 0 [])) in *.
  assert (forall r1 f1,
    (let* squadEntries := callClient (client_getTeamSquad client teamId) in
     match squadEntries with
     | None => ret tt
     | Some squadEntries =>
         if Z.of_nat (List.length squadEntries) =? 0 then ret tt
         else
           let* team := callClient (client_getTeam client teamId) in
           saveTeam timeOf team ;;;
           let maxPlayers :=
             Z.min (Z.of_nat (List.length squadEntries)) (MAX_PLAYERS_PER_SQUAD cfg) in
           playersLoop timeOf Date_parse client squadEntries (Z.to_nat maxPlayers) 0 ;;;
           let* playerIds := gets f_playerIds in
           callDb timeOf (fun now => upsertSquad now (squadDataOf teamId playerIds)) ;;;
           ret tt
     end) f0 = (r1, f1) ->
    db_squads (f_db f1) = db_squads (w_db w)
    \/ (exists a, r1 = Ok a)
       /\ exists d ids,
         db_squads (f_db f1)
         = <[squadId_of (squadDataOf teamId ids) := d]> (db_squads (w_db w))
         /\ d !! "playerIds" = Some (DArr ids)
         /\ Z.of_nat (List.length ids) <= MAX_PLAYERS_PER_SQUAD cfg) as Htry.
  { intros r1 f1
      [(squadEntries & f2 & H1 & Hrun)|(e & H1 & _)]%bind_inv;
      apply callClient_any in H1 as [Hs1 Hl1]; unfold f0 in Hs1, Hl1;
      simpl in Hs1, Hl1; [|by left].
    destruct squadEntries as [squadEntries|]; [|injection Hrun as _ <-; by left].
    destruct (Z.of_nat (List.length squadEntries) =? 0);
      [injection Hrun as _ <-; by left|].
    apply bind_inv in Hrun as [(team & f3 & H2 & Hrun)|(e & H2 & _)];
      apply callClient_any in H2 as [Hs2 Hl2]; [|left; congruence].
    apply bind_inv in Hrun as [(u1 & f4 & H3 & Hrun)|(e & H3 & _)];
      apply saveTeam_any in H3 as [Hs3 Hl3]; [|left; congruence].
    apply bind_inv in Hrun as [(u2 & f5 & H4 & Hrun)|(e & H4 & _)];
      apply playersLoop_any in H4 as [Hs4 Hl4]; [|left; congruence].
    unfold bind at 1, gets in Hrun.
    apply bind_inv in Hrun as [(d & f6 & H5 & [= <- <-])|(e & H5 & _)].
    - right. split; [by eexists|].
      unfold callDb, upsertSquad, upsertInto in H5.
      destruct (updateOne _ _ _ _) as [c|] eqn:Eup; [|done].
      injection H5 as _ <-. apply updateOne_Ok_inv in Eup as ->. simpl.
      eexists _, (f_playerIds f5). split; [|split].
      + f_equal. congruence.
      + by apply lookup_union_Some_l.
      + simpl in *. lia.
    - left. unfold callDb, upsertSquad, upsertInto in H5.
      destruct (updateOne _ _ _ _); [done|]. injection H5 as _ <-. simpl.
      congruence. }
  apply tryCatch_inv in Hbody as [(a & Hrun & _)|(e & f1 & Hrun & [= _ <-])].
  - destruct (Htry _ _ Hrun) as [?|[_ ?]]; [by left|by right].
  - destruct (Htry _ _ Hrun) as [?|[[a [=]] _]]. by left.
Qed.
End AnyClient.

(** ** The claims on the orchestrator *)

Lemma upsertedIds_app (fs1 fs2 : list fate) :
  upsertedIds (fs1 ++ fs2) = upsertedIds fs1 ++ upsertedIds fs2.
Proof. apply omap_app. Qed.

Lemma upsertedIds_Upserted (ps : list player) :
  upsertedIds (Upserted <$> ps) = playerDocId <$> ps.
Proof.
  induction ps as [|p ps IH]; [done|].
  by rewrite !fmap_cons, upsertedIds_cons, IH.
Qed.

Lemma playerErrors_app (es1 es2 : list squadEntry) (fs1 fs2 : list fate) :
  List.length es1 = List.length fs1 ->
  playerErrors (es1 ++ es2) (fs1 ++ fs2) = playerErrors es1 fs1 ++ playerErrors es2 fs2.
Proof.
  intros Hlen. unfold playerErrors.
  by rewrite zip_with_app, omap_app.
Qed.

Lemma playerErrors_Upserted (es : list squadEntry) (ps : list player) :
  playerErrors es (Upserted <$> ps) = [].
Proof.
  revert ps. induction es as [|entry es IH]; intros [|p ps]; try done.
  rewrite fmap_cons, playerErrors_cons. apply IH.
Qed.

Lemma squadId_of_squadDataOf (teamId : prim) (ids : list string) :
  squadId_of (squadDataOf teamId ids) = squadDocId teamId.
Proof. done. Qed.

(** The fates of a squad in which one entry fails. *)
Lemma fates_one_failed {E : Type} (Inv : E -> Prop) (client : Client E)
    (before after : list squadEntry) (bad : squadEntry)
    (players1 players2 : list player) (error : jsError) :
  Forall2 (hasFate Inv client) before (Upserted <$> players1) ->
  hasFate Inv client bad (Failed error) ->
  Forall2 (hasFate Inv client) after (Upserted <$> players2) ->
  Forall2 (hasFate Inv client) (before ++ bad :: after)
    ((Upserted <$> players1) ++ Failed error :: (Upserted <$> players2))
  /\ upsertedIds ((Upserted <$> players1) ++ Failed error :: (Upserted <$> players2))
     = playerDocId <$> (players1 ++ players2)
  /\ playerErrors (before ++ bad :: after)
       ((Upserted <$> players1) ++ Failed error :: (Upserted <$> players2))
     = [PlayerError (e_player_id bad) (err_message error)].
Proof.
  intros H1 Hbad H2. split; [|split].
  - apply Forall2_app; [done|]. by constructor.
  - rewrite upsertedIds_app, upsertedIds_cons, !upsertedIds_Upserted.
    by rewrite fmap_app.
  - rewrite playerErrors_app by (by eapply Forall2_length).
    rewrite playerErrors_cons, !playerErrors_Upserted. done.
Qed.

(** [C5] In a squad ingestion in which the fetch of exactly one player
    within the cap fails and every other step goes through, the squad is
    written with the identifiers of the other players, in the order of the
    roster; the errors of the run are the one entry that carries the
    provider id of that player; and every other player is upserted. *)
Theorem one_failing_player_is_isolated {E : Type} (timeOf : E -> Z)
    (Date_parse : string -> option Z) (client : Client E) (cfg : config)
    (Inv : E -> Prop) (teamId : prim) (roster before after : list squadEntry)
    (bad : squadEntry) (players1 players2 : list player) (error : jsError)
    (w : world E) :
  (forall countryId, completes Inv (client_getCountry client countryId)) ->
  returns Inv (client_getTeamSquad client teamId) (Some roster) ->
  completes Inv (client_getTeam client teamId) ->
  take (Z.to_nat (MAX_PLAYERS_PER_SQUAD cfg)) roster = before ++ bad :: after ->
  Forall2 (hasFate Inv client) before (Upserted <$> players1) ->
  hasFate Inv client bad (Failed error) ->
  Forall2 (hasFate Inv client) after (Upserted <$> players2) ->
  Inv (w_env w) -> dbCanonical (w_db w) ->
  exists e' db' d,
    processTeamSquad timeOf Date_parse client cfg teamId w
    = (Stats (Z.of_nat (List.length (players1 ++ players2)))
         [PlayerError (e_player_id bad) (err_message error)],
       World e' db')
    /\ db_squads db' !! squadDocId teamId = Some d
    /\ d !! "playerIds" = Some (DArr (playerDocId <$> (players1 ++ players2)))
    /\ (forall p, p ∈ players1 ++ players2 ->
          exists pd, db_players db' !! JStr (playerDocId p) = Some pd
                     /\ pd !! "_id" = Some (DPrim (JStr (playerDocId p))))
    /\ sum_errors (fst (processTeams timeOf Date_parse client cfg [teamId]
                          (Summary 0 0 0 []) w))
       = [PlayerError (e_player_id bad) (err_message error)].
Proof.
  intros Hcountries Hsquad Hteam Htake H1 Hbad H2 Hinv Hdb.
  destruct (fates_one_failed Inv client before after bad players1 players2 error
              H1 Hbad H2) as (Hfates & Hids & Herrs).
  rewrite <- Htake in Hfates, Herrs.
  assert (roster <> []) as Hne.
  { intros ->. rewrite take_nil in Htake. by destruct before. }
  destruct (processTeamSquad_done timeOf Date_parse client cfg Inv teamId roster _ w
              Hcountries Hsquad Hne Hteam Hfates Hinv Hdb)
    as (e' & db' & d & Hrun & _ & _ & Hsq & Hd & Hin & _).
  rewrite Herrs, Hids in Hrun. rewrite Hids in Hd, Hin. rewrite length_fmap in Hrun.
  exists e', db', d. split; [done|]. split; [done|]. split; [done|]. split.
  - intros p Hp. apply Hin. by apply list_elem_of_fmap_2.
  - unfold processTeams. by rewrite Hrun.
Qed.

Lemma one_failing_player_is_isolated_witness :
  exists e' db' d,
    processTeamSquad id noDates secondMissing exampleConfig (JNum 18710) freshWorld
    = (Stats 2 [PlayerError (JNum 2) "API Error 404: player not found"], World e' db')
    /\ db_squads db' !! squadDocId (JNum 18710) = Some d
    /\ d !! "playerIds" = Some (DArr ["player:sportmonks:1"; "player:sportmonks:3"])
    /\ (forall p, p ∈ [playerNo 1; playerNo 3] ->
          exists pd, db_players db' !! JStr (playerDocId p) = Some pd
                     /\ pd !! "_id" = Some (DPrim (JStr (playerDocId p))))
    /\ sum_errors (fst (processTeams id noDates secondMissing exampleConfig
                          [JNum 18710] (Summary 0 0 0 []) freshWorld))
       = [PlayerError (JNum 2) "API Error 404: player not found"].
Proof.
  apply (one_failing_player_is_isolated id noDates secondMissing exampleConfig
           (fun _ => True) (JNum 18710) threeListed [listed 1] [listed 3] (listed 2)
           [playerNo 1] [playerNo 3] (notFound "player") freshWorld).
  - intros countryId e _. by eexists _, _.
  - intros e _. by eexists.
  - intros e _. by eexists _, _.
  - reflexivity.
  - constructor; [|constructor]. split; [reflexivity|]. right.
    split; [reflexivity|]. intros e _. by eexists.
  - split; [reflexivity|]. split; [reflexivity|]. intros e _. by eexists.
  - constructor; [|constructor]. split; [reflexivity|]. right.
    split; [reflexivity|]. intros e _. by eexists.
  - exact I.
  - exact dbCanonical_empty.
Defined.

(** The client of the repository, when the provider answers in time with
    a document that has no [data], or with a 404. *)
Lemma getPlayer_no_data (cfg : config) (api : provider) (playerId : prim)
    (s : netState) :
  cache_players s !! playerId = None ->
  0 <= MAX_RETRIES cfg ->
  delivers cfg
    (servePlayer api
       (requestUrl cfg ("/players/" +:+ toString playerId)
          [("include", JStr "nationality,teams")]) (fetched s)) None ->
  exists s',
    getPlayer cfg api playerId s = (Ok None, s')
    /\ cache_players s' = cache_players s.
Proof.
  intros Hmiss Hmax Hlast. unfold getPlayer, apiRequest.
  erewrite bind_Ok; [|unfold gets; reflexivity]. rewrite Hmiss.
  destruct (attemptsFrom_retries cfg (servePlayer api)
              (requestUrl cfg ("/players/" +:+ toString playerId)
                 [("include", JStr "nationality,teams")]) []
              (Z.to_nat (MAX_RETRIES cfg + 1)) 0 None s None)
    as (s' & Hrun & _ & _ & _ & _ & Hc & _).
  - intros i r Hi. by rewrite lookup_nil in Hi.
  - constructor.
  - simpl. lia.
  - simpl. by rewrite Nat.add_0_r.
  - exists s'. by rewrite (bind_Ok _ _ _ _ _ Hrun).
Qed.

Lemma getPlayer_404 (cfg : config) (api : provider) (playerId : prim)
    (s : netState) (text : string) :
  cache_players s !! playerId = None ->
  0 <= MAX_RETRIES cfg ->
  clientError cfg
    (servePlayer api
       (requestUrl cfg ("/players/" +:+ toString playerId)
          [("include", JStr "nationality,teams")]) (fetched s)) 404 text ->
  includes ("API Error 404: " +:+ text) "fetch" = false ->
  exists s',
    getPlayer cfg api playerId s
    = (Throw (newError ("API Error 404: " +:+ text)), s').
Proof.
  intros Hmiss Hmax Hcli Hfetch. unfold getPlayer, apiRequest.
  erewrite bind_Ok; [|unfold gets; reflexivity]. rewrite Hmiss.
  destruct (Z.to_nat (MAX_RETRIES cfg + 1)) as [|n] eqn:En; [lia|]. simpl.
  destruct (attemptOnce_clientError cfg (servePlayer api)
              (requestUrl cfg ("/players/" +:+ toString playerId)
                 [("include", JStr "nationality,teams")]) 0 None s 404 text Hcli)
    as (s' & Hrun & _).
  change (err_message (newError ("API Error " +:+ pretty 404 +:+ ": " +:+ text)))
    with ("API Error 404: " +:+ text) in Hrun.
  rewrite Hfetch in Hrun. exists s'.
  erewrite bind_Throw; [reflexivity|]. by apply bind_Throw.
Qed.

(** [C10] When the provider answers the request for a player with a
    document that has no [data], [getPlayer] returns undefined and caches
    nothing; and a squad entry within the cap whose fetch returns
    undefined is skipped in silence: the squad and the errors of the run
    are those of the other entries, and no player document is written but
    those of the players upserted. *)
Theorem missing_payload_is_skipped :
  (forall (cfg : config) (api : provider) (playerId : prim) (s : netState),
      cache_players s !! playerId = None ->
      0 <= MAX_RETRIES cfg ->
      delivers cfg
        (servePlayer api
           (requestUrl cfg ("/players/" +:+ toString playerId)
              [("include", JStr "nationality,teams")]) (fetched s)) None ->
      exists s',
        getPlayer cfg api playerId s = (Ok None, s')
        /\ cache_players s' = cache_players s)
  /\ (forall {E : Type} (timeOf : E -> Z) (Date_parse : string -> option Z)
        (client : Client E) (cfg : config) (Inv : E -> Prop) (teamId : prim)
        (roster before after : list squadEntry) (entry : squadEntry)
        (fates1 fates2 : list fate) (w : world E),
      (forall countryId, completes Inv (client_getCountry client countryId)) ->
      returns Inv (client_getTeamSquad client teamId) (Some roster) ->
      completes Inv (client_getTeam client teamId) ->
      take (Z.to_nat (MAX_PLAYERS_PER_SQUAD cfg)) roster = before ++ entry :: after ->
      Forall2 (hasFate Inv client) before fates1 ->
      hasFate Inv client entry Missing ->
      Forall2 (hasFate Inv client) after fates2 ->
      Inv (w_env w) -> dbCanonical (w_db w) ->
      exists e' db' d,
        processTeamSquad timeOf Date_parse client cfg teamId w
        = (Stats (Z.of_nat (List.length (upsertedIds (fates1 ++ fates2))))
             (playerErrors before fates1 ++ playerErrors after fates2),
           World e' db')
        /\ db_squads db' !! squadDocId teamId = Some d
        /\ d !! "playerIds" = Some (DArr (upsertedIds (fates1 ++ fates2)))
        /\ (forall k, (forall id, id ∈ upsertedIds (fates1 ++ fates2) -> k <> JStr id) ->
              db_players db' !! k = db_players (w_db w) !! k)).
Proof.
  split; [exact getPlayer_no_data|].
  intros E timeOf Date_parse client cfg Inv teamId roster before after entry
    fates1 fates2 w Hcountries Hsquad Hteam Htake H1 Hentry H2 Hinv Hdb.
  assert (Forall2 (hasFate Inv client)
            (take (Z.to_nat (MAX_PLAYERS_PER_SQUAD cfg)) roster)
            (fates1 ++ Missing :: fates2)) as Hfates.
  { rewrite Htake. apply Forall2_app; [done|]. by constructor. }
  assert (roster <> []) as Hne.
  { intros ->. rewrite take_nil in Htake. by destruct before. }
  destruct (processTeamSquad_done timeOf Date_parse client cfg Inv teamId roster _ w
              Hcountries Hsquad Hne Hteam Hfates Hinv Hdb)
    as (e' & db' & d & Hrun & _ & _ & Hsq & Hd & _ & Hout).
  assert (upsertedIds (fates1 ++ Missing :: fates2) = upsertedIds (fates1 ++ fates2))
    as Hids by (by rewrite !upsertedIds_app, upsertedIds_cons).
  rewrite Hids in Hrun, Hd, Hout.
  rewrite Htake, playerErrors_app, playerErrors_cons in Hrun
    by (by eapply Forall2_length).
  by exists e', db', d.
Qed.

Lemma missing_payload_is_skipped_witness :
  exists e' db' d,
    processTeamSquad id noDates absentThird exampleConfig (JNum 18710) freshWorld
    = (Stats 2 [], World e' db')
    /\ db_squads db' !! squadDocId (JNum 18710) = Some d
    /\ d !! "playerIds" = Some (DArr ["player:sportmonks:1"; "player:sportmonks:2"])
    /\ (forall k,
          (forall id, id ∈ ["player:sportmonks:1"; "player:sportmonks:2"] -> k <> JStr id) ->
          db_players db' !! k = db_players emptyDb !! k).
Proof.
  apply (proj2 missing_payload_is_skipped Z id noDates absentThird exampleConfig
           (fun _ => True) (JNum 18710) threeListed [listed 1; listed 2] []
           (listed 3) [Upserted (playerNo 1); Upserted (playerNo 2)] [] freshWorld).
  - intros countryId e _. by eexists _, _.
  - intros e _. by eexists.
  - intros e _. by eexists _, _.
  - reflexivity.
  - constructor; [|constructor; [|constructor]];
      (split; [reflexivity|]; right; split; [reflexivity|]; intros e _; by eexists).
  - split; [reflexivity|]. split; [reflexivity|]. intros e _. by eexists.
  - constructor.
  - exact I.
  - exact dbCanonical_empty.
Defined.

(** [C6] The squad document that an ingestion writes has at most
    [MAX_PLAYERS_PER_SQUAD] player identifiers, whatever the client and the
    store answer; and for a roster of 30 entries and a cap of 24 whose
    capped entries are all processed, the 24 identifiers of the first 24
    entries are written, in the order of the roster. *)
Theorem squad_is_capped :
  (forall {E : Type} (timeOf : E -> Z) (Date_parse : string -> option Z)
      (client : Client E) (cfg : config) (teamId : prim) (w : world E),
      0 <= MAX_PLAYERS_PER_SQUAD cfg ->
      let w' := snd (processTeamSquad timeOf Date_parse client cfg teamId w) in
      db_squads (w_db w') = db_squads (w_db w)
      \/ exists d ids,
           db_squads (w_db w') = <[squadDocId teamId := d]> (db_squads (w_db w))
           /\ d !! "playerIds" = Some (DArr ids)
           /\ Z.of_nat (List.length ids) <= MAX_PLAYERS_PER_SQUAD cfg)
  /\ (forall {E : Type} (timeOf : E -> Z) (Date_parse : string -> option Z)
        (client : Client E) (cfg : config) (Inv : E -> Prop) (teamId : prim)
        (roster : list squadEntry) (players : list player) (w : world E),
      (forall countryId, completes Inv (client_getCountry client countryId)) ->
      returns Inv (client_getTeamSquad client teamId) (Some roster) ->
      completes Inv (client_getTeam client teamId) ->
      List.length roster = 30%nat ->
      MAX_PLAYERS_PER_SQUAD cfg = 24 ->
      Forall2 (hasFate Inv client) (take 24 roster) (Upserted <$> players) ->
      Inv (w_env w) -> dbCanonical (w_db w) ->
      exists e' db' d,
        processTeamSquad timeOf Date_parse client cfg teamId w
        = (Stats 24 [], World e' db')
        /\ db_squads db' !! squadDocId teamId = Some d
        /\ d !! "playerIds" = Some (DArr (playerDocId <$> players))
        /\ List.length (playerDocId <$> players) = 24%nat).
Proof.
  split.
  - intros E timeOf Date_parse client cfg teamId w Hcap.
    exact (processTeamSquad_cap timeOf Date_parse client cfg teamId w Hcap).
  - intros E timeOf Date_parse client cfg Inv teamId roster players w
      Hcountries Hsquad Hteam Hlen Hcap Hfates Hinv Hdb.
    assert (roster <> []) as Hne by (by intros ->).
    assert (List.length players = 24%nat) as Hplayers.
    { apply Forall2_length in Hfates.
      rewrite length_take, length_fmap, Hlen in Hfates. lia. }
    destruct (processTeamSquad_done timeOf Date_parse client cfg Inv teamId roster
                (Upserted <$> players) w Hcountries Hsquad Hne Hteam)
      as (e' & db' & d & Hrun & _ & _ & Hsq & Hd & _); [by rewrite Hcap|done|done|].
    rewrite Hcap, upsertedIds_Upserted, playerErrors_Upserted, length_fmap,
      Hplayers in Hrun.
    rewrite upsertedIds_Upserted in Hd.
    exists e', db', d. by rewrite length_fmap.
Qed.

Lemma squad_is_capped_witness :
  (let w' := snd (processTeamSquad id noDates thirtyClient exampleConfig
                    (JNum 18710) freshWorld) in
   db_squads (w_db w') = db_squads (w_db freshWorld)
   \/ exists d ids,
        db_squads (w_db w')
        = <[squadDocId (JNum 18710) := d]> (db_squads (w_db freshWorld))
        /\ d !! "playerIds" = Some (DArr ids)
        /\ Z.of_nat (List.length ids) <= 24)
  /\ exists e' db' d,
       processTeamSquad id noDates thirtyClient exampleConfig (JNum 18710) freshWorld
       = (Stats 24 [], World e' db')
       /\ db_squads db' !! squadDocId (JNum 18710) = Some d
       /\ d !! "playerIds"
          = Some (DArr (playerDocId <$> (playerNo <$> (Z.of_nat <$> seq 1 24))))
       /\ List.length (playerDocId <$> (playerNo <$> (Z.of_nat <$> seq 1 24)))
          = 24%nat.
Proof.
  split.
  - apply (proj1 squad_is_capped Z id noDates thirtyClient exampleConfig
             (JNum 18710) freshWorld).
    simpl. lia.
  - apply (proj2 squad_is_capped Z id noDates thirtyClient exampleConfig
             (fun _ => True) (JNum 18710) thirtyListed
             (playerNo <$> (Z.of_nat <$> seq 1 24)) freshWorld).
    + intros countryId e _. by eexists _, _.
    + intros e _. by eexists.
    + intros e _. by eexists _, _.
    + reflexivity.
    + reflexivity.
    + apply Forall2_fmap_r, Forall2_fmap_r, Forall2_fmap_r.
      change (take 24 thirtyListed)
        with (listedWithPlayer <$> (Z.of_nat <$> seq 1 24)).
      apply Forall2_fmap_l, Forall2_fmap_l, Forall_Forall2_diag, Forall_forall.
      intros n Hn. apply elem_of_seq in Hn. split; [|left; by split].
      simpl. apply negb_true_iff, Z.eqb_neq. lia.
    + exact I.
    + exact dbCanonical_empty.
Defined.

(** ** The run *)

Lemma processTeams_counts {E : Type} (timeOf : E -> Z)
    (Date_parse : string -> option Z) (client : Client E) (cfg : config)
    (teamIds : list prim) (summary : runSummary) (w : world E) :
  let run := processTeams timeOf Date_parse client cfg teamIds summary w in
  teamsProcessed (fst run) = teamsProcessed summary + Z.of_nat (List.length teamIds)
  /\ squadsUpserted (fst run) = squadsUpserted summary + Z.of_nat (List.length teamIds)
  /\ exists more, sum_errors (fst run) = sum_errors summary ++ more.
Proof.
  revert summary w. induction teamIds as [|teamId rest IH]; intros summary w.
  - simpl. split; [lia|]. split; [lia|]. exists []. by rewrite app_nil_r.
  - cbn [processTeams List.length].
    destruct (processTeamSquad timeOf Date_parse client cfg teamId w) as [stats w'].
    destruct (IH {| teamsProcessed := teamsProcessed summary + 1;
                    sum_playersUpserted := sum_playersUpserted summary + playersUpserted stats;
                    squadsUpserted := squadsUpserted summary + 1;
                    sum_errors := sum_errors summary ++ errors stats |} w')
      as (Ht & Hs & more & Hmore).
    cbn [teamsProcessed squadsUpserted sum_errors] in Ht, Hs, Hmore.
    rewrite Nat2Z.inj_succ. split; [lia|]. split; [lia|].
    exists (errors stats ++ more). by rewrite Hmore, app_assoc.
Qed.

Lemma failed_team_is_counted :
  ~ (forall {E : Type} (timeOf : E -> Z) (Date_parse : string -> option Z)
            (client : Client E) (cfg : config) (teamId : prim) (error : jsError)
            (w : world E),
       (forall e, exists e', client_getTeamSquad client teamId e = (Throw error, e')) ->
       let summary := fst (processTeams timeOf Date_parse client cfg [teamId]
                             (Summary 0 0 0 []) w) in
       teamsProcessed summary = 0 /\ squadsUpserted summary = 0).
Proof.
  intros H.
  destruct (H Z id noDates offlineClient exampleConfig (JNum 18710)
              (newError "fetch failed") freshWorld) as [Hteams _].
  - intros e. by exists e.
  - vm_compute in Hteams. discriminate.
Qed.

(** [C7] For a team whose squad fetch or team fetch fails, nothing is
    written (no squad document), the errors of the run get the entry of the
    team, no player is counted, and the team is counted in
    [teamsProcessed], which counts every team requested; a team whose squad
    document is written is counted in [teamsProcessed] and in
    [squadsUpserted]. *)
Theorem failed_team_accounting :
  (forall {E : Type} (timeOf : E -> Z) (Date_parse : string -> option Z)
      (client : Client E) (cfg : config) (Inv : E -> Prop) (teamId : prim)
      (error : jsError) (summary : runSummary) (w : world E),
      throws Inv (client_getTeamSquad client teamId) error
      \/ (exists roster,
            returns Inv (client_getTeamSquad client teamId) (Some roster)
            /\ roster <> []
            /\ throws Inv (client_getTeam client teamId) error) ->
      Inv (w_env w) ->
      let run := processTeams timeOf Date_parse client cfg [teamId] summary w in
      w_db (snd run) = w_db w
      /\ sum_errors (fst run)
         = sum_errors summary ++ [TeamError teamId (err_message error)]
      /\ sum_playersUpserted (fst run) = sum_playersUpserted summary
      /\ teamsProcessed (fst run) = teamsProcessed summary + 1)
  /\ (forall {E : Type} (timeOf : E -> Z) (Date_parse : string -> option Z)
        (client : Client E) (cfg : config) (teamIds : list prim)
        (summary : runSummary) (w : world E),
      teamsProcessed (fst (processTeams timeOf Date_parse client cfg teamIds summary w))
      = teamsProcessed summary + Z.of_nat (List.length teamIds))
  /\ (forall {E : Type} (timeOf : E -> Z) (Date_parse : string -> option Z)
        (client : Client E) (cfg : config) (teamId : prim)
        (summary : runSummary) (w : world E),
      let run := processTeams timeOf Date_parse client cfg [teamId] summary w in
      db_squads (w_db (snd run)) <> db_squads (w_db w) ->
      teamsProcessed (fst run) = teamsProcessed summary + 1
      /\ squadsUpserted (fst run) = squadsUpserted summary + 1).
Proof.
  split; [|split].
  - intros E timeOf Date_parse client cfg Inv teamId error summary w Hfail Hinv.
    assert (exists e',
      processTeamSquad timeOf Date_parse client cfg teamId w
      = (Stats 0 [TeamError teamId (err_message error)], World e' (w_db w)))
      as [e' Hrun].
    { destruct Hfail as [Hsquad|(roster & Hsquad & Hne & Hteam)].
      - destruct (processTeamSquad_squad_fetch_fails timeOf Date_parse client cfg
                    Inv teamId error w Hsquad Hinv) as (e' & Hrun & _).
        by exists e'.
      - destruct (processTeamSquad_team_fetch_fails timeOf Date_parse client cfg
                    Inv teamId roster error w Hsquad Hne Hteam Hinv) as (e' & Hrun & _).
        by exists e'. }
    unfold processTeams. rewrite Hrun. simpl. repeat split. lia.
  - intros E timeOf Date_parse client cfg teamIds summary w.
    apply (processTeams_counts timeOf Date_parse client cfg teamIds summary w).
  - intros E timeOf Date_parse client cfg teamId summary w run _.
    destruct (processTeams_counts timeOf Date_parse client cfg [teamId] summary w)
      as (Ht & Hs & _).
    by split.
Qed.

Lemma failed_team_accounting_witness :
  (let run := processTeams id noDates offlineClient exampleConfig [JNum 18710]
                (Summary 0 0 0 []) freshWorld in
   w_db (snd run) = w_db freshWorld
   /\ sum_errors (fst run) = [] ++ [TeamError (JNum 18710) "fetch failed"]
   /\ sum_playersUpserted (fst run) = 0
   /\ teamsProcessed (fst run) = 0 + 1)
  /\ (let run := processTeams id noDates secondMissing exampleConfig [JNum 18710]
                   (Summary 0 0 0 []) freshWorld in
      teamsProcessed (fst run) = 0 + 1 /\ squadsUpserted (fst run) = 0 + 1).
Proof.
  split.
  - apply (proj1 failed_team_accounting Z id noDates offlineClient exampleConfig
             (fun _ => True) (JNum 18710) (newError "fetch failed")
             (Summary 0 0 0 []) freshWorld).
    + left. intros e _. by exists e.
    + exact I.
  - apply (proj2 (proj2 failed_team_accounting) Z id noDates secondMissing
             exampleConfig (JNum 18710) (Summary 0 0 0 []) freshWorld).
    vm_compute. discriminate.
Defined.




(** ** The client of the repository in front of a steady provider *)

Lemma delivers_inj {A : Type} (cfg : config) (r : reply A) (d1 d2 : option A) :
  delivers cfg r d1 -> delivers cfg r d2 -> d1 = d2.
Proof. intros (_ & ? & ? & H1 & _) (_ & ? & ? & H2 & _). congruence. Qed.

Lemma delivers_not_clientError {A : Type} (cfg : config) (r : reply A)
    (d : option A) (status : Z) (text : string) :
  delivers cfg r d -> clientError cfg r status text -> False.
Proof.
  intros (_ & st & ? & H1 & Hlt) (_ & Hrange & _ & ? & H2).
  rewrite H1 in H2. injection H2 as -> _ _. lia.
Qed.

Section SteadyProvider.
Variable cfg : config.
Variable api : provider.
Hypothesis api_steady : steady api.
Hypothesis retries_allowed : 0 <= MAX_RETRIES cfg.

(** An answer in time at the first attempt. *)
Lemma apiRequest_delivers {A : Type} (serve : url -> nat -> reply A)
    (endpoint : string) (params : list (string * prim)) (s : netState)
    (data : option A) :
  delivers cfg (serve (requestUrl cfg endpoint params) (fetched s)) data ->
  exists s',
    apiRequest cfg serve endpoint params s = (Ok data, s') /\ sameCaches s s'.
Proof.
  intros Hlast. unfold apiRequest.
  destruct (attemptsFrom_retries cfg serve (requestUrl cfg endpoint params) []
              (Z.to_nat (MAX_RETRIES cfg + 1)) 0 None s data)
    as (s' & Hrun & _ & _ & _ & Hc).
  - intros i r Hi. by rewrite lookup_nil in Hi.
  - constructor.
  - simpl. lia.
  - simpl. by rewrite Nat.add_0_r.
  - by exists s'.
Qed.

Lemma cachesAgree_sameCaches (s s' : netState) :
  sameCaches s s' -> cachesAgree cfg api s -> cachesAgree cfg api s'.
Proof. unfold cachesAgree. by intros (-> & -> & ->). Qed.

Lemma getPlayer_steady (playerId : prim) (data : option player) :
  delivers cfg (servePlayer api (playerUrl cfg playerId) 0) data ->
  returns (cachesAgree cfg api) (getPlayer cfg api playerId) data.
Proof.
  intros Hserved s Hagree. unfold getPlayer.
  erewrite bind_Ok; [|unfold gets; reflexivity].
  destruct (cache_players s !! playerId) as [p|] eqn:Ecache.
  - exists s. split; [|done]. destruct Hagree as (_ & Hplayers & _).
    by rewrite (delivers_inj _ _ _ _ Hserved (Hplayers _ _ 0%nat Ecache)).
  - destruct api_steady as (_ & Hsteady & _ & _).
    destruct (apiRequest_delivers (servePlayer api)
                ("/players/" +:+ toString playerId)
                [("include", JStr "nationality,teams")] s data)
      as (s' & Hrun & Hsame).
    { fold (playerUrl cfg playerId). by rewrite (Hsteady _ _ 0%nat). }
    rewrite (bind_Ok _ _ _ _ _ Hrun).
    pose proof (cachesAgree_sameCaches _ _ Hsame Hagree) as (Ht & Hp & Hc).
    destruct data as [p|]; [|by exists s'].
    eexists. split; [reflexivity|]. split; [done|]. split; [|done].
    simpl. intros id p' n Hid.
    destruct (decide (playerId = id)) as [<-|Hne].
    + rewrite lookup_insert_eq in Hid. injection Hid as <-.
      by rewrite (Hsteady _ n 0%nat).
    + rewrite lookup_insert_ne in Hid by done. by apply Hp.
Qed.

Lemma getPlayer_steady_404 (playerId : prim) (text : string) :
  clientError cfg (servePlayer api (playerUrl cfg playerId) 0) 404 text ->
  includes ("API Error 404: " +:+ text) "fetch" = false ->
  throws (cachesAgree cfg api) (getPlayer cfg api playerId)
    (newError ("API Error 404: " +:+ text)).
Proof.
  intros Hserved Hfetch s Hagree. unfold getPlayer.
  erewrite bind_Ok; [|unfold gets; reflexivity].
  destruct api_steady as (_ & Hsteady & _ & _).
  destruct (cache_players s !! playerId) as [p|] eqn:Ecache.
  { destruct Hagree as (_ & Hplayers & _).
    destruct (delivers_not_clientError _ _ _ _ _ (Hplayers _ _ 0%nat Ecache) Hserved). }
  unfold apiRequest.
  destruct (Z.to_nat (MAX_RETRIES cfg + 1)) as [|n] eqn:En; [lia|]. simpl.
  destruct (attemptOnce_clientError cfg (servePlayer api) (playerUrl cfg playerId)
              0 None s 404 text) as (s' & Hrun & _ & _ & _ & Hsame).
  { by rewrite (Hsteady _ _ 0%nat). }
  change (err_message (newError ("API Error " +:+ pretty 404 +:+ ": " +:+ text)))
    with ("API Error 404: " +:+ text) in Hrun.
  rewrite Hfetch in Hrun. exists s'. split.
  - erewrite bind_Throw; [reflexivity|]. by apply bind_Throw.
  - by apply (cachesAgree_sameCaches s).
Qed.

Lemma getTeam_steady (teamId : prim) (data : option team) :
  delivers cfg (serveTeam api (teamUrl cfg teamId) 0) data ->
  returns (cachesAgree cfg api) (getTeam cfg api teamId) data.
Proof.
  intros Hserved s Hagree. unfold getTeam.
  erewrite bind_Ok; [|unfold gets; reflexivity].
  destruct (cache_teams s !! teamId) as [t|] eqn:Ecache.
  - exists s. split; [|done]. destruct Hagree as (Hteams & _ & _).
    by rewrite (delivers_inj _ _ _ _ Hserved (Hteams _ _ 0%nat Ecache)).
  - destruct api_steady as (_ & _ & Hsteady & _).
    destruct (apiRequest_delivers (serveTeam api)
                ("/teams/" +:+ toString teamId) [("include", JStr "country")] s data)
      as (s' & Hrun & Hsame).
    { fold (teamUrl cfg teamId). by rewrite (Hsteady _ _ 0%nat). }
    rewrite (bind_Ok _ _ _ _ _ Hrun).
    pose proof (cachesAgree_sameCaches _ _ Hsame Hagree) as (Ht & Hp & Hc).
    destruct data as [t|]; [|by exists s'].
    eexists. split; [reflexivity|]. split; [|done].
    simpl. intros id t' n Hid.
    destruct (decide (teamId = id)) as [<-|Hne].
    + rewrite lookup_insert_eq in Hid. injection Hid as <-.
      by rewrite (Hsteady _ n 0%nat).
    + rewrite lookup_insert_ne in Hid by done. by apply Ht.
Qed.

Lemma getCountry_steady (countryId : prim) (data : option country) :
  delivers cfg (serveCountry api (countryUrl cfg countryId) 0) data ->
  completes (cachesAgree cfg api) (getCountry cfg api countryId).
Proof.
  intros Hserved s Hagree. unfold getCountry.
  destruct (truthy countryId); simpl; [|by exists None, s].
  erewrite bind_Ok; [|unfold gets; reflexivity].
  destruct (cache_countries s !! countryId) as [c|] eqn:Ecache; [by exists (Some c), s|].
  destruct api_steady as (_ & _ & _ & Hsteady).
  destruct (apiRequest_delivers (serveCountry api)
              ("/countries/" +:+ toString countryId) [] s data)
    as (s' & Hrun & Hsame).
  { fold (countryUrl cfg countryId). by rewrite (Hsteady _ _ 0%nat). }
  rewrite (bind_Ok _ _ _ _ _ Hrun).
  pose proof (cachesAgree_sameCaches _ _ Hsame Hagree) as (Ht & Hp & Hc).
  destruct data as [c|]; [|by exists None, s'].
  eexists _, _. split; [reflexivity|]. split; [done|]. split; [done|].
  simpl. intros id c' n Hid.
  destruct (decide (countryId = id)) as [<-|Hne].
  - rewrite lookup_insert_eq in Hid. injection Hid as <-.
    by rewrite (Hsteady _ n 0%nat).
  - rewrite lookup_insert_ne in Hid by done. by apply Hc.
Qed.

Lemma getTeamSquad_steady (teamId : prim) (data : option (list squadEntry)) :
  delivers cfg (serveSquad api (squadUrl cfg teamId) 0) data ->
  returns (cachesAgree cfg api)
    (client_getTeamSquad (createClient cfg api) teamId) (Some (default [] data)).
Proof.
  intros Hserved s Hagree. simpl. unfold getTeamSquad.
  destruct api_steady as (Hsteady & _ & _ & _).
  destruct (apiRequest_delivers (serveSquad api)
              ("/squads/teams/" +:+ toString teamId) [("include", JStr "player")] s data)
    as (s' & Hrun & Hsame).
  { fold (squadUrl cfg teamId). by rewrite (Hsteady _ _ 0%nat). }
  exists s'. split; [|by apply (cachesAgree_sameCaches s)].
  unfold bind. by rewrite Hrun.
Qed.

(** The fate of an entry that lists a player without its data is what the
    provider answers for the player. *)
Lemma steady_fates (entry : squadEntry) :
  truthy (e_player_id entry) = true -> needsFetch entry = true ->
  (forall p,
      delivers cfg (servePlayer api (playerUrl cfg (e_player_id entry)) 0) (Some p) ->
      hasFate (cachesAgree cfg api) (createClient cfg api) entry (Upserted p))
  /\ (delivers cfg (servePlayer api (playerUrl cfg (e_player_id entry)) 0) None ->
      hasFate (cachesAgree cfg api) (createClient cfg api) entry Missing)
  /\ (forall text,
      clientError cfg (servePlayer api (playerUrl cfg (e_player_id entry)) 0) 404 text ->
      includes ("API Error 404: " +:+ text) "fetch" = false ->
      hasFate (cachesAgree cfg api) (createClient cfg api) entry
        (Failed (newError ("API Error 404: " +:+ text)))).
Proof.
  intros Hid Hnf. split; [|split].
  - intros p Hp. split; [done|]. right. split; [done|]. by apply getPlayer_steady.
  - intros Hnone. split; [done|]. split; [done|]. by apply getPlayer_steady.
  - intros text H404 Hfetch. split; [done|]. split; [done|].
    by apply getPlayer_steady_404.
Qed.
End SteadyProvider.

(** ** The orchestrator on the client of the repository *)

(** The provider lists three players and answers 404 for the second: six
    requests, no retry, two players upserted, one error. *)
Example ingestion_with_a_404 :
  let run := processTeamSquad clock isoDates (createClient exampleConfig withoutSecond)
               exampleConfig (JNum 18710) firstRun in
  fst run = Stats 2 [PlayerError (JNum 2) "API Error 404: Player not found"]
  /\ db_squads (w_db (snd run)) !! squadDocId (JNum 18710) ≫= (.!! "playerIds")
     = Some (DArr ["player:sportmonks:1"; "player:sportmonks:3"])
  /\ db_players (w_db (snd run)) !! JStr "player:sportmonks:2" = None
  /\ totalApiCalls (w_env (snd run)) = 6
  /\ backoffs (trace (w_env (snd run))) = [].
Proof. vm_compute. done. Qed.

(** The provider sends a document without [data] for the third player:
    the player is skipped, and nothing says so. *)
Example ingestion_with_an_empty_payload :
  let run := processTeamSquad clock isoDates (createClient exampleConfig emptyThird)
               exampleConfig (JNum 18710) firstRun in
  fst run = Stats 2 []
  /\ db_squads (w_db (snd run)) !! squadDocId (JNum 18710) ≫= (.!! "playerIds")
     = Some (DArr ["player:sportmonks:1"; "player:sportmonks:2"])
  /\ db_players (w_db (snd run)) !! JStr "player:sportmonks:3" = None
  /\ cache_players (w_env (snd run)) !! JNum 3 = None.
Proof. vm_compute. done. Qed.

(** ** The request budget and the pace of the client *)

Section RequestBudget.
Variable cfg : config.
Context {A : Type}.
Variable serve : url -> nat -> reply A.
Variable u : url.

(** Whatever the provider answers, an attempt is one request, counted
    once, issued no sooner than [REQUEST_DELAY_MS] after the request before
    it; the caches are not touched. *)
Lemma attemptOnce_any (attempt : Z) (lastError : option jsError) (s : netState) :
  let s' := snd (attemptOnce cfg serve u attempt lastError s) in
  fetched s' = S (fetched s)
  /\ totalApiCalls s' = totalApiCalls s + 1
  /\ lastRequestTime s + REQUEST_DELAY_MS cfg <= lastRequestTime s'
  /\ sameCaches s s'.
Proof.
  unfold attemptOnce, waitForRateLimit, bind, gets, sleep, modify, ret, tryCatch,
    fetch, throw, sameCaches.
  simpl.
  destruct (clock s - lastRequestTime s <? REQUEST_DELAY_MS cfg) eqn:Ewait; simpl;
    [apply Z.ltb_lt in Ewait|apply Z.ltb_ge in Ewait];
    destruct (serve u (fetched s)) as [lat [status text body|e]]; simpl;
    destruct (REQUEST_TIMEOUT_MS cfg <=? lat); simpl;
    repeat match goal with
           | |- context [if ?b then _ else _] => destruct b; simpl
           | |- context [match ?b with Json _ => _ | BadJson _ => _ end] =>
               destruct b; simpl
           end;
    (split; [done|]); (split; [done|]); (split; [lia|done]).
Qed.

Lemma attemptsFrom_any (n : nat) :
  forall (attempt : Z) (lastError : option jsError) (s : netState),
    let s' := snd (attemptsFrom cfg serve u n attempt lastError s) in
    0 <= requestsMade s s' <= Z.of_nat n
    /\ ((0 < n)%nat -> 1 <= requestsMade s s')
    /\ totalApiCalls s' = totalApiCalls s + requestsMade s s'
    /\ lastRequestTime s + requestsMade s s' * REQUEST_DELAY_MS cfg <= lastRequestTime s'
    /\ sameCaches s s'.
Proof.
  unfold requestsMade.
  induction n as [|n IH]; intros attempt lastError s; simpl.
  - split; [lia|]. split; [lia|]. split; [lia|]. split; [lia|done].
  - pose proof (attemptOnce_any attempt lastError s) as Hstep. simpl in Hstep.
    unfold bind.
    destruct (attemptOnce cfg serve u attempt lastError s) as [[step|e] s1];
      simpl in Hstep; destruct Hstep as (Hf & Ht & Hl & Hc).
    + destruct step as [lastError'|data]; simpl.
      * specialize (IH (attempt + 1) lastError' s1). simpl in IH.
        destruct (attemptsFrom cfg serve u n (attempt + 1) lastError' s1) as [r s'].
        simpl in *. destruct IH as (Hk & _ & Ht' & Hl' & Hc').
        split; [lia|]. split; [lia|]. split; [lia|].
        split; [nia|by apply (sameCaches_trans s s1 s')].
      * split; [lia|]. split; [lia|]. split; [lia|]. split; [lia|done].
    + simpl. split; [lia|]. split; [lia|]. split; [lia|]. split; [lia|done].
Qed.
End RequestBudget.

(** What any call of [apiRequest] does to the state of the client. *)
Lemma apiRequest_any (cfg : config) {A : Type}
    (serve : url -> nat -> reply A) (endpoint : string)
    (params : list (string * prim)) (s : netState) :
  let s' := snd (apiRequest cfg serve endpoint params s) in
  0 <= requestsMade s s' <= Z.of_nat (Z.to_nat (MAX_RETRIES cfg + 1))
  /\ (0 <= MAX_RETRIES cfg -> 1 <= requestsMade s s')
  /\ totalApiCalls s' = totalApiCalls s + requestsMade s s'
  /\ lastRequestTime s + requestsMade s s' * REQUEST_DELAY_MS cfg <= lastRequestTime s'
  /\ sameCaches s s'.
Proof.
  unfold apiRequest.
  pose proof (attemptsFrom_any cfg serve (requestUrl cfg endpoint params)
                (Z.to_nat (MAX_RETRIES cfg + 1)) 0 None s) as H.
  simpl in H. destruct H as (Hk & H1 & Ht & Hl & Hc).
  simpl. split; [done|]. split; [|done]. intros Hmax. apply H1. lia.
Qed.

(** [X1] Whatever the provider answers and however the call ends,
    [apiRequest] makes at least one request and at most [MAX_RETRIES + 1],
    [totalApiCalls] grows by the number of requests made, and nothing is
    written in the caches. *)
Theorem apiRequest_request_budget (cfg : config) {A : Type}
    (serve : url -> nat -> reply A) (endpoint : string)
    (params : list (string * prim)) (s : netState) :
  0 <= MAX_RETRIES cfg ->
  let s' := snd (apiRequest cfg serve endpoint params s) in
  1 <= requestsMade s s' <= MAX_RETRIES cfg + 1
  /\ totalApiCalls s' = totalApiCalls s + requestsMade s s'
  /\ sameCaches s s'.
Proof.
  intros Hmax.
  pose proof (apiRequest_any cfg serve endpoint params s) as H.
  simpl in H. destruct H as (Hk & H1 & Ht & _ & Hc).
  simpl. split; [|done]. split; [by apply H1|lia].
Qed.

Lemma apiRequest_request_budget_witness :
  let s' := snd (apiRequest exampleConfig busyThenFound "/players/7" []
                   (initialNet 1000000)) in
  1 <= requestsMade (initialNet 1000000) s' <= 5
  /\ totalApiCalls s' = 0 + requestsMade (initialNet 1000000) s'
  /\ sameCaches (initialNet 1000000) s'.
Proof.
  apply (apiRequest_request_budget exampleConfig busyThenFound "/players/7" []
           (initialNet 1000000)).
  vm_compute. discriminate.
Defined.

(** [X2] No attempt skips the rate limit: a call of [apiRequest] that makes
    [k] requests moves the time of the last request forward by at least
    [k * REQUEST_DELAY_MS], whatever the provider answers, retries and
    failures included. *)
Theorem apiRequest_is_paced (cfg : config) {A : Type}
    (serve : url -> nat -> reply A) (endpoint : string)
    (params : list (string * prim)) (s : netState) :
  let s' := snd (apiRequest cfg serve endpoint params s) in
  lastRequestTime s + requestsMade s s' * REQUEST_DELAY_MS cfg <= lastRequestTime s'.
Proof.
  pose proof (apiRequest_any cfg serve endpoint params s) as H.
  simpl in H. by destruct H as (_ & _ & _ & Hl & _).
Qed.

(** ** The caches of the client *)

(** [X3] A player, a team or a country that a lookup returned is answered
    from the cache from then on: the same lookup in the state that the
    first one left returns the same payload and leaves the state as it is
    (no request, no wait, no count). *)
Theorem lookups_are_cached (cfg : config) (api : provider) (id : prim)
    (s s1 : netState) :
  (forall p, getPlayer cfg api id s = (Ok (Some p), s1) ->
             getPlayer cfg api id s1 = (Ok (Some p), s1))
  /\ (forall t, getTeam cfg api id s = (Ok (Some t), s1) ->
                getTeam cfg api id s1 = (Ok (Some t), s1))
  /\ (forall c, getCountry cfg api id s = (Ok (Some c), s1) ->
                getCountry cfg api id s1 = (Ok (Some c), s1)).
Proof.
  split; [|split].
  - intros p. unfold getPlayer, bind, gets, modify, ret.
    destruct (cache_players s !! id) as [p'|] eqn:Ehit.
    + intros [= -> ->]. by rewrite Ehit.
    + destruct (apiRequest cfg (servePlayer api) _ _ s) as [[[p'|]|e] s2];
        intros [= <- <-]; simpl. by rewrite lookup_insert_eq.
  - intros t. unfold getTeam, bind, gets, modify, ret.
    destruct (cache_teams s !! id) as [t'|] eqn:Ehit.
    + intros [= -> ->]. by rewrite Ehit.
    + destruct (apiRequest cfg (serveTeam api) _ _ s) as [[[t'|]|e] s2];
        intros [= <- <-]; simpl. by rewrite lookup_insert_eq.
  - intros c. unfold getCountry, bind, gets, modify, ret.
    destruct (truthy id); simpl; [|done].
    destruct (cache_countries s !! id) as [c'|] eqn:Ehit.
    + intros [= -> ->]. by rewrite Ehit.
    + destruct (apiRequest cfg (serveCountry api) _ _ s) as [[[c'|]|e] s2];
        intros [= <- <-]; simpl. by rewrite lookup_insert_eq.
Qed.

Lemma lookups_are_cached_witness :
  let s1 := snd (getPlayer exampleConfig withoutSecond (JNum 1) (initialNet 0)) in
  getPlayer exampleConfig withoutSecond (JNum 1) (initialNet 0)
  = (Ok (Some (playerNo 1)), s1)
  /\ getPlayer exampleConfig withoutSecond (JNum 1) s1 = (Ok (Some (playerNo 1)), s1)
  /\ requestsMade (initialNet 0) s1 = 1.
Proof.
  assert (getPlayer exampleConfig withoutSecond (JNum 1) (initialNet 0)
          = (Ok (Some (playerNo 1)),
             snd (getPlayer exampleConfig withoutSecond (JNum 1) (initialNet 0))))
    as Hfirst by (vm_compute; reflexivity).
  split; [exact Hfirst|]. split; [|vm_compute; reflexivity].
  exact (proj1 (lookups_are_cached exampleConfig withoutSecond (JNum 1) (initialNet 0) _)
           (playerNo 1) Hfirst).
Defined.

(** [X4] A lookup that did not return a payload leaves nothing in the
    cache: when [getPlayer] threw, or returned the absent [data] of the
    document received, the next [getPlayer] of the same player asks the
    provider again. *)
Theorem absent_player_is_asked_again (cfg : config) (api : provider) (id : prim)
    (s s1 : netState) (r : result (option player)) :
  0 <= MAX_RETRIES cfg ->
  getPlayer cfg api id s = (r, s1) ->
  (forall p, r <> Ok (Some p)) ->
  cache_players s1 !! id = None
  /\ 1 <= requestsMade s1 (snd (getPlayer cfg api id s1)).
Proof.
  intros Hmax Hrun Hr.
  assert (cache_players s1 !! id = None) as Hmiss.
  { revert Hrun. unfold getPlayer, bind, gets, modify, ret.
    destruct (cache_players s !! id) as [p'|] eqn:Ehit.
    - intros [= <- <-]. by destruct (Hr p').
    - pose proof (apiRequest_any cfg (servePlayer api)
                    ("/players/" +:+ toString id)
                    [("include", JStr "nationality,teams")] s) as Hb.
      simpl in Hb. destruct Hb as (_ & _ & _ & _ & _ & Hc & _).
      destruct (apiRequest cfg (servePlayer api) _ _ s) as [[[p'|]|e] s2];
        intros [= <- <-]; simpl in *.
      + by destruct (Hr p').
      + by rewrite Hc.
      + by rewrite Hc. }
  split; [done|].
  unfold getPlayer, bind, gets. rewrite Hmiss.
  pose proof (apiRequest_any cfg (servePlayer api)
                ("/players/" +:+ toString id)
                [("include", JStr "nationality,teams")] s1) as Hb.
  simpl in Hb. destruct Hb as (_ & Hk & _). specialize (Hk Hmax).
  destruct (apiRequest cfg (servePlayer api) _ _ s1) as [[[p'|]|e] s2]; simpl in *;
    unfold requestsMade in *; simpl; lia.
Qed.

Lemma absent_player_is_asked_again_witness :
  let s1 := snd (getPlayer exampleConfig withoutSecond (JNum 2) (initialNet 0)) in
  cache_players s1 !! JNum 2 = None
  /\ 1 <= requestsMade s1 (snd (getPlayer exampleConfig withoutSecond (JNum 2) s1)).
Proof.
  apply (absent_player_is_asked_again exampleConfig withoutSecond (JNum 2)
           (initialNet 0) _
           (Throw (newError "API Error 404: Player not found"))).
  - vm_compute. discriminate.
  - vm_compute. reflexivity.
  - intros p. discriminate.
Defined.

(** ** When the budget of attempts is spent *)

Section GivesUp.
Variable cfg : config.
Context {A : Type}.
Variable serve : url -> nat -> reply A.
Variable u : url.

Lemma attemptOnce_retried (attempt : Z) (lastError : option jsError) (s : netState) :
  transient cfg (serve u (fetched s)) || timesOut cfg (serve u (fetched s)) = true ->
  fst (attemptOnce cfg serve u attempt lastError s)
  = Ok (Continue (match caughtError cfg (serve u (fetched s)) with
                  | Some e => Some e
                  | None => lastError
                  end)).
Proof.
  unfold transient, timesOut, caughtError, attemptOnce, waitForRateLimit, bind, gets,
    sleep, modify, ret, tryCatch, fetch, throw.
  simpl.
  destruct (clock s - lastRequestTime s <? REQUEST_DELAY_MS cfg); simpl;
    destruct (serve u (fetched s)) as [lat [status text body|e]]; simpl;
    destruct (REQUEST_TIMEOUT_MS cfg <=? lat); simpl; try done;
    rewrite ?orb_false_r; intros H.
  all: try (destruct (status =? 429); simpl in *; [done|by rewrite H]).
  all: destruct (String.eqb (err_name e) "AbortError"); simpl in *;
    [done|rewrite orb_false_r in H; by rewrite H].
Qed.

Lemma attemptsFrom_gives_up (rs : list (reply A)) :
  forall (attempt : Z) (lastError : option jsError) (s : netState),
    nextReplies serve u s rs ->
    Forall (fun r => transient cfg r || timesOut cfg r = true) rs ->
    fst (attemptsFrom cfg serve u (List.length rs) attempt lastError s)
    = Throw (newError ("Max retries exceeded. Last error: "
                       +:+ lastErrorMessage (lastErrorOf cfg rs lastError))).
Proof.
  induction rs as [|r rs IH]; intros attempt lastError s Hrs Hall; simpl; [done|].
  apply Forall_cons in Hall as [Hr Hall].
  assert (serve u (fetched s) = r) as Hr0.
  { rewrite <- (Hrs 0%nat r eq_refl). f_equal. lia. }
  pose proof (attemptOnce_retried attempt lastError s) as Hstep.
  pose proof (attemptOnce_any cfg serve u attempt lastError s) as Hany.
  rewrite Hr0 in Hstep. specialize (Hstep Hr). simpl in Hany.
  unfold bind.
  destruct (attemptOnce cfg serve u attempt lastError s) as [step s1].
  simpl in Hstep, Hany. subst step. destruct Hany as (Hf & _).
  apply IH; [|done].
  intros i r' Hi. rewrite <- (Hrs (S i) r' Hi). f_equal. lia.
Qed.
End GivesUp.

Lemma lastErrorOf_responses {A : Type} (cfg : config) (rs : list (reply A))
    (lastError : option jsError) :
  Forall (respondsInTime cfg) rs -> lastErrorOf cfg rs lastError = lastError.
Proof.
  unfold lastErrorOf. intros H. revert lastError.
  induction H as [|r rs (Hlat & status & text & body & Hr) _ IH]; intros le; simpl;
    [done|].
  rewrite IH. unfold caughtError.
  rewrite (proj2 (Z.leb_gt _ _) Hlat), Hr. done.
Qed.

(** [X5] When each of the [MAX_RETRIES + 1] attempts ends in a failure that
    is retried, [apiRequest] stops after exactly that many requests and
    throws "Max retries exceeded. Last error: " followed by the message of
    the last error that the loop caught; the HTTP responses 429 and 5xx
    are not caught errors, so that when every attempt got one of them the
    message ends in "undefined". *)
Theorem apiRequest_gives_up (cfg : config) {A : Type}
    (serve : url -> nat -> reply A) (endpoint : string)
    (params : list (string * prim)) (s : netState) (rs : list (reply A)) :
  nextReplies serve (requestUrl cfg endpoint params) s rs ->
  Forall (fun r => transient cfg r || timesOut cfg r = true) rs ->
  Z.of_nat (List.length rs) = MAX_RETRIES cfg + 1 ->
  let run := apiRequest cfg serve endpoint params s in
  fst run = Throw (newError ("Max retries exceeded. Last error: "
                             +:+ lastErrorMessage (lastErrorOf cfg rs None)))
  /\ requestsMade s (snd run) = MAX_RETRIES cfg + 1
  /\ (Forall (respondsInTime cfg) rs ->
      fst run = Throw (newError "Max retries exceeded. Last error: undefined")).
Proof.
  intros Hrs Hall Hlen. simpl. unfold apiRequest.
  replace (Z.to_nat (MAX_RETRIES cfg + 1)) with (List.length rs) by lia.
  pose proof (attemptsFrom_gives_up cfg serve _ rs 0 None s Hrs Hall) as Hrun.
  destruct (attemptsFrom_exhausted cfg serve _ rs 0 None s Hrs Hall)
    as (le & s' & Hrun' & Hf & _).
  rewrite Hrun' in Hrun |- *. simpl in *.
  split; [done|]. split; [unfold requestsMade; lia|].
  intros Hresp. rewrite Hrun. by rewrite lastErrorOf_responses.
Qed.

Lemma apiRequest_gives_up_witness :
  let run := apiRequest exampleConfig (@overloaded player) "/players/7" []
               (initialNet 0) in
  fst run = Throw (newError "Max retries exceeded. Last error: undefined")
  /\ requestsMade (initialNet 0) (snd run) = 5.
Proof.
  destruct (apiRequest_gives_up exampleConfig (@overloaded player) "/players/7" []
              (initialNet 0) (replicate 5 (refused 503 "Service Unavailable")))
    as (_ & Hn & Hmsg).
  - intros i r Hi. apply lookup_replicate in Hi as [-> _]. reflexivity.
  - repeat constructor.
  - reflexivity.
  - split; [|exact Hn]. apply Hmsg.
    repeat constructor; by eexists _, _, _.
Defined.

(** ** What an upsert writes, and when it is refused *)








(** ** The normaliser and the current club, at the edges *)

(** [X8] Whatever the country object holds, the reference that
    [extractCountryInfo] builds from it has members that are values or
    null: [undefined], [0], [false] and the empty string never pass; and
    without a country object the three members are null. *)
Theorem extractCountryInfo_is_normal (c : option country) :
  normal (ci_id (extractCountryInfo c))
  /\ normal (ci_name (extractCountryInfo c))
  /\ normal (ci_code (extractCountryInfo c))
  /\ (c = None -> extractCountryInfo c = CountryInfo JNull JNull JNull).
Proof.
  assert (forall a, normal (orElse a JNull)) as H1.
  { intros a. unfold orElse, normal. destruct (truthy a) eqn:E; auto. }
  assert (forall a b, normal b -> normal (orElse a b)) as H2.
  { intros a b Hb. unfold orElse, normal in *. destruct (truthy a) eqn:E; auto. }
  destruct c as [c|]; simpl.
  - split; [apply H1|]. split; [apply H2, H1|]. split; [apply H2, H1|done].
  - unfold normal. auto.
Qed.

Lemma jsSort_keeps_order {A : Type} (cmp : A -> A -> option Z) (l : list A) :
  (forall a b, a ∈ l -> b ∈ l -> notAfter cmp a b = true) ->
  jsSort cmp l = l.
Proof.
  induction l as [|x l IH]; intros H; simpl; [done|].
  fold (jsSort cmp l). rewrite IH.
  - destruct l as [|y l]; simpl; [done|].
    rewrite H; [done|by left|right; by left].
  - intros a b Ha Hb. apply H; by right.
Qed.

(** [X9] When no club-type membership of the array carries a date, the
    sort leaves the order of the array, and [findCurrentClub] returns the
    first membership whose type is [domestic], [club] or absent. *)
Theorem findCurrentClub_without_dates (Date_parse : string -> option Z) (now : Z)
    (teams : list membership) :
  (forall t, t ∈ teams -> isClubTeam t = true -> undated t) ->
  findCurrentClub Date_parse now (Some teams)
  = head (filter (fun t => isClubTeam t = true) teams).
Proof.
  intros Hund. simpl. rewrite jsSort_keeps_order; [done|].
  intros a b [Hca Ha]%list_elem_of_filter [Hcb Hb]%list_elem_of_filter.
  destruct (Hund a Ha Hca) as [Hsa Hea], (Hund b Hb Hcb) as [Hsb Heb].
  unfold notAfter, compareClubs, isActive, startTime.
  by rewrite Hsa, Hea, Hsb, Heb.
Qed.

Lemma findCurrentClub_without_dates_witness :
  findCurrentClub noDates 1700000000000 (Some undatedTeams)
  = Some (Membership (JNum 83) (JStr "FC Barcelona") (JStr "domestic") None None
            (JNum 32)).
Proof.
  rewrite (findCurrentClub_without_dates noDates 1700000000000 undatedTeams).
  - reflexivity.
  - intros t Ht _. unfold undatedTeams in Ht.
    repeat (apply elem_of_cons in Ht as [->|Ht]; [by split|]).
    by apply elem_of_nil in Ht.
Defined.

Section StartDated.
Variable Date_parse : string -> option Z.
Variable now : Z.




End StartDated.



(** ** Any run of the orchestrator, step by step *)

Section Moves.
Context {E : Type}.
Variable timeOf : E -> Z.
Variable Date_parse : string -> option Z.
Variable client : Client E.
Variable cfg : config.
Implicit Types (f : frame E) (w : world E) (teamId : prim).
Local Arguments findCurrentClub : simpl never.

Lemma callClient_moves {A : Type} (c : M E A) f (r : result A) f' :
  callClient c f = (r, f') -> moves 0 f f'.
Proof.
  unfold callClient. destruct (c (f_env f)) as [r' e']. intros [= _ <-].
  apply moves_client.
Qed.

Lemma nationalityOf_moves (player : player) f (r : result countryInfo) f' :
  nationalityOf client player f = (r, f') -> moves 0 f f'.
Proof.
  unfold nationalityOf.
  destruct (p_nationality player); [intros [= _ <-]; apply moves_refl|].
  destruct (truthy (p_nationality_id player)); [|intros [= _ <-]; apply moves_refl].
  intros [(a & f1 & H1 & [= _ <-])|(e & H1 & _)]%bind_inv;
    by apply callClient_moves in H1.
Qed.

Lemma currentClubOf_moves (player : player) f (r : result (clubInfo * countryInfo)) f' :
  currentClubOf timeOf Date_parse client player f = (r, f') -> moves 0 f f'.
Proof.
  unfold currentClubOf.
  destruct (p_teams player) as [teams|]; [|intros [= _ <-]; apply moves_refl].
  unfold bind at 1, gets.
  destruct (findCurrentClub Date_parse (timeOf (f_env f)) (Some teams)) as [currentClub|];
    [|intros [= _ <-]; apply moves_refl].
  destruct (m_country currentClub); [intros [= _ <-]; apply moves_refl|].
  destruct (truthy (m_country_id currentClub)); [|intros [= _ <-]; apply moves_refl].
  intros [(a & f1 & H1 & [= _ <-])|(e & H1 & _)]%bind_inv;
    by apply callClient_moves in H1.
Qed.

Lemma moves_0_trans f1 f2 f3 : moves 0 f1 f2 -> moves 0 f2 f3 -> moves 0 f1 f3.
Proof. intros H1 H2. apply (moves_trans 0 0 _ _ _ H1 H2). Qed.

(** An entry notes at most one player or one error. *)
Lemma processEntry_moves (entry : squadEntry) f (r : result unit) f' :
  processEntry timeOf Date_parse client entry f = (r, f') -> moves 1 f f'.
Proof.
  unfold processEntry.
  destruct (truthy (e_player_id entry)); simpl;
    [|intros [= _ <-]; apply (moves_le 0); [lia|apply moves_refl]].
  assert (forall r1 f1,
    (match e_player entry with
     | Some p =>
         if truthy (p_nationality_id p) then ret (Some p)
         else callClient (client_getPlayer client (e_player_id entry))
     | None => callClient (client_getPlayer client (e_player_id entry))
     end) f = (r1, f1) -> moves 0 f f1) as Hfetch.
  { intros r1 f1. destruct (e_player entry) as [p|]; [|apply callClient_moves].
    destruct (truthy (p_nationality_id p)); [|apply callClient_moves].
    intros [= _ <-]. apply moves_refl. }
  assert (forall (d : Z -> playerData) f3 r4 f4,
    callDb timeOf (fun now => upsertPlayer now (d now)) f3 = (r4, f4) ->
    exists db4,
      f4 = Frame (f_env f3) db4 (f_playerIds f3) (f_stats f3)
      /\ upsertPlayer (timeOf (f_env f3)) (d (timeOf (f_env f3))) (f_db f3)
         = (r4, db4)) as Hdb.
  { intros d f3 r4 f4. unfold callDb.
    destruct (upsertPlayer _ _ _) as [r5 db5]. intros [= <- <-]. by exists db5. }
  intros [(a & Hrun & _)|(e & f1 & Hrun & [= _ <-])]%tryCatch_inv.
  - apply bind_inv in Hrun
      as [(player & f1 & H1 & Hrun)|(e & H1 & _)];
      [|apply (moves_le 0); [lia|by eapply Hfetch]].
    apply Hfetch in H1. destruct player as [player|];
      [|injection Hrun as _ <-; apply (moves_le 0); [lia|done]].
    apply bind_inv in Hrun as [(info & f2 & H2 & Hrun)|(e & H2 & [=])].
    apply nationalityOf_moves in H2.
    apply bind_inv in Hrun as [(club & f3 & H3 & Hrun)|(e & H3 & [=])].
    apply currentClubOf_moves in H3.
    apply bind_inv in Hrun as [(d & f4 & H4 & [= <-])|(e & H4 & [=])].
    apply (Hdb (fun _ => playerDataOf player info club)) in H4 as (db4 & -> & H4).
    subst f'. apply (moves_trans 0 1 _ f3);
      [exact (moves_0_trans _ _ _ (moves_0_trans _ _ _ H1 H2) H3)|].
    exact (moves_upserted f3 _ _ _ _ _ _ H4).
  - assert (moves 0 f f1) as H0; [|apply (moves_trans 0 1 _ f1 _ H0), moves_playerError].
    apply bind_inv in Hrun
      as [(player & f2 & H1 & Hrun)|(e' & H1 & _)]; [|by eapply Hfetch].
    apply Hfetch in H1. destruct player as [player|]; [|done].
    apply bind_inv in Hrun as [(info & f3 & H2 & Hrun)|(e' & H2 & _)].
    2: { apply nationalityOf_moves in H2. exact (moves_0_trans _ _ _ H1 H2). }
    apply nationalityOf_moves in H2.
    apply bind_inv in Hrun as [(club & f4 & H3 & Hrun)|(e' & H3 & _)].
    2: { apply currentClubOf_moves in H3.
         exact (moves_0_trans _ _ _ (moves_0_trans _ _ _ H1 H2) H3). }
    apply currentClubOf_moves in H3.
    apply bind_inv in Hrun as [(d & f5 & H4 & [=])|(e' & H4 & _)].
    apply (Hdb (fun _ => playerDataOf player info club)) in H4 as (db4 & -> & H4).
    apply (moves_0_trans _ f4);
      [exact (moves_0_trans _ _ _ (moves_0_trans _ _ _ H1 H2) H3)|].
    exact (moves_refused f4 _ _ _ _ _ _ H4).
Qed.

Lemma playersLoop_moves (entries : list squadEntry) (n i : nat) f (r : result unit) f' :
  playersLoop timeOf Date_parse client entries n i f = (r, f') -> moves n f f'.
Proof.
  revert i f. induction n as [|n IH]; intros i f; simpl.
  - intros [= _ <-]. apply moves_refl.
  - destruct (entries !! i) as [entry|];
      [|intros [= _ <-]; apply (moves_le 0); [lia|apply moves_refl]].
    intros [(a & f1 & H1 & Hrun)|(e & H1 & _)]%bind_inv.
    + apply processEntry_moves in H1. apply IH in Hrun.
      exact (moves_trans 1 n _ _ _ H1 Hrun).
    + apply processEntry_moves in H1. apply (moves_le 1); [lia|done].
Qed.

Lemma saveTeam_moves (team : option team) f (r : result unit) f' :
  saveTeam timeOf team f = (r, f') -> moves 0 f f'.
Proof.
  unfold saveTeam. destruct team as [team|]; [|intros [= _ <-]; apply moves_refl].
  assert (forall A (c : Z -> M database A) f3 r4 f4,
    callDb timeOf c f3 = (r4, f4) ->
    exists db4,
      f4 = Frame (f_env f3) db4 (f_playerIds f3) (f_stats f3)
      /\ c (timeOf (f_env f3)) (f_db f3) = (r4, db4)) as Hdb.
  { intros A c f3 r4 f4. unfold callDb.
    destruct (c _ _) as [r5 db5]. intros [= <- <-]. by exists db5. }
  intros [(a & f1 & H1 & Hrun)|(e & H1 & _)]%bind_inv;
    apply Hdb in H1 as (db1 & -> & H1); apply moves_team in H1; [|done].
  destruct (t_country team) as [c|]; [|injection Hrun as _ <-; done].
  destruct (truthy (c_id c)); [|injection Hrun as _ <-; done].
  apply bind_inv in Hrun as [(a' & f2 & H2 & [= _ <-])|(e & H2 & _)];
    apply Hdb in H2 as (db2 & -> & H2); apply moves_country in H2;
    exact (moves_0_trans _ _ _ H1 H2).
Qed.

(** Whatever the client and the store answer, a call of
    [processTeamSquad] is a run of these steps, of at most
    [MAX_PLAYERS_PER_SQUAD] entries, and one of the ends. *)
Lemma processTeamSquad_moves teamId w :
  exists n f,
    moves n (Frame (w_env w) (w_db w) [] (Stats 0 [])) f
    /\ Z.of_nat n <= Z.max 0 (MAX_PLAYERS_PER_SQUAD cfg)
    /\ endsFrom teamId f
         (fst (processTeamSquad timeOf Date_parse client cfg teamId w))
         (snd (processTeamSquad timeOf Date_parse client cfg teamId w)).
Proof.
  unfold processTeamSquad. simpl.
  destruct (processTeamSquadBody timeOf Date_parse client cfg teamId
              (Frame (w_env w) (w_db w) [] (Stats 0 []))) as [r f'] eqn:Hbody.
  simpl. unfold processTeamSquadBody in Hbody.
  set (f0 := Frame (w_env w) (w_db w) [] (Stats 0 [])) in *.
  assert (forall r1 f1,
    (let* squadEntries := callClient (client_getTeamSquad client teamId) in
     match squadEntries with
     | None => ret tt
     | Some squadEntries =>
         if Z.of_nat (List.length squadEntries) =? 0 then ret tt
         else
           let* team := callClient (client_getTeam client teamId) in
           saveTeam timeOf team ;;;
           let maxPlayers :=
             Z.min (Z.of_nat (List.length squadEntries)) (MAX_PLAYERS_PER_SQUAD cfg) in
           playersLoop timeOf Date_parse client squadEntries (Z.to_nat maxPlayers) 0 ;;;
           let* playerIds := gets f_playerIds in
           callDb timeOf (fun now => upsertSquad now (squadDataOf teamId playerIds)) ;;;
           ret tt
     end) f0 = (r1, f1) ->
    exists n f,
      moves n f0 f
      /\ Z.of_nat n <= Z.max 0 (MAX_PLAYERS_PER_SQUAD cfg)
      /\ f_env f1 = f_env f /\ f_stats f1 = f_stats f
      /\ ((f_db f1 = f_db f)
          \/ ((exists a, r1 = Ok a)
              /\ exists now d,
                   upsertSquad now (squadDataOf teamId (f_playerIds f)) (f_db f)
                   = (Ok d, f_db f1)))) as Htry.
  { intros r1 f1
      [(squadEntries & f2 & H1 & Hrun)|(e & H1 & _)]%bind_inv;
      apply callClient_moves in H1;
      [|exists 0%nat, f1; split; [done|]; split; [lia|]; by auto].
    destruct squadEntries as [squadEntries|];
      [|injection Hrun as _ <-; exists 0%nat, f2; split; [done|]; split; [lia|]; by auto].
    destruct (Z.of_nat (List.length squadEntries) =? 0);
      [injection Hrun as _ <-; exists 0%nat, f2; split; [done|]; split; [lia|]; by auto|].
    apply bind_inv in Hrun as [(team & f3 & H2 & Hrun)|(e & H2 & _)];
      apply callClient_moves in H2;
      [|exists 0%nat, f1; split; [exact (moves_0_trans _ _ _ H1 H2)|];
        split; [lia|]; by auto].
    apply bind_inv in Hrun as [(u1 & f4 & H3 & Hrun)|(e & H3 & _)];
      apply saveTeam_moves in H3;
      [|exists 0%nat, f1;
        split; [exact (moves_0_trans _ _ _ (moves_0_trans _ _ _ H1 H2) H3)|];
        split; [lia|]; by auto].
    pose proof (moves_0_trans _ _ _ (moves_0_trans _ _ _ H1 H2) H3) as H03.
    apply bind_inv in Hrun as [(u2 & f5 & H4 & Hrun)|(e & H4 & _)];
      apply playersLoop_moves in H4;
      [|eexists _, f1; split; [exact (moves_trans 0 _ _ _ _ H03 H4)|];
        split; [simpl; lia|]; by auto].
    unfold bind at 1, gets in Hrun.
    exists (Z.to_nat (Z.min (Z.of_nat (List.length squadEntries))
                        (MAX_PLAYERS_PER_SQUAD cfg))), f5.
    split; [exact (moves_trans 0 _ _ _ _ H03 H4)|]. split; [lia|].
    unfold callDb in Hrun.
    apply bind_inv in Hrun as [(d & f6 & H5 & [= <- <-])|(e & H5 & _)].
    - destruct (upsertSquad _ _ _) as [r6 db6] eqn:Esq.
      injection H5 as -> <-. simpl. split; [done|]. split; [done|].
      right. split; [by eexists|]. by eexists _, _.
    - destruct (upsertSquad _ _ _) as [r6 db6] eqn:Esq.
      injection H5 as -> <-. simpl. split; [done|]. split; [done|].
      left. unfold upsertSquad, upsertInto in Esq.
      destruct (updateOne _ _ _ _); [done|]. by injection Esq as _ <-. }
  unfold endsFrom. simpl.
  apply tryCatch_inv in Hbody as [(a & Hrun & _)|(e & f1 & Hrun & [= _ <-])].
  - destruct (Htry _ _ Hrun) as (n & f & Hm & Hn & He & Hs & Hend).
    exists n, f. split; [done|]. split; [done|]. split; [done|].
    destruct Hend as [Hdb|[_ Hsq]]; [left|right]; by auto.
  - destruct (Htry _ _ Hrun) as (n & f & Hm & Hn & He & Hs & Hend).
    exists n, f. split; [done|]. split; [done|]. simpl. split; [done|].
    destruct Hend as [Hdb|[[a [=]] _]]. left. split; [done|].
    right. exists (err_message e). by rewrite Hs.
Qed.
End Moves.

(** What the steps keep. *)
Lemma playerStored_upsertPlayer now d db r db' id :
  upsertPlayer now d db = (r, db') -> playerStored db id -> playerStored db' id.
Proof.
  unfold upsertPlayer, upsertInto.
  destruct (updateOne _ _ _ _) as [c|] eqn:Eup; intros [= _ <-]; [|done].
  apply updateOne_Ok_inv in Eup as ->. simpl.
  intros (pd & Hpd & Hid). unfold playerStored. simpl.
  destruct (decide (playerId_of d = JStr id)) as [Heq|Hne].
  - rewrite Heq, lookup_insert_eq. eexists. split; [done|].
    apply lookup_union_Some_l. unfold playerDoc.
    by rewrite Heq.
  - rewrite lookup_insert_ne by done. by exists pd.
Qed.

Lemma moves_keeps {E : Type} (n : nat) (f f' : frame E) :
  moves n f f' ->
  (dbCanonical (f_db f) -> dbCanonical (f_db f'))
  /\ db_squads (f_db f') = db_squads (f_db f)
  /\ (forall id, playerStored (f_db f) id -> playerStored (f_db f') id)
  /\ exists ids perrs,
       f_playerIds f' = f_playerIds f ++ ids
       /\ playersUpserted (f_stats f')
          = playersUpserted (f_stats f) + Z.of_nat (List.length ids)
       /\ errors (f_stats f') = errors (f_stats f) ++ perrs
       /\ Forall isPlayerError perrs
       /\ (List.length ids + List.length perrs <= n)%nat
       /\ forall id, id ∈ ids -> playerStored (f_db f') id.
Proof.
  induction 1 as [f|n m f f' Hle _ IH|n m f1 f2 f3 _ IH1 _ IH2|f e'
                  |f now team r db' Hup|f now c r db' Hup
                  |f now player info club e db' Hup
                  |f now player info club d db' Hup|f playerId message].
  - split; [done|]. split; [done|]. split; [done|].
    exists [], []. rewrite !app_nil_r, Z.add_0_r.
    split; [done|]. split; [done|]. split; [done|]. split; [constructor|].
    split; [simpl; lia|]. intros id Hid; by apply elem_of_nil in Hid.
  - destruct IH as (Hc & Hs & Hp & ids & perrs & H1 & H2 & H3 & H4 & H5 & H6).
    split; [done|]. split; [done|]. split; [done|].
    exists ids, perrs. split; [done|]. split; [done|]. split; [done|].
    split; [done|]. split; [lia|done].
  - destruct IH1 as (Hc1 & Hs1 & Hp1 & ids1 & perrs1 & Ha1 & Hb1 & Hc1' & Hd1 & He1 & Hf1).
    destruct IH2 as (Hc2 & Hs2 & Hp2 & ids2 & perrs2 & Ha2 & Hb2 & Hc2' & Hd2 & He2 & Hf2).
    split; [auto|]. split; [congruence|]. split; [auto|].
    exists (ids1 ++ ids2), (perrs1 ++ perrs2).
    rewrite Ha2, Ha1, Hb2, Hb1, Hc2', Hc1', !app_assoc, !length_app.
    split; [done|]. split; [lia|]. split; [done|].
    split; [by apply Forall_app|]. split; [lia|].
    intros id [Hid|Hid]%elem_of_app; auto.
  - simpl. split; [done|]. split; [done|]. split; [done|].
    exists [], []. rewrite !app_nil_r, Z.add_0_r.
    split; [done|]. split; [done|]. split; [done|]. split; [constructor|].
    split; [simpl; lia|]. intros id Hid; by apply elem_of_nil in Hid.
  - simpl. split; [|split; [|split]].
    + intros Hcan. destruct (upsertTeam_canonical now team (f_db f) Hcan)
        as (d & db2 & Hup2 & Hcan2 & _). congruence.
    + by eapply upsertTeam_squads.
    + unfold upsertTeam, upsertInto in Hup.
      destruct (updateOne _ _ _ _); by injection Hup as _ <-.
    + exists [], []. rewrite !app_nil_r, Z.add_0_r.
      split; [done|]. split; [done|]. split; [done|]. split; [constructor|].
    split; [simpl; lia|]. intros id Hid; by apply elem_of_nil in Hid.
  - simpl. split; [|split; [|split]].
    + intros Hcan. destruct (upsertCountry_canonical now c (f_db f) Hcan)
        as (d & db2 & Hup2 & Hcan2 & _). congruence.
    + by eapply upsertCountry_squads.
    + unfold upsertCountry, upsertInto in Hup.
      destruct (updateOne _ _ _ _); by injection Hup as _ <-.
    + exists [], []. rewrite !app_nil_r, Z.add_0_r.
      split; [done|]. split; [done|]. split; [done|]. split; [constructor|].
    split; [simpl; lia|]. intros id Hid; by apply elem_of_nil in Hid.
  - simpl. assert (db' = f_db f) as ->.
    { unfold upsertPlayer, upsertInto in Hup.
      destruct (updateOne _ _ _ _); [done|]. by injection Hup as _ <-. }
    split; [done|]. split; [done|]. split; [done|].
    exists [], []. rewrite !app_nil_r, Z.add_0_r.
    split; [done|]. split; [done|]. split; [done|]. split; [constructor|].
    split; [simpl; lia|]. intros id Hid; by apply elem_of_nil in Hid.
  - simpl. split; [|split; [|split]].
    + intros Hcan. destruct (upsertPlayer_canonical now player info club (f_db f) Hcan)
        as (d2 & db2 & Hup2 & Hcan2 & _). congruence.
    + unfold upsertPlayer, upsertInto in Hup.
      destruct (updateOne _ _ _ _); by injection Hup as _ <-.
    + intros id. by eapply playerStored_upsertPlayer.
    + exists [playerDocId player], []. rewrite app_nil_r.
      split; [done|]. split; [simpl; lia|]. split; [done|]. split; [done|].
      split; [simpl; lia|].
      intros id ->%list_elem_of_singleton.
      unfold upsertPlayer, upsertInto in Hup.
      destruct (updateOne _ _ _ _) as [c|] eqn:Eup; [|done].
      injection Hup as _ <-. apply updateOne_Ok_inv in Eup as ->.
      unfold playerStored. simpl.
      change (playerId_of (playerDataOf player info club))
        with (JStr (playerDocId player)).
      rewrite lookup_insert_eq. eexists. split; [done|].
      by apply lookup_union_Some_l.
  - simpl. split; [done|]. split; [done|]. split; [done|].
    exists [], [PlayerError playerId message]. rewrite app_nil_r, Z.add_0_r.
    split; [done|]. split; [done|]. split; [done|].
    split; [by repeat constructor|]. split; [simpl; lia|].
    intros id Hid; by apply elem_of_nil in Hid.
Qed.

(** ** What every run of the orchestrator keeps *)

Lemma processTeamSquad_canonical {E : Type} (timeOf : E -> Z)
    (Date_parse : string -> option Z) (client : Client E) (cfg : config)
    (teamId : prim) (w : world E) :
  dbCanonical (w_db w) ->
  dbCanonical (w_db (snd (processTeamSquad timeOf Date_parse client cfg teamId w))).
Proof.
  intros Hcan.
  destruct (processTeamSquad_moves timeOf Date_parse client cfg teamId w)
    as (n & f & Hm & _ & _ & Hend).
  apply moves_keeps in Hm as (Hkeep & _). specialize (Hkeep Hcan).
  destruct Hend as [[-> _]|[_ (now & d & Hsq)]]; [done|].
  destruct (upsertSquad_canonical now teamId (f_playerIds f) (f_db f) Hkeep)
    as (d' & db' & Hsq' & Hcan' & _).
  congruence.
Qed.

(** [X11] The ingestion keeps the store in order, whatever the client
    answers: when every document of the provider sits under the
    identifier computed from its key, as in the empty store, the same
    holds after a run over any list of teams; and in such a store the
    upserts of the pipeline are never refused. *)
Theorem ingestion_keeps_the_store_canonical {E : Type} (timeOf : E -> Z)
    (Date_parse : string -> option Z) (client : Client E) (cfg : config)
    (teamIds : list prim) (summary : runSummary) (w : world E) :
  dbCanonical (w_db w) ->
  dbCanonical (w_db (snd (processTeams timeOf Date_parse client cfg teamIds summary w)))
  /\ (forall db now team player info club c teamId ids,
        dbCanonical db ->
        (exists d db', upsertTeam now (teamDataOf team) db = (Ok d, db'))
        /\ (exists d db', upsertPlayer now (playerDataOf player info club) db = (Ok d, db'))
        /\ (exists d db', upsertCountry now (countryDataOf c) db = (Ok d, db'))
        /\ (exists d db', upsertSquad now (squadDataOf teamId ids) db = (Ok d, db'))).
Proof.
  intros Hcan. split.
  - revert summary w Hcan. induction teamIds as [|teamId rest IH]; intros summary w Hcan;
      simpl; [done|].
    pose proof (processTeamSquad_canonical timeOf Date_parse client cfg teamId w Hcan)
      as Hstep.
    apply IH. exact Hstep.
  - intros db now team player info club c teamId ids Hdb.
    destruct (upsertTeam_canonical now team db Hdb) as (d1 & db1 & H1 & _).
    destruct (upsertPlayer_canonical now player info club db Hdb) as (d2 & db2 & H2 & _).
    destruct (upsertCountry_canonical now c db Hdb) as (d3 & db3 & H3 & _).
    destruct (upsertSquad_canonical now teamId ids db Hdb) as (d4 & db4 & H4 & _).
    split; [by eexists _, _|]. split; [by eexists _, _|].
    split; [by eexists _, _|by eexists _, _].
Qed.

Lemma ingestion_keeps_the_store_canonical_witness :
  dbCanonical (w_db (snd (processTeams id noDates secondMissing exampleConfig
                            [JNum 18710; JNum 18645] (Summary 0 0 0 []) freshWorld))).
Proof.
  apply (ingestion_keeps_the_store_canonical id noDates secondMissing exampleConfig
           [JNum 18710; JNum 18645] (Summary 0 0 0 []) freshWorld).
  exact dbCanonical_empty.
Defined.

(** [X12] Whatever the client and the store answer, a squad document that
    a call of [processTeamSquad] writes refers to player documents that
    are in the store, each under the identifier listed; the call counts
    as many players as the squad lists, and it notes no error of the
    team. *)
Theorem written_squad_refers_to_stored_players {E : Type} (timeOf : E -> Z)
    (Date_parse : string -> option Z) (client : Client E) (cfg : config)
    (teamId : prim) (w : world E) :
  let run := processTeamSquad timeOf Date_parse client cfg teamId w in
  db_squads (w_db (snd run)) = db_squads (w_db w)
  \/ exists d ids,
       db_squads (w_db (snd run)) = <[squadDocId teamId := d]> (db_squads (w_db w))
       /\ d !! "playerIds" = Some (DArr ids)
       /\ (forall id, id ∈ ids -> playerStored (w_db (snd run)) id)
       /\ playersUpserted (fst run) = Z.of_nat (List.length ids)
       /\ Forall isPlayerError (errors (fst run)).
Proof.
  simpl.
  destruct (processTeamSquad_moves timeOf Date_parse client cfg teamId w)
    as (n & f & Hm & _ & _ & Hend).
  apply moves_keeps in Hm
    as (_ & Hsquads & _ & ids & perrs & Hids & Hcount & Herrs & Hperrs & _ & Hstored).
  simpl in *.
  destruct Hend as [[Hdb _]|[Hstats (now & d & Hsq)]]; [left; congruence|right].
  unfold upsertSquad, upsertInto in Hsq.
  destruct (updateOne _ _ _ _) as [c|] eqn:Eup; [|done].
  injection Hsq as <- Hdb. apply updateOne_Ok_inv in Eup as ->.
  rewrite <- Hdb, Hstats, Hcount, Herrs, Hids. simpl.
  eexists _, ids. split; [rewrite Hsquads; reflexivity|].
  split; [by apply lookup_union_Some_l|]. split; [|split; [lia|done]].
  intros id Hid. destruct (Hstored id Hid) as (pd & Hpd & Hpid). by exists pd.
Qed.

(** [X13] Whatever the client and the store answer, the statistics that
    [processTeamSquad] returns have this shape: the errors are errors of
    players, followed by at most one error of the team, which carries the
    identifier of the team; and the players counted and the errors of
    players are together at most [MAX_PLAYERS_PER_SQUAD]. *)
Theorem team_statistics_are_bounded {E : Type} (timeOf : E -> Z)
    (Date_parse : string -> option Z) (client : Client E) (cfg : config)
    (teamId : prim) (w : world E) :
  let stats := fst (processTeamSquad timeOf Date_parse client cfg teamId w) in
  exists perrs terr,
    errors stats = perrs ++ terr
    /\ Forall isPlayerError perrs
    /\ (terr = [] \/ exists message, terr = [TeamError teamId message])
    /\ 0 <= playersUpserted stats
    /\ playersUpserted stats + Z.of_nat (List.length perrs)
       <= Z.max 0 (MAX_PLAYERS_PER_SQUAD cfg).
Proof.
  cbv zeta.
  destruct (processTeamSquad_moves timeOf Date_parse client cfg teamId w)
    as (n & f & Hm & Hn & _ & Hend).
  apply moves_keeps in Hm
    as (_ & _ & _ & ids & perrs & _ & Hcount & Herrs & Hperrs & Hlen & _).
  simpl in Hcount, Herrs.
  destruct Hend as [[_ [Hs|(message & Hs)]]|[Hs _]]; rewrite Hs.
  - exists perrs, []. rewrite app_nil_r, Hcount, Herrs.
    split; [done|]. split; [done|]. split; [by left|]. lia.
  - exists perrs, [TeamError teamId message]. simpl. rewrite Hcount, Herrs.
    split; [done|]. split; [done|]. split; [right; by eexists|]. lia.
  - exists perrs, []. rewrite app_nil_r, Hcount, Herrs.
    split; [done|]. split; [done|]. split; [by left|]. lia.
Qed.

(** ** The squad that is empty, and the entries one by one *)

(** [X14] When the provider lists no entry for the team (an empty array,
    or no array), [processTeamSquad] stops after the fetch of the squad:
    the team is not fetched, nothing is written, no player is counted and
    no error is noted. *)
Theorem empty_squad_writes_nothing {E : Type} (timeOf : E -> Z)
    (Date_parse : string -> option Z) (client : Client E) (cfg : config)
    (teamId : prim) (w : world E) (entries : option (list squadEntry)) (e' : E) :
  client_getTeamSquad client teamId (w_env w) = (Ok entries, e') ->
  entries = None \/ entries = Some [] ->
  processTeamSquad timeOf Date_parse client cfg teamId w
  = (Stats 0 [], World e' (w_db w)).
Proof.
  intros Hsquad Hempty. unfold processTeamSquad, processTeamSquadBody.
  erewrite tryCatch_Ok.
  2: { erewrite bind_Ok; [|by apply callClient_run].
       destruct Hempty as [->| ->]; reflexivity. }
  reflexivity.
Qed.

Lemma empty_squad_writes_nothing_witness :
  processTeamSquad id noDates
    (tableClient (fun _ => Ok (Some [])) (fun _ => Throw (newError "not asked"))
       (fun _ => Ok None) (fun _ => Ok None))
    exampleConfig (JNum 18710) freshWorld
  = (Stats 0 [], freshWorld).
Proof.
  apply (empty_squad_writes_nothing id noDates _ exampleConfig (JNum 18710) freshWorld
           (Some [])).
  - reflexivity.
  - by right.
Defined.

(** [X15] When the squad, the team and the countries are fetched, each
    entry within the cap leaves what its fate says and nothing else: a
    player that is there is upserted, counted and listed; a fetch that
    fails leaves one error with the [player_id] of the entry; an entry
    without [player_id] and a fetch without payload leave nothing.  The
    squad lists the players upserted in the order of the roster, the
    errors are in that order too, and no other player document is
    touched. *)
Theorem entries_meet_their_fates {E : Type} (timeOf : E -> Z)
    (Date_parse : string -> option Z) (client : Client E) (cfg : config)
    (Inv : E -> Prop) (teamId : prim) (roster : list squadEntry)
    (fates : list fate) (w : world E) :
  (forall countryId, completes Inv (client_getCountry client countryId)) ->
  returns Inv (client_getTeamSquad client teamId) (Some roster) ->
  roster <> [] ->
  completes Inv (client_getTeam client teamId) ->
  Forall2 (hasFate Inv client)
    (take (Z.to_nat (MAX_PLAYERS_PER_SQUAD cfg)) roster) fates ->
  Inv (w_env w) -> dbCanonical (w_db w) ->
  exists e' db' d,
    processTeamSquad timeOf Date_parse client cfg teamId w
    = (Stats (Z.of_nat (List.length (upsertedIds fates)))
         (playerErrors (take (Z.to_nat (MAX_PLAYERS_PER_SQUAD cfg)) roster) fates),
       World e' db')
    /\ db_squads db' !! squadDocId teamId = Some d
    /\ d !! "playerIds" = Some (DArr (upsertedIds fates))
    /\ (forall id, id ∈ upsertedIds fates -> playerStored db' id)
    /\ (forall k, (forall id, id ∈ upsertedIds fates -> k <> JStr id) ->
          db_players db' !! k = db_players (w_db w) !! k).
Proof.
  intros Hcountries Hsquad Hne Hteam Hfates Hinv Hdb.
  destruct (processTeamSquad_done timeOf Date_parse client cfg Inv teamId roster fates w
              Hcountries Hsquad Hne Hteam Hfates Hinv Hdb)
    as (e' & db' & d & Hrun & _ & _ & Hsq & Hd & Hin & Hout).
  by exists e', db', d.
Qed.

Lemma entries_meet_their_fates_witness :
  exists e' db' d,
    processTeamSquad id noDates playersDown exampleConfig (JNum 18710) freshWorld
    = (Stats 1
         [PlayerError (JNum 1) "fetch failed"; PlayerError (JNum 3) "fetch failed"],
       World e' db')
    /\ db_squads db' !! squadDocId (JNum 18710) = Some d
    /\ d !! "playerIds" = Some (DArr ["player:sportmonks:2"]).
Proof.
  destruct (entries_meet_their_fates id noDates playersDown exampleConfig
              (fun _ => True) (JNum 18710) mixedRoster
              [Failed (newError "fetch failed"); NoId; Upserted (playerNo 2);
               Failed (newError "fetch failed")] freshWorld)
    as (e' & db' & d & Hrun & Hsq & Hd & _).
  - intros countryId e _. by eexists _, _.
  - intros e _. by eexists.
  - done.
  - intros e _. by eexists _, _.
  - constructor; [|constructor; [|constructor; [|constructor; [|constructor]]]].
    + split; [reflexivity|]. split; [reflexivity|]. intros e _. by eexists.
    + reflexivity.
    + split; [reflexivity|]. left. by split.
    + split; [reflexivity|]. split; [reflexivity|]. intros e _. by eexists.
  - exact I.
  - exact dbCanonical_empty.
  - exists e', db', d.
    remember (processTeamSquad id noDates playersDown exampleConfig (JNum 18710)
                freshWorld) as run eqn:Erun.
    vm_compute in Hrun. split; [exact Hrun|]. split; [exact Hsq|exact Hd].
Defined.

(** ** Strings *)

Lemma string_app_nil_l (s : string) : "" +:+ s = s.
Proof. reflexivity. Qed.

Lemma string_app_cons (c : ascii) (s t : string) :
  String c s +:+ t = String c (s +:+ t).
Proof. reflexivity. Qed.

Lemma string_app_nil_r (s : string) : s +:+ "" = s.
Proof.
  induction s as [|c s IH]; [done|]. by rewrite string_app_cons, IH.
Qed.

Lemma string_app_assoc (a b c : string) : (a +:+ b) +:+ c = a +:+ (b +:+ c).
Proof.
  induction a as [|x a IH]; [done|]. by rewrite !string_app_cons, IH.
Qed.

Lemma allChars_app (P : ascii -> bool) (a b : string) :
  allChars P (a +:+ b) = allChars P a && allChars P b.
Proof.
  induction a as [|c a IH]; [done|].
  rewrite string_app_cons. simpl. by rewrite IH, andb_assoc.
Qed.

(** ** The parser of a line *)

Lemma parseLineFrom_text (text rest : string) :
  forall (values : list string) (current : string) (inQuotes : bool),
    without dquote text = true ->
    (inQuotes = true \/ without "," text = true) ->
    IngestCSV.parseLineFrom (text +:+ rest) values current inQuotes
    = IngestCSV.parseLineFrom rest values (current +:+ text) inQuotes.
Proof.
  induction text as [|c text IH]; intros values current inQuotes Hq Hc.
  - by rewrite string_app_nil_l, string_app_nil_r.
  - rewrite string_app_cons. simpl.
    unfold without in Hq, Hc. simpl in Hq, Hc.
    apply andb_true_iff in Hq as [Hq1 Hq].
    apply negb_true_iff in Hq1. rewrite Hq1.
    assert ((Ascii.eqb c "," && negb inQuotes) = false) as ->.
    { destruct Hc as [->|Hc]; [apply andb_false_r|].
      apply andb_true_iff in Hc as [Hc1 _]. apply negb_true_iff in Hc1.
      by rewrite Hc1. }
    rewrite IH.
    + by rewrite string_app_assoc, string_app_cons, string_app_nil_l.
    + done.
    + destruct Hc as [?|Hc]; [by left|right].
      by apply andb_true_iff in Hc as [_ ?].
Qed.

Lemma parseLineFrom_cell (cell : bool * string) (rest : string)
    (values : list string) (current : string) :
  readable cell ->
  IngestCSV.parseLineFrom (writeCell cell +:+ rest) values current false
  = IngestCSV.parseLineFrom rest values (current +:+ cell.2) false.
Proof.
  destruct cell as [[] text]; intros [Hq Hc]; simpl in *.
  - unfold writeCell, quoted. simpl.
    rewrite string_app_assoc, parseLineFrom_text by auto.
    rewrite string_app_cons. simpl IngestCSV.parseLineFrom.
    by rewrite ?Ascii.eqb_refl.
  - unfold writeCell. simpl. apply parseLineFrom_text; auto.
Qed.

Lemma parseLineFrom_comma (rest : string) (values : list string) (current : string) :
  IngestCSV.parseLineFrom (String "," rest) values current false
  = IngestCSV.parseLineFrom rest (values ++ [current]) "" false.
Proof. reflexivity. Qed.

Lemma parseLineFrom_cells (cells : list (bool * string)) :
  forall (cell : bool * string) (values : list string) (current : string),
    Forall readable (cell :: cells) ->
    IngestCSV.parseLineFrom (String.concat "," (writeCell <$> cell :: cells))
      values current false
    = values ++ (current +:+ cell.2) :: (snd <$> cells).
Proof.
  induction cells as [|next cells IH]; intros cell values current Hall;
    apply Forall_cons in Hall as [Hcell Hall].
  - simpl. rewrite <- (string_app_nil_r (writeCell cell)).
    by rewrite parseLineFrom_cell.
  - change (String.concat "," (writeCell <$> cell :: next :: cells))
      with (writeCell cell
            +:+ String "," (String.concat "," (writeCell <$> next :: cells))).
    rewrite parseLineFrom_cell, parseLineFrom_comma, IH by done.
    by rewrite <- app_assoc, string_app_nil_l.
Qed.

(** [X16] What a writer of CSV files puts on a line is read back by
    [parseCSVLine]: for cells written as they are or between double
    quotes and joined by commas, the values are the texts of the cells,
    in order, provided no text has a double quote and the texts that are
    not quoted have no comma; a comma between quotes does not split. *)
Theorem parseCSVLine_reads_back (cells : list (bool * string)) :
  cells <> [] ->
  Forall readable cells ->
  IngestCSV.parseCSVLine (String.concat "," (writeCell <$> cells)) = snd <$> cells.
Proof.
  intros Hne Hall. destruct cells as [|cell cells]; [done|].
  unfold IngestCSV.parseCSVLine. by rewrite parseLineFrom_cells.
Qed.

Lemma parseCSVLine_reads_back_witness :
  IngestCSV.parseCSVLine
    (String.concat "," (writeCell <$> [(false, "Spain"); (true, "Merino, Mikel");
                                       (false, ""); (true, "Real Sociedad")]))
  = ["Spain"; "Merino, Mikel"; ""; "Real Sociedad"].
Proof.
  apply (parseCSVLine_reads_back [(false, "Spain"); (true, "Merino, Mikel");
                                  (false, ""); (true, "Real Sociedad")]).
  - discriminate.
  - repeat (constructor;
            [split; [reflexivity|intros H; first [discriminate H|reflexivity]]|]).
    constructor.
Defined.

Lemma parseLineFrom_without (line : string) :
  forall (values : list string) (current : string) (inQuotes : bool),
    Forall (fun v => without dquote v = true) values ->
    without dquote current = true ->
    Forall (fun v => without dquote v = true)
      (IngestCSV.parseLineFrom line values current inQuotes)
    /\ (List.length values < List.length
          (IngestCSV.parseLineFrom line values current inQuotes))%nat.
Proof.
  induction line as [|c line IH]; intros values current inQuotes Hv Hc; simpl.
  - split; [apply Forall_app; split; [done|by constructor]|].
    rewrite length_app. simpl. lia.
  - destruct (Ascii.eqb c dquote) eqn:Eq; [by apply IH|].
    destruct (Ascii.eqb c "," && negb inQuotes).
    + destruct (IH (values ++ [current]) "" inQuotes) as [H1 H2].
      * apply Forall_app. split; [done|by constructor].
      * done.
      * split; [done|]. rewrite length_app in H2. simpl in H2. lia.
    + apply IH; [done|]. unfold without. rewrite allChars_app. simpl.
      unfold without in Hc. by rewrite Hc, Eq.
Qed.

(** [X17] [parseCSVLine] returns at least one value, and no value that it
    returns has a double quote in it: every double quote of the line only
    switches the quoting, so that the doubled quote by which CSV writes a
    quote inside a quoted cell is dropped. *)
Theorem parseCSVLine_drops_every_quote (line : string) :
  IngestCSV.parseCSVLine line <> []
  /\ Forall (fun v => without dquote v = true) (IngestCSV.parseCSVLine line)
  /\ IngestCSV.parseCSVLine (quoted ("6' 2" +:+ String dquote (String dquote "")))
     = ["6' 2"].
Proof.
  destruct (parseLineFrom_without line [] "" false) as [H1 H2]; [done|done|].
  split; [|split; [done|reflexivity]].
  intros Hnil. unfold IngestCSV.parseCSVLine in Hnil. rewrite Hnil in H2.
  simpl in H2. lia.
Qed.

(** ** The parser of the file *)

Lemma splitFrom_without (sep : ascii) (s current : string) :
  without sep s = true -> splitFrom sep s current = [current +:+ s].
Proof.
  revert current. induction s as [|c s IH]; intros current Hs; simpl.
  - by rewrite string_app_nil_r.
  - unfold without in Hs. simpl in Hs. apply andb_true_iff in Hs as [Hc Hs].
    apply negb_true_iff in Hc. rewrite Hc, IH by done.
    by rewrite string_app_assoc.
Qed.

Lemma objGet_objSet {V : Type} (key key' : string) (v : V) (o : list (string * V)) :
  objGet (objSet key v o) key' = if String.eqb key key' then Some v else objGet o key'.
Proof.
  induction o as [|[k x] o IH]; simpl.
  - by destruct (String.eqb key key').
  - destruct (String.eqb k key) eqn:Ek; simpl.
    + apply String.eqb_eq in Ek as ->. by destruct (String.eqb key key').
    + destruct (String.eqb k key') eqn:Ek'; [|done].
      apply String.eqb_eq in Ek' as ->. by rewrite String.eqb_sym, Ek.
Qed.

Lemma rowOf_members (cells : list (string * string)) :
  forall (r : IngestCSV.row) (key : string),
    let r' := foldl (fun r cv =>
                       if String.eqb cv.1 "__proto__" then r
                       else objSet cv.1 (orElse (JStr (trim cv.2)) JNull) r)
                    r cells in
    (forall v, objGet r key = Some v -> isCell v) ->
    (forall v, objGet r' key = Some v -> isCell v)
    /\ (key <> "__proto__" -> (is_Some (objGet r key) \/ key ∈ cells.*1) ->
        is_Some (objGet r' key)).
Proof.
  induction cells as [|[col value] cells IH]; intros r key r' Hr; subst r'; simpl.
  - split; [done|]. intros _ [?|Hin]; [done|]. by apply elem_of_nil in Hin.
  - set (r1 := if String.eqb col "__proto__" then r
               else objSet col (orElse (JStr (trim value)) JNull) r).
    destruct (IH r1 key) as [H1 H2].
    + subst r1. destruct (String.eqb col "__proto__"); [done|].
      intros v. rewrite objGet_objSet.
      destruct (String.eqb col key); [|by apply Hr].
      intros [= <-]. unfold orElse, isCell. simpl.
      destruct (String.eqb (trim value) "") eqn:E; simpl; [by left|].
      right. eexists. split; [done|]. by apply String.eqb_neq.
    + split; [done|]. intros Hkey Hin. apply H2; [done|].
      destruct Hin as [Hin|Hin].
      * left. subst r1. destruct (String.eqb col "__proto__"); [done|].
        rewrite objGet_objSet. by destruct (String.eqb col key).
      * apply elem_of_cons in Hin as [->|Hin]; [left|by right].
        subst r1. simpl. rewrite (proj2 (String.eqb_neq _ _) Hkey).
        by rewrite objGet_objSet, String.eqb_refl.
Qed.

Lemma parseCSV_accepts (toLowerCase : string -> string) (content : string)
    (rows : list IngestCSV.row) :
  IngestCSV.parseCSV toLowerCase content = Ok rows ->
  without lineFeed (trim content) = false
  /\ "team" ∈ headerOf toLowerCase content
  /\ ("name" ∈ headerOf toLowerCase content
      \/ "player_fullname" ∈ headerOf toLowerCase content).
Proof.
  unfold IngestCSV.parseCSV, headerOf, split.
  destruct (without lineFeed (trim content)) eqn:Hlf.
  { by rewrite (splitFrom_without _ _ _ Hlf). }
  destruct (List.length (splitFrom lineFeed (trim content) "") <? 2)%nat; [done|].
  set (header := (fun h => toLowerCase (trim h)) <$> _).
  destruct (bool_decide ("team" ∈ header)) eqn:Eteam; simpl; [|done].
  apply bool_decide_eq_true in Eteam.
  destruct (bool_decide ("name" ∈ header)) eqn:Ename; simpl.
  - apply bool_decide_eq_true in Ename. auto.
  - destruct (bool_decide ("player_fullname" ∈ header)) eqn:Efull; simpl; [|done].
    apply bool_decide_eq_true in Efull. auto.
Qed.

(** [X18] [parseCSV] rejects, with the error of the missing rows, a
    content that has no line feed once trimmed: an empty file, a header
    alone, a header followed by blank lines only.  And what it accepts has
    a header with, cells trimmed and in lower case, a [team] column and a
    [name] or a [player_fullname] column: it returns rows for no other
    file. *)
Theorem parseCSV_rejects (toLowerCase : string -> string) (content : string) :
  (without lineFeed (trim content) = true ->
   IngestCSV.parseCSV toLowerCase content
   = Throw (newError "CSV must have a header row and at least one data row"))
  /\ (forall rows,
        IngestCSV.parseCSV toLowerCase content = Ok rows ->
        without lineFeed (trim content) = false
        /\ "team" ∈ headerOf toLowerCase content
        /\ ("name" ∈ headerOf toLowerCase content
            \/ "player_fullname" ∈ headerOf toLowerCase content)).
Proof.
  split; [|apply parseCSV_accepts].
  unfold IngestCSV.parseCSV, split.
  intros Hlf. by rewrite (splitFrom_without _ _ _ Hlf).
Qed.

Lemma parseCSV_rejects_witness :
  IngestCSV.parseCSV asciiLower ("team,name" +:+ String lineFeed (String lineFeed "  "))
  = Throw (newError "CSV must have a header row and at least one data row").
Proof.
  apply (proj1 (parseCSV_rejects asciiLower
                  ("team,name" +:+ String lineFeed (String lineFeed "  ")))).
  vm_compute. reflexivity.
Defined.

Lemma length_omap_le {A B : Type} (f : A -> option B) (l : list A) :
  (List.length (omap f l) <= List.length l)%nat.
Proof.
  induction l as [|x l IH]; [done|].
  change (omap f (x :: l))
    with (match f x with Some y => y :: omap f l | None => omap f l end).
  destruct (f x); simpl; lia.
Qed.

Lemma parseCSV_cells (toLowerCase : string -> string) (content : string)
    (rows : list IngestCSV.row) :
  IngestCSV.parseCSV toLowerCase content = Ok rows ->
  Forall (fun r => isCell (IngestCSV.member r "team")
                   /\ forall key v, objGet r key = Some v -> isCell v) rows.
Proof.
  intros Hok.
  destruct (parseCSV_accepts toLowerCase content rows Hok) as (_ & Hteam & _).
  revert Hok. unfold IngestCSV.parseCSV. fold (headerOf toLowerCase content).
  destruct (List.length (split lineFeed (trim content)) <? 2)%nat eqn:Elen; [done|].
  destruct (negb _ || negb _); [done|]. intros [= <-].
  apply Forall_forall. intros r Hr.
  apply list_elem_of_omap in Hr as (line & _ & Hline).
  unfold IngestCSV.parseDataLine in Hline.
  destruct (String.eqb (trim line) ""); [done|].
  destruct (List.length (IngestCSV.parseCSVLine (trim line))
            =? List.length (headerOf toLowerCase content))%nat eqn:Ecols;
    [|done].
  injection Hline as <-. apply Nat.eqb_eq in Ecols.
  unfold IngestCSV.rowOf, IngestCSV.member.
  pose proof (fun key =>
    rowOf_members (zip (headerOf toLowerCase content)
                     (IngestCSV.parseCSVLine (trim line))) [] key
      (fun v (H : objGet [] key = Some v) =>
         match H in _ = o return match o with Some _ => isCell v | None => True end
         with eq_refl => I end)) as Hrow.
  simpl in Hrow. split; [|intros key; apply (Hrow key)].
  destruct (proj2 (Hrow "team")) as [v Hv]; [done| |].
  - right. by rewrite fst_zip by lia.
  - rewrite Hv. simpl. by apply (proj1 (Hrow "team")).
Qed.

(** [X19] In every row that [parseCSV] returns, a member is a string that
    is not empty, or null (an empty cell), and the member [team] is there;
    the rows come from the data lines, at most one per line. *)
Theorem parseCSV_rows (toLowerCase : string -> string) (content : string)
    (rows : list IngestCSV.row) :
  IngestCSV.parseCSV toLowerCase content = Ok rows ->
  Forall (fun r => isCell (IngestCSV.member r "team")
                   /\ forall key v, objGet r key = Some v -> isCell v) rows
  /\ (List.length rows < List.length (split lineFeed (trim content)))%nat.
Proof.
  intros Hok. split; [by eapply parseCSV_cells|].
  revert Hok. unfold IngestCSV.parseCSV.
  destruct (List.length (split lineFeed (trim content)) <? 2)%nat eqn:Elen; [done|].
  destruct (negb _ || negb _); [done|]. intros [= <-].
  apply Nat.ltb_ge in Elen.
  pose proof (length_omap_le
                (IngestCSV.parseDataLine
                   ((fun h => toLowerCase (trim h))
                      <$> split "," (hd "" (split lineFeed (trim content)))))
                (tl (split lineFeed (trim content)))) as Hle.
  destruct (split lineFeed (trim content)); simpl in *; lia.
Qed.

Lemma parseCSV_rows_witness :
  IngestCSV.parseCSV asciiLower squadsCsv
  = Ok [[("team", JStr "Spain"); ("name", JStr "Pedri"); ("position", JStr "MID");
         ("club", JStr "Barcelona")];
        [("team", JStr "Spain"); ("name", JStr "Lamine Yamal"); ("position", JNull);
         ("club", JNull)];
        [("team", JStr "Brazil"); ("name", JStr "Vini"); ("position", JStr "FWD");
         ("club", JStr "Real Madrid")]]
  /\ Forall (fun r => isCell (IngestCSV.member r "team")
                      /\ forall key v, objGet r key = Some v -> isCell v)
       [[("team", JStr "Spain"); ("name", JStr "Pedri"); ("position", JStr "MID");
         ("club", JStr "Barcelona")];
        [("team", JStr "Spain"); ("name", JStr "Lamine Yamal"); ("position", JNull);
         ("club", JNull)];
        [("team", JStr "Brazil"); ("name", JStr "Vini"); ("position", JStr "FWD");
         ("club", JStr "Real Madrid")]].
Proof.
  assert (IngestCSV.parseCSV asciiLower squadsCsv
          = Ok [[("team", JStr "Spain"); ("name", JStr "Pedri");
                 ("position", JStr "MID"); ("club", JStr "Barcelona")];
                [("team", JStr "Spain"); ("name", JStr "Lamine Yamal");
                 ("position", JNull); ("club", JNull)];
                [("team", JStr "Brazil"); ("name", JStr "Vini");
                 ("position", JStr "FWD"); ("club", JStr "Real Madrid")]]) as Hok
    by (vm_compute; reflexivity).
  split; [exact Hok|].
  exact (proj1 (parseCSV_rows asciiLower squadsCsv _ Hok)).
Defined.

(** ** Identifiers of the CSV import *)

Lemma isAlnum_not_dash (c : ascii) : isAlnum c = true -> Ascii.eqb c "-" = false.
Proof.
  intros Hc. apply Ascii.eqb_neq. intros ->. discriminate Hc.
Qed.

Lemma dashRuns_shape (s : string) :
  forall inRun : bool,
    allChars isSlugChar (dashRuns s inRun) = true
    /\ noDoubleDash (dashRuns s inRun) = true
    /\ (inRun = true -> startsWithDash (dashRuns s inRun) = false).
Proof.
  induction s as [|c s IH]; intros inRun; simpl; [done|].
  destruct (isAlnum c) eqn:Ec; simpl.
  - destruct (IH false) as (H1 & H2 & _).
    unfold isSlugChar at 1. rewrite Ec, H1, H2, (isAlnum_not_dash c Ec). done.
  - destruct (IH true) as (H1 & H2 & H3). specialize (H3 eq_refl).
    destruct inRun; simpl; [done|].
    rewrite H1, H2, H3. done.
Qed.

Lemma stripLeadingDash_shape (s : string) :
  allChars isSlugChar s = true -> noDoubleDash s = true ->
  allChars isSlugChar (stripLeadingDash s) = true
  /\ noDoubleDash (stripLeadingDash s) = true
  /\ startsWithDash (stripLeadingDash s) = false.
Proof.
  destruct s as [|c s]; simpl; [done|].
  intros [Hc Hs]%andb_true_iff [Hd Hn]%andb_true_iff.
  destruct (Ascii.eqb c "-") eqn:Ec; simpl in *.
  - apply negb_true_iff in Hd. done.
  - by rewrite Hc, Hs, Ec, Hn.
Qed.

Lemma stripTrailingDash_starts (t : string) :
  startsWithDash (stripTrailingDash t) = true -> startsWithDash t = true.
Proof.
  destruct t as [|c [|c' t]]; simpl; [done| |done].
  destruct (Ascii.eqb c "-") eqn:E; simpl; [done|]. by rewrite E.
Qed.

Lemma stripTrailingDash_empty (t : string) :
  stripTrailingDash t = "" -> t = "" \/ t = "-".
Proof.
  destruct t as [|c [|c' t]]; simpl; [by left| |done].
  destruct (Ascii.eqb c "-") eqn:E; [|done].
  apply Ascii.eqb_eq in E as ->. by right.
Qed.

Lemma stripTrailingDash_shape (s : string) :
  allChars isSlugChar s = true -> noDoubleDash s = true ->
  allChars isSlugChar (stripTrailingDash s) = true
  /\ noDoubleDash (stripTrailingDash s) = true
  /\ endsWithDash (stripTrailingDash s) = false.
Proof.
  induction s as [|c s IH]; [done|].
  change (allChars isSlugChar (String c s))
    with (isSlugChar c && allChars isSlugChar s).
  change (noDoubleDash (String c s))
    with (negb (Ascii.eqb c "-" && startsWithDash s) && noDoubleDash s).
  intros [Hc Hs]%andb_true_iff [Hd Hn]%andb_true_iff.
  apply negb_true_iff in Hd.
  destruct (IH Hs Hn) as (H1 & H2 & H3).
  destruct s as [|c' s].
  - simpl. destruct (Ascii.eqb c "-") eqn:Ec; simpl; [done|]. by rewrite Hc, Ec.
  - change (stripTrailingDash (String c (String c' s)))
      with (String c (stripTrailingDash (String c' s))).
    set (t := stripTrailingDash (String c' s)) in *.
    change (allChars isSlugChar (String c t))
      with (isSlugChar c && allChars isSlugChar t).
    change (noDoubleDash (String c t))
      with (negb (Ascii.eqb c "-" && startsWithDash t) && noDoubleDash t).
    rewrite Hc, H1, H2. split; [done|]. split.
    + destruct (Ascii.eqb c "-") eqn:Ec; [|done]. simpl in Hd |- *.
      destruct (startsWithDash t) eqn:Et; [|done].
      apply stripTrailingDash_starts in Et. simpl in Et. congruence.
    + destruct t as [|c2 t2] eqn:Et; [|exact H3].
      destruct (stripTrailingDash_empty _ Et) as [?|[= -> ->]]; [done|].
      simpl in Hd |- *. by rewrite andb_true_r in Hd.
Qed.

Lemma stripTrailingDash_keeps_start (s : string) :
  startsWithDash s = false -> startsWithDash (stripTrailingDash s) = false.
Proof.
  intros Hs. destruct (startsWithDash (stripTrailingDash s)) eqn:E; [|done].
  apply stripTrailingDash_starts in E. congruence.
Qed.

Lemma slugOf_shaped (toLowerCase normalizeNFD : string -> string) (name : string) :
  slugShaped (IngestCSV.slugOf toLowerCase normalizeNFD name) = true.
Proof.
  unfold IngestCSV.slugOf, trimDashes, slugShaped.
  destruct (dashRuns_shape (removeMarks (normalizeNFD (toLowerCase name))) false)
    as (H1 & H2 & _).
  destruct (stripLeadingDash_shape _ H1 H2) as (H3 & H4 & H5).
  destruct (stripTrailingDash_shape _ H3 H4) as (H6 & H7 & H9).
  by rewrite H6, H7, H9, (stripTrailingDash_keeps_start _ H5).
Qed.

(** [X20] Whatever the name, the identifier that [generateId] computes is
    the prefix, [:csv:] and a slug made of the letters [a] to [z], digits
    and single hyphens, with no hyphen in front or at the end (the slug is
    empty when the name has no letter and no digit). *)
Theorem generateId_is_a_slug (toLowerCase normalizeNFD : string -> string)
    (prefix name : string) :
  exists slug,
    IngestCSV.generateId toLowerCase normalizeNFD prefix name
    = prefix +:+ ":csv:" +:+ slug
    /\ allChars isSlugChar slug = true
    /\ noDoubleDash slug = true
    /\ startsWithDash slug = false
    /\ endsWithDash slug = false.
Proof.
  exists (IngestCSV.slugOf toLowerCase normalizeNFD name). split; [done|].
  pose proof (slugOf_shaped toLowerCase normalizeNFD name) as H.
  unfold slugShaped in H.
  apply andb_true_iff in H as [[[H1 H2]%andb_true_iff H3]%andb_true_iff H4].
  apply negb_true_iff in H3, H4. done.
Qed.

Lemma isSlugChar_not_mark (c1 c2 : ascii) : isSlugChar c1 = true -> isMark c1 c2 = false.
Proof.
  destruct c1 as [[] [] [] [] [] [] [] []]; try discriminate; reflexivity.
Qed.

Lemma removeMarks_slug (s : string) :
  allChars isSlugChar s = true -> removeMarks s = s.
Proof.
  induction s as [|c1 s IH]; [done|].
  change (allChars isSlugChar (String c1 s))
    with (isSlugChar c1 && allChars isSlugChar s).
  intros [Hc Hs]%andb_true_iff. destruct s as [|c2 s]; [done|].
  change (removeMarks (String c1 (String c2 s)))
    with (if isMark c1 c2 then removeMarks s
          else String c1 (removeMarks (String c2 s))).
  by rewrite (isSlugChar_not_mark c1 c2 Hc), IH.
Qed.

Lemma dashRuns_slug (s : string) :
  forall inRun : bool,
    allChars isSlugChar s = true -> noDoubleDash s = true ->
    (inRun = true -> startsWithDash s = false) ->
    dashRuns s inRun = s.
Proof.
  induction s as [|c s IH]; intros inRun; [done|].
  change (allChars isSlugChar (String c s))
    with (isSlugChar c && allChars isSlugChar s).
  change (noDoubleDash (String c s))
    with (negb (Ascii.eqb c "-" && startsWithDash s) && noDoubleDash s).
  intros [Hc Hs]%andb_true_iff [Hd Hn]%andb_true_iff Hrun.
  apply negb_true_iff in Hd. simpl.
  destruct (isAlnum c) eqn:Ec.
  - rewrite (IH false); done.
  - unfold isSlugChar in Hc. rewrite Ec in Hc. simpl in Hc.
    rewrite Hc in Hd. simpl in Hd.
    destruct inRun; [by specialize (Hrun eq_refl); simpl in Hrun; congruence|].
    apply Ascii.eqb_eq in Hc as ->. rewrite (IH true); auto.
Qed.

Lemma stripTrailingDash_slug (s : string) :
  endsWithDash s = false -> stripTrailingDash s = s.
Proof.
  induction s as [|c s IH]; [done|]. destruct s as [|c' s].
  - simpl. by intros ->.
  - intros He.
    change (stripTrailingDash (String c (String c' s)))
      with (String c (stripTrailingDash (String c' s))).
    by rewrite IH.
Qed.

Lemma slugOf_of_slug (toLowerCase normalizeNFD : string -> string) (s : string) :
  (forall s, allChars isSlugChar s = true -> toLowerCase s = s) ->
  (forall s, allChars isSlugChar s = true -> normalizeNFD s = s) ->
  slugShaped s = true ->
  IngestCSV.slugOf toLowerCase normalizeNFD s = s.
Proof.
  intros Hlower Hnfd Hs. unfold slugShaped in Hs.
  apply andb_true_iff in Hs as [[[H1 H2]%andb_true_iff H3]%andb_true_iff H4].
  apply negb_true_iff in H3, H4.
  unfold IngestCSV.slugOf, trimDashes.
  rewrite Hlower, Hnfd, removeMarks_slug, dashRuns_slug by done.
  assert (stripLeadingDash s = s) as ->.
  { destruct s as [|c s]; [done|]. simpl in *. by rewrite H3. }
  by apply stripTrailingDash_slug.
Qed.

(** [X21] The slug of a slug is the slug itself; so a name that is
    already written as an identifier gets the identifier of every name
    that has it for slug: the names [South Korea] and [south-korea] share
    their documents.  ([toLowerCase] and [normalize] leave the letters [a]
    to [z], the digits and the hyphen as they are.) *)
Theorem generateId_of_a_slug (toLowerCase normalizeNFD : string -> string)
    (prefix name : string) :
  (forall s, allChars isSlugChar s = true -> toLowerCase s = s) ->
  (forall s, allChars isSlugChar s = true -> normalizeNFD s = s) ->
  IngestCSV.generateId toLowerCase normalizeNFD prefix
    (IngestCSV.slugOf toLowerCase normalizeNFD name)
  = IngestCSV.generateId toLowerCase normalizeNFD prefix name.
Proof.
  intros Hlower Hnfd. unfold IngestCSV.generateId.
  by rewrite (slugOf_of_slug _ _ _ Hlower Hnfd (slugOf_shaped _ _ name)).
Qed.

Lemma lowerChar_slug (c : ascii) : isSlugChar c = true -> lowerChar c = c.
Proof.
  destruct c as [[] [] [] [] [] [] [] []]; try discriminate; reflexivity.
Qed.

Lemma asciiLower_slug (s : string) :
  allChars isSlugChar s = true -> asciiLower s = s.
Proof.
  induction s as [|c s IH]; [done|].
  change (allChars isSlugChar (String c s))
    with (isSlugChar c && allChars isSlugChar s).
  intros [Hc Hs]%andb_true_iff. simpl. by rewrite lowerChar_slug, IH.
Qed.

Lemma generateId_of_a_slug_witness :
  IngestCSV.slugOf asciiLower (fun s => s) "South Korea" = "south-korea"
  /\ IngestCSV.generateId asciiLower (fun s => s) "team" "south-korea"
     = IngestCSV.generateId asciiLower (fun s => s) "team" "South Korea".
Proof.
  split; [reflexivity|].
  exact (generateId_of_a_slug asciiLower (fun s => s) "team" "South Korea"
           asciiLower_slug (fun s _ => eq_refl)).
Defined.

(** ** The teams of the file *)

Lemma keys_mapPush (m : list (prim * list IngestCSV.row)) team r :
  (IngestCSV.mapPush m team r).*1
  = m.*1 ++ (if decide (team ∈ m.*1) then [] else [team]).
Proof.
  induction m as [|[k rs] m IH]; csimpl.
  - destruct (decide (team ∈ [])) as [H|_]; [by apply elem_of_nil in H|done].
  - destruct (decide (k = team)) as [->|Hk]; csimpl.
    + destruct (decide (team ∈ team :: m.*1)) as [_|H]; [by rewrite app_nil_r|].
      exfalso. apply H. by left.
    + rewrite IH. f_equal. f_equal.
      destruct (decide (team ∈ m.*1)) as [H|H];
        destruct (decide (team ∈ k :: m.*1)) as [H'|H']; try done.
      * exfalso. apply H'. by right.
      * exfalso. apply elem_of_cons in H' as [->|H']; [done|by apply H].
Qed.

Lemma playersOf_mapPush (m : list (prim * list IngestCSV.row)) team r t :
  playersOf (IngestCSV.mapPush m team r) t
  = if decide (team = t) then playersOf m t ++ [r] else playersOf m t.
Proof.
  induction m as [|[k rs] m IH]; csimpl.
  - destruct (decide (team = t)); done.
  - destruct (decide (k = team)) as [->|Hk]; csimpl.
    + destruct (decide (team = t)); done.
    + destruct (decide (k = t)) as [->|Hkt]; [|exact IH].
      destruct (decide (team = t)) as [->|_]; done.
Qed.

Lemma playersOf_elem (m : list (prim * list IngestCSV.row)) t ps :
  NoDup m.*1 -> (t, ps) ∈ m -> playersOf m t = ps.
Proof.
  induction m as [|[k rs] m IH]; intros Hnd Hin; [by apply elem_of_nil in Hin|].
  csimpl in *. apply NoDup_cons in Hnd as [Hk Hnd].
  apply elem_of_cons in Hin as [[= -> ->]|Hin].
  - by destruct (decide (k = k)).
  - destruct (decide (k = t)) as [->|_]; [|by apply IH].
    exfalso. apply Hk. apply list_elem_of_fmap. by exists (t, ps).
Qed.

Lemma playersOf_key (m : list (prim * list IngestCSV.row)) t :
  t ∈ m.*1 -> (t, playersOf m t) ∈ m.
Proof.
  induction m as [|[k rs] m IH]; intros Hin; [by apply elem_of_nil in Hin|].
  csimpl in *. destruct (decide (k = t)) as [->|Hk]; [by left|].
  right. apply IH. apply elem_of_cons in Hin as [->|Hin]; done.
Qed.

Lemma rowsOf_snoc team rows r :
  rowsOf team (rows ++ [r])
  = if decide (IngestCSV.member r "team" = team) then rowsOf team rows ++ [r]
    else rowsOf team rows.
Proof.
  unfold rowsOf. rewrite filter_app. simpl.
  rewrite filter_cons, filter_nil.
  destruct (decide (IngestCSV.member r "team" = team)); [done|by rewrite app_nil_r].
Qed.

Lemma groupByTeam_snoc rows r :
  IngestCSV.groupByTeam (rows ++ [r])
  = IngestCSV.mapPush (IngestCSV.groupByTeam rows) (IngestCSV.member r "team") r.
Proof. unfold IngestCSV.groupByTeam. by rewrite foldl_app. Qed.

Lemma groupByTeam_keys rows :
  NoDup (IngestCSV.groupByTeam rows).*1
  /\ (forall t, t ∈ (IngestCSV.groupByTeam rows).*1 <-> rowsOf t rows <> [])
  /\ forall t, playersOf (IngestCSV.groupByTeam rows) t = rowsOf t rows.
Proof.
  induction rows as [|r rows IH] using rev_ind.
  - split; [constructor|]. split; [|done].
    intros t. split; [intros H; by apply elem_of_nil in H|done].
  - destruct IH as (Hnd & Hkeys & Hplayers).
    rewrite groupByTeam_snoc. split; [|split].
    + rewrite keys_mapPush.
      destruct (decide (_ ∈ _)) as [_|Hnew]; [by rewrite app_nil_r|].
      apply NoDup_app. split; [done|]. split; [|apply NoDup_singleton].
      intros x Hx ->%list_elem_of_singleton. by apply Hnew.
    + intros t. rewrite keys_mapPush, rowsOf_snoc, elem_of_app, Hkeys.
      destruct (decide (IngestCSV.member r "team" = t)) as [->|Hne].
      * split; [intros _ H; by destruct (rowsOf t rows)|intros _].
        destruct (decide (t ∈ _)) as [Hin|Hout]; [left; by apply Hkeys|].
        right. by apply list_elem_of_singleton.
      * split; [intros [H|H]; [done|]|by left].
        destruct (decide (_ ∈ _)); [by apply elem_of_nil in H|].
        by apply list_elem_of_singleton in H.
    + intros t. rewrite playersOf_mapPush, rowsOf_snoc, Hplayers.
      destruct (decide (_ = t)); done.
Qed.

(** [X22] The map of step 5 has each team of the rows once, with the rows
    of that team in the order of the file and no team without rows; a
    further row comes last in its team, and its team comes last among the
    keys when it is new. *)
Theorem groupByTeam_groups (rows : list IngestCSV.row) :
  NoDup (IngestCSV.groupByTeam rows).*1
  /\ (forall team players,
        (team, players) ∈ IngestCSV.groupByTeam rows
        <-> players = rowsOf team rows /\ players <> [])
  /\ forall r,
       (IngestCSV.groupByTeam (rows ++ [r])).*1
       = (IngestCSV.groupByTeam rows).*1
         ++ (if decide (rowsOf (IngestCSV.member r "team") rows = []) then
               [IngestCSV.member r "team"]
             else []).
Proof.
  destruct (groupByTeam_keys rows) as (Hnd & Hkeys & Hplayers).
  split; [done|]. split.
  - intros team players. split.
    + intros Hin.
      assert (team ∈ (IngestCSV.groupByTeam rows).*1) as Hkey.
      { apply list_elem_of_fmap. by exists (team, players). }
      assert (playersOf (IngestCSV.groupByTeam rows) team = players)
        as <- by by apply playersOf_elem.
      split; [by rewrite Hplayers|]. rewrite Hplayers. by apply Hkeys.
    + intros [Heq Hne]. subst players. rewrite <- Hplayers.
      apply playersOf_key. by apply Hkeys.
  - intros r. rewrite groupByTeam_snoc, keys_mapPush. f_equal.
    destruct (decide (_ ∈ _)) as [Hin|Hout];
      destruct (decide (rowsOf _ rows = [])) as [He|Hne]; try done.
    + by apply Hkeys in Hin.
    + by apply Hkeys in Hne.
Qed.

(** ** The import of the rows *)

Section ImportFacts.
Variable toLowerCase : string -> string.
Variable normalizeNFD : string -> string.
Variable Date_now : nat -> Z.

Local Abbreviation importDb := (IngestCSV.callDb Date_now).
Local Abbreviation importPlayers := (IngestCSV.upsertPlayers toLowerCase normalizeNFD Date_now).
Local Abbreviation importTeam := (IngestCSV.processTeam toLowerCase normalizeNFD Date_now).
Local Abbreviation importTeams := (IngestCSV.processTeams toLowerCase normalizeNFD Date_now).
Local Abbreviation playerIdOf := (IngestCSV.playerIdOf toLowerCase normalizeNFD).
Local Abbreviation squadIdOf := (IngestCSV.squadIdOf toLowerCase).

Lemma csv_callDb_inv {A : Type} (c : Z -> M database A) s (r : result A) s' :
  importDb c s = (r, s') ->
  exists db', c (Date_now (IngestCSV.writes s)) (IngestCSV.store s) = (r, db')
              /\ s' = IngestCSV.ImportState (S (IngestCSV.writes s)) db'.
Proof.
  unfold IngestCSV.callDb. destruct (c _ _) as [r1 db']. intros [= <- <-].
  by exists db'.
Qed.

Lemma upsertInto_failure proj inj ix _id (d : doc) db e db' :
  upsertInto proj inj ix _id d db = (Throw e, db') -> e = duplicateKeyError.
Proof.
  unfold upsertInto, updateOne. case_decide; by intros [= <- _].
Qed.

Lemma upsertPlayer_keeps_squads now d db (r : result doc) db' :
  upsertPlayer now d db = (r, db') -> db_squads db' = db_squads db.
Proof.
  unfold upsertPlayer, upsertInto. destruct (updateOne _ _ _ _); by intros [= _ <-].
Qed.

Lemma cappedSquad_ext db db' id :
  db_squads db' = db_squads db -> cappedSquad db id -> cappedSquad db' id.
Proof. unfold cappedSquad. by intros ->. Qed.

Lemma upsertPlayers_inv teamName players :
  forall playerIds sum s (r : result (list string * IngestCSV.summary)) s',
    importPlayers teamName players playerIds sum s = (r, s') ->
    db_squads (IngestCSV.store s') = db_squads (IngestCSV.store s)
    /\ match r with
       | Ok (playerIds', sum') =>
           playerIds' = playerIds ++ (playerIdOf teamName <$> players)
           /\ sum' = IngestCSV.Summary (IngestCSV.teamsUpserted sum)
                       (IngestCSV.playersUpserted sum + Z.of_nat (List.length players))
                       (IngestCSV.squadsUpserted sum)
           /\ IngestCSV.writes s' = (IngestCSV.writes s + List.length players)%nat
       | Throw e => e = duplicateKeyError
       end.
Proof.
  induction players as [|player players IH]; intros playerIds sum s r s' Hrun.
  - injection Hrun as <- <-. split; [done|]. rewrite app_nil_r. simpl.
    destruct sum. simpl. split; [done|]. split; [f_equal; lia|lia].
  - simpl in Hrun.
    apply bind_inv in Hrun as [(a & s1 & H1 & Hrun)|(e & H1 & ->)].
    + apply csv_callDb_inv in H1 as (db1 & H1 & ->).
      apply upsertPlayer_keeps_squads in H1.
      apply IH in Hrun as [Hsq Hr]. simpl in *. split; [congruence|].
      destruct r as [[ids' sum']|e]; [|done].
      destruct Hr as (-> & -> & ->). simpl.
      split; [by rewrite <- app_assoc|]. split; [f_equal; lia|lia].
    + apply csv_callDb_inv in H1 as (db1 & H1 & ->). simpl. split.
      * by eapply upsertPlayer_keeps_squads.
      * by eapply upsertInto_failure.
Qed.

Lemma squadId_of_csv teamName playerIds :
  squadId_of (IngestCSV.squadDataOf toLowerCase teamName playerIds)
  = JStr (squadIdOf teamName).
Proof. reflexivity. Qed.

Lemma upsertSquad_capped now d db (r : result doc) db' id :
  upsertSquad now d db = (r, db') ->
  Z.of_nat (List.length (default [] (sd_playerIds d))) <= IngestCSV.MAX_PLAYERS_PER_SQUAD ->
  (cappedSquad db id -> cappedSquad db' id)
  /\ (forall a, r = Ok a -> squadId_of d = JStr id -> cappedSquad db' id).
Proof.
  unfold upsertSquad, upsertInto. intros Hrun Hlen.
  destruct (updateOne _ _ _ _) as [c|e] eqn:Hup; injection Hrun as <- <-; [|done].
  apply updateOne_Ok_inv in Hup as ->.
  assert (forall older : doc,
            (squadDoc now d ∪ older) !! "playerIds"
            = Some (DArr (default [] (sd_playerIds d)))) as Hids.
  { intros older. by apply lookup_union_Some_l. }
  assert (squadId_of d = JStr id -> cappedSquad (setSquads
            (<[squadId_of d := squadDoc now d ∪ default ∅ (db_squads db !! squadId_of d)]>
               (db_squads db)) db) id) as Hnew.
  { intros Hid. eexists _, _. simpl. rewrite Hid, lookup_insert_eq.
    split; [done|]. split; [apply Hids|done]. }
  split; [|by intros _ _].
  destruct (decide (squadId_of d = JStr id)) as [Hid|Hid]; [by intros _; apply Hnew|].
  intros (d0 & ids & H0 & H1 & H2). exists d0, ids. simpl.
  by rewrite lookup_insert_ne.
Qed.

Lemma processTeam_inv teamName players sum s (r : result IngestCSV.summary) s' :
  importTeam teamName players sum s = (r, s') ->
  (forall id, cappedSquad (IngestCSV.store s) id -> cappedSquad (IngestCSV.store s') id)
  /\ match r with
     | Ok sum' =>
         exists name,
           teamName = JStr name
           /\ sum' = IngestCSV.Summary (IngestCSV.teamsUpserted sum + 1)
                       (IngestCSV.playersUpserted sum + playersKept players)
                       (IngestCSV.squadsUpserted sum + 1)
           /\ Z.of_nat (IngestCSV.writes s')
              = Z.of_nat (IngestCSV.writes s) + 2 + playersKept players
           /\ cappedSquad (IngestCSV.store s') (squadIdOf name)
     | Throw e =>
         e = duplicateKeyError
         \/ (teamName = JNull
             /\ e = typeError "Cannot read properties of null (reading 'toLowerCase')"
             /\ s' = s)
         \/ (exists e', toLowerCaseOf "name" teamName = Throw e' /\ teamName <> JNull)
     end.
Proof.
  unfold IngestCSV.processTeam. intros Hrun.
  apply bind_inv in Hrun as [(name & s0 & H0 & Hrun)|(e & H0 & ->)]; cycle 1.
  { injection H0 as H0 <-. split; [done|].
    destruct teamName; try discriminate H0.
    - right. right. by eexists.
    - right. left. by injection H0 as <-.
    - right. right. by eexists.
    - right. right. by eexists. }
  injection H0 as H0 <-.
  destruct teamName as [| | | |name']; try discriminate H0. injection H0 as ->.
  assert (Z.of_nat (List.length
            (take (Z.to_nat (Z.min (Z.of_nat (List.length players))
                               IngestCSV.MAX_PLAYERS_PER_SQUAD)) players))
          = playersKept players) as Hkept.
  { rewrite length_take. unfold playersKept, IngestCSV.MAX_PLAYERS_PER_SQUAD. lia. }
  apply bind_inv in Hrun as [(a1 & s1 & H1 & Hrun)|(e & H1 & ->)]; cycle 1.
  { apply csv_callDb_inv in H1 as (db1 & H1 & ->). simpl. split.
    - intros id. apply cappedSquad_ext. by eapply upsertTeam_squads.
    - left. by eapply upsertInto_failure. }
  apply csv_callDb_inv in H1 as (db1 & H1 & ->).
  apply upsertTeam_squads in H1.
  apply bind_inv in Hrun as [([ids sum2] & s2 & H2 & Hrun)|(e & H2 & ->)]; cycle 1.
  { apply upsertPlayers_inv in H2 as [Hsq He]. simpl in *. split; [|by left].
    intros id. apply cappedSquad_ext. congruence. }
  apply upsertPlayers_inv in H2 as (Hsq & -> & -> & Hw). simpl in *.
  assert (Z.of_nat (List.length
            (default [] (sd_playerIds
               (IngestCSV.squadDataOf toLowerCase name
                  (playerIdOf name <$>
                     take (Z.to_nat (Z.min (Z.of_nat (List.length players))
                                       IngestCSV.MAX_PLAYERS_PER_SQUAD)) players)))))
          <= IngestCSV.MAX_PLAYERS_PER_SQUAD) as Hcap.
  { simpl. rewrite length_fmap, Hkept. unfold playersKept. lia. }
  apply bind_inv in Hrun as [(a3 & s3 & H3 & Hrun)|(e & H3 & ->)]; cycle 1.
  { apply csv_callDb_inv in H3 as (db3 & H3 & ->). simpl. split.
    - intros id Hid. apply (proj1 (upsertSquad_capped _ _ _ _ _ id H3 Hcap)).
      eapply cappedSquad_ext; [|exact Hid]. congruence.
    - left. by eapply upsertInto_failure. }
  apply csv_callDb_inv in H3 as (db3 & H3 & ->).
  injection Hrun as <- <-. simpl. split.
  - intros id Hid. apply (proj1 (upsertSquad_capped _ _ _ _ _ id H3 Hcap)).
    eapply cappedSquad_ext; [|exact Hid]. congruence.
  - exists name. split; [done|]. split; [by rewrite Hkept|].
    split; [rewrite Hw; lia|].
    exact (proj2 (upsertSquad_capped _ _ _ _ _ _ H3 Hcap) _ eq_refl
             (squadId_of_csv name _)).
Qed.

Lemma processTeams_inv teamMap :
  forall sum s (r : result IngestCSV.summary) s',
    importTeams teamMap sum s = (r, s') ->
    (forall id, cappedSquad (IngestCSV.store s) id -> cappedSquad (IngestCSV.store s') id)
    /\ match r with
       | Ok sum' =>
           sum' = IngestCSV.Summary
                    (IngestCSV.teamsUpserted sum + Z.of_nat (List.length teamMap))
                    (IngestCSV.playersUpserted sum
                     + sumZ ((fun g => playersKept g.2) <$> teamMap))
                    (IngestCSV.squadsUpserted sum + Z.of_nat (List.length teamMap))
           /\ Z.of_nat (IngestCSV.writes s')
              = Z.of_nat (IngestCSV.writes s) + 2 * Z.of_nat (List.length teamMap)
                + sumZ ((fun g => playersKept g.2) <$> teamMap)
           /\ Forall (fun g => exists name,
                        g.1 = JStr name
                        /\ cappedSquad (IngestCSV.store s') (squadIdOf name)) teamMap
       | Throw e =>
           e = duplicateKeyError
           \/ (e = typeError "Cannot read properties of null (reading 'toLowerCase')"
               /\ JNull ∈ teamMap.*1)
           \/ exists g e', g ∈ teamMap /\ g.1 <> JNull
                           /\ toLowerCaseOf "name" g.1 = Throw e'
       end.
Proof.
  induction teamMap as [|[teamName players] teamMap IH]; intros sum s r s' Hrun.
  - injection Hrun as <- <-. split; [done|]. destruct sum. simpl.
    split; [f_equal; lia|]. split; [lia|constructor].
  - simpl in Hrun.
    apply bind_inv in Hrun as [(sum1 & s1 & H1 & Hrun)|(e & H1 & ->)].
    + apply processTeam_inv in H1 as [Hkeep (name & -> & -> & Hw & Hsq)].
      apply IH in Hrun as [Hkeep' Hr]. split; [by auto|].
      destruct r as [sum'|e].
      * destruct Hr as (-> & Hw' & Hall). csimpl.
        split; [f_equal; lia|]. split; [lia|].
        constructor; [|done]. exists name. by auto.
      * destruct Hr as [?|[[? ?]|(g & e' & Hg & ?)]]; [by left| |].
        { right. left. split; [done|]. csimpl. by right. }
        right. right. exists g, e'. split; [by right|done].
    + apply processTeam_inv in H1 as [Hkeep He]. split; [done|].
      destruct He as [?|[(-> & ? & _)|(e' & ? & ?)]]; [by left| |].
      { right. left. split; [done|]. csimpl. by left. }
      right. right. exists (teamName, players), e'. split; [by left|done].
Qed.

Lemma processTeams_app before after :
  forall sum s,
    importTeams (before ++ after) sum s
    = bind (importTeams before sum) (fun sum1 => importTeams after sum1) s.
Proof.
  induction before as [|[teamName players] before IH]; intros sum s; [done|].
  simpl. unfold bind.
  destruct (importTeam teamName players sum s) as [[sum1|e] s1]; [|done].
  rewrite IH. reflexivity.
Qed.

Lemma playersKept_bounds (teamMap : list (prim * list IngestCSV.row)) :
  0 <= sumZ ((fun g => playersKept g.2) <$> teamMap)
    <= IngestCSV.MAX_PLAYERS_PER_SQUAD * Z.of_nat (List.length teamMap).
Proof.
  induction teamMap as [|g teamMap IH]; csimpl; [done|].
  unfold playersKept, IngestCSV.MAX_PLAYERS_PER_SQUAD in *. lia.
Qed.

Lemma groupByTeam_cells (rows : list IngestCSV.row) :
  Forall (fun r => isCell (IngestCSV.member r "team")) rows ->
  Forall (fun g => isCell g.1) (IngestCSV.groupByTeam rows).
Proof.
  intros Hrows. apply Forall_forall. intros [team players] Hg. simpl.
  destruct (groupByTeam_keys rows) as (_ & Hkeys & _).
  assert (rowsOf team rows <> []) as Hne.
  { apply Hkeys, list_elem_of_fmap. by exists (team, players). }
  destruct (rowsOf team rows) as [|r l] eqn:Hl; [done|].
  assert (r ∈ rowsOf team rows) as Hr by (rewrite Hl; by left).
  apply list_elem_of_filter in Hr as [<- Hr].
  by apply (proj1 (Forall_forall _ _) Hrows).
Qed.

Lemma isCell_toLowerCaseOf (p : prim) e :
  isCell p -> toLowerCaseOf "name" p = Throw e -> p = JNull.
Proof. by intros [->|(s & -> & _)]. Qed.

End ImportFacts.

(** [X23] An import that completes has written one team document and one
    squad document for each team of the file, and one player document for
    each of the first 26 rows of each team, in that many writes; the
    squad document of each team lists at most 26 players. *)
Theorem csv_import_summary (toLowerCase normalizeNFD : string -> string)
    (Date_now : nat -> Z) (csvContent : string) (s s' : IngestCSV.importState)
    (sum : IngestCSV.summary) :
  IngestCSV.main toLowerCase normalizeNFD Date_now csvContent s = (Ok sum, s') ->
  exists rows,
    IngestCSV.parseCSV toLowerCase csvContent = Ok rows
    /\ IngestCSV.teamsUpserted sum = Z.of_nat (List.length (IngestCSV.groupByTeam rows))
    /\ IngestCSV.squadsUpserted sum = Z.of_nat (List.length (IngestCSV.groupByTeam rows))
    /\ IngestCSV.playersUpserted sum
       = sumZ ((fun g => playersKept g.2) <$> IngestCSV.groupByTeam rows)
    /\ IngestCSV.playersUpserted sum
       <= IngestCSV.MAX_PLAYERS_PER_SQUAD * IngestCSV.teamsUpserted sum
    /\ Z.of_nat (IngestCSV.writes s')
       = Z.of_nat (IngestCSV.writes s) + IngestCSV.teamsUpserted sum
         + IngestCSV.playersUpserted sum + IngestCSV.squadsUpserted sum
    /\ Forall (fun g => exists name,
                 g.1 = JStr name
                 /\ cappedSquad (IngestCSV.store s')
                      (IngestCSV.squadIdOf toLowerCase name))
         (IngestCSV.groupByTeam rows).
Proof.
  unfold IngestCSV.main. intros Hrun.
  apply bind_inv in Hrun as [(rows & s0 & H0 & Hrun)|(e & _ & [=])].
  injection H0 as H0 <-. exists rows. split; [done|].
  apply processTeams_inv in Hrun as (_ & -> & Hw & Hall). simpl in *.
  pose proof (playersKept_bounds (IngestCSV.groupByTeam rows)) as Hb.
  repeat (split; [done || lia|]). done.
Qed.

Lemma csv_import_summary_witness :
  exists s',
    IngestCSV.main asciiLower (fun s => s) everySecond squadsCsv
      (IngestCSV.ImportState 0 emptyDb)
    = (Ok (IngestCSV.Summary 2 3 2), s')
    /\ IngestCSV.writes s' = 7%nat.
Proof.
  destruct (IngestCSV.main asciiLower (fun s => s) everySecond squadsCsv
              (IngestCSV.ImportState 0 emptyDb)) as [r s'] eqn:Hrun.
  assert (r = Ok (IngestCSV.Summary 2 3 2)) as ->.
  { apply (f_equal fst) in Hrun. vm_compute in Hrun. by subst r. }
  exists s'. split; [done|].
  destruct (csv_import_summary _ _ _ _ _ _ _ Hrun)
    as (rows & _ & _ & _ & _ & _ & Hw & _).
  simpl in Hw. lia.
Defined.

(** [X24] A data row with an empty team cell makes the import fail: the
    teams that come before this one in the file are processed, then
    [generateId] throws the TypeError of [toLowerCase] on null (unless a
    write was refused before). *)
Theorem empty_team_cell_aborts (toLowerCase normalizeNFD : string -> string)
    (Date_now : nat -> Z) (csvContent : string) (rows : list IngestCSV.row)
    (r : IngestCSV.row) (s : IngestCSV.importState) :
  IngestCSV.parseCSV toLowerCase csvContent = Ok rows ->
  r ∈ rows ->
  IngestCSV.member r "team" = JNull ->
  exists e s',
    IngestCSV.main toLowerCase normalizeNFD Date_now csvContent s = (Throw e, s')
    /\ (e = typeError "Cannot read properties of null (reading 'toLowerCase')"
        \/ e = duplicateKeyError).
Proof.
  intros Hparse Hr Hteam. unfold IngestCSV.main.
  erewrite bind_Ok; [|by rewrite Hparse].
  assert (Forall (fun g => isCell g.1) (IngestCSV.groupByTeam rows)) as Hcells.
  { apply groupByTeam_cells.
    eapply Forall_impl; [by eapply parseCSV_cells|]. by intros ? [? _]. }
  destruct (groupByTeam_keys rows) as (_ & Hkeys & _).
  assert (JNull ∈ (IngestCSV.groupByTeam rows).*1) as Hkey.
  { apply Hkeys. intros Hnone.
    assert (r ∈ rowsOf JNull rows) as Hin by by apply list_elem_of_filter.
    rewrite Hnone in Hin. by apply elem_of_nil in Hin. }
  apply playersOf_key, list_elem_of_split in Hkey as (before & after & Hsplit).
  rewrite Hsplit in Hcells |- *. apply Forall_app in Hcells as [Hcells _].
  rewrite processTeams_app.
  destruct (IngestCSV.processTeams toLowerCase normalizeNFD Date_now before
              (IngestCSV.Summary 0 0 0) s) as [[sum1|e] s1] eqn:Hbefore.
  - erewrite bind_Ok by done. eexists _, s1. split; [reflexivity|by left].
  - erewrite bind_Throw by done. exists e, s1. split; [done|].
    apply processTeams_inv in Hbefore as [_ [?|[[? _]|(g & e' & Hg & Hne & He)]]];
      [by right|by left|].
    exfalso. apply Hne. eapply isCell_toLowerCaseOf; [|done].
    by apply (proj1 (Forall_forall _ _) Hcells).
Qed.

Lemma empty_team_cell_aborts_witness :
  exists e s',
    IngestCSV.main asciiLower (fun s => s) everySecond
      ("team,name" +:+ String lineFeed ("Spain,Pedri" +:+ String lineFeed ",Vini"))
      (IngestCSV.ImportState 0 emptyDb)
    = (Throw e, s')
    /\ (e = typeError "Cannot read properties of null (reading 'toLowerCase')"
        \/ e = duplicateKeyError).
Proof.
  apply (empty_team_cell_aborts asciiLower (fun s => s) everySecond _
           [[("team", JStr "Spain"); ("name", JStr "Pedri")];
            [("team", JNull); ("name", JStr "Vini")]]
           [("team", JNull); ("name", JStr "Vini")]).
  - vm_compute. reflexivity.
  - right. left.
  - reflexivity.
Defined.

(** [X25] The import fails in four ways only: with one of the two errors
    of [parseCSV], before anything is written; with the TypeError of
    [toLowerCase] on null, and then a row has an empty team cell; or
    with the duplicate key error of a refused write. *)
Theorem csv_import_failures (toLowerCase normalizeNFD : string -> string)
    (Date_now : nat -> Z) (csvContent : string) (s s' : IngestCSV.importState)
    (e : jsError) :
  IngestCSV.main toLowerCase normalizeNFD Date_now csvContent s = (Throw e, s') ->
  (s' = s
   /\ IngestCSV.parseCSV toLowerCase csvContent = Throw e
   /\ (e = newError "CSV must have a header row and at least one data row"
       \/ e = newError ("CSV must have " +:+ quoted "team" +:+ " and either "
                        +:+ quoted "name" +:+ " or " +:+ quoted "player_fullname"
                        +:+ " columns")))
  \/ (exists rows,
        IngestCSV.parseCSV toLowerCase csvContent = Ok rows
        /\ (e = duplicateKeyError
            \/ (e = typeError "Cannot read properties of null (reading 'toLowerCase')"
                /\ exists r, r ∈ rows /\ IngestCSV.member r "team" = JNull))).
Proof.
  unfold IngestCSV.main. intros Hrun.
  apply bind_inv in Hrun as [(rows & s0 & H0 & Hrun)|(e0 & H0 & [= <-])].
  - injection H0 as H0 <-. right. exists rows. split; [done|].
    assert (Forall (fun g => isCell g.1) (IngestCSV.groupByTeam rows)) as Hcells.
    { apply groupByTeam_cells.
      eapply Forall_impl; [by eapply parseCSV_cells|]. by intros ? [? _]. }
    apply processTeams_inv in Hrun as [_ [?|[[-> Hkey]|(g & e' & Hg & Hne & He)]]];
      [by left| |].
    + right. split; [done|].
      destruct (groupByTeam_keys rows) as (_ & Hkeys & _). apply Hkeys in Hkey.
      destruct (rowsOf JNull rows) as [|r l] eqn:Hl; [done|].
      assert (r ∈ rowsOf JNull rows) as Hr by (rewrite Hl; by left).
      apply list_elem_of_filter in Hr as [? ?]. by exists r.
    + exfalso. apply Hne. eapply isCell_toLowerCaseOf; [|done].
      by apply (proj1 (Forall_forall _ _) Hcells).
  - injection H0 as H0 <-. left. split; [done|]. split; [done|].
    revert H0. unfold IngestCSV.parseCSV.
    destruct (_ <? 2)%nat; [intros [= <-]; by left|].
    destruct (negb _ || negb _); [intros [= <-]; by right|done].
Qed.

Lemma csv_import_failures_witness :
  IngestCSV.parseCSV asciiLower
    ("name,club" +:+ String lineFeed "Pedri,Barcelona")
  = Throw (newError ("CSV must have " +:+ quoted "team" +:+ " and either "
                     +:+ quoted "name" +:+ " or " +:+ quoted "player_fullname"
                     +:+ " columns")).
Proof.
  destruct (csv_import_failures asciiLower (fun s => s) everySecond
              ("name,club" +:+ String lineFeed "Pedri,Barcelona")
              (IngestCSV.ImportState 0 emptyDb) (IngestCSV.ImportState 0 emptyDb)
              (newError ("CSV must have " +:+ quoted "team" +:+ " and either "
                         +:+ quoted "name" +:+ " or " +:+ quoted "player_fullname"
                         +:+ " columns")))
    as [(_ & H & _)|(rows & H & _)].
  - vm_compute. reflexivity.
  - exact H.
  - exfalso. vm_compute in H. discriminate H.
Defined.

(** ** The import completes *)

Lemma upsertInto_filed proj inj ix _id (d : doc) db :
  (forall f, f ∈ ix -> is_Some (d !! f)) ->
  (forall k d', proj db !! k = Some d' -> indexKey ix d' = indexKey ix d -> k = _id) ->
  upsertInto proj inj ix _id d db
  = (Ok d, inj (<[_id := d ∪ default ∅ (proj db !! _id)]> (proj db)) db).
Proof.
  intros Hd Hfiled. unfold upsertInto, updateOne.
  rewrite decide_True; [done|].
  intros k d' Hk.
  destruct (decide (indexKey ix d' = indexKey ix (d ∪ default ∅ (proj db !! _id))))
    as [Heq|Hne]; [left|by right].
  rewrite indexKey_union_l in Heq by done. by eapply Hfiled.
Qed.

Section ImportCompletes.
Variable toLowerCase : string -> string.
Variable normalizeNFD : string -> string.
Variable Date_now : nat -> Z.
Hypothesis slugs : slugsOfKeys toLowerCase normalizeNFD.

Local Abbreviation filed := (csvFiled toLowerCase normalizeNFD).

Lemma csv_upsertTeam_filed now name db :
  filed db ->
  exists d db',
    upsertTeam now
      (IngestCSV.teamDataOf (JStr name)
         (IngestCSV.generateId toLowerCase normalizeNFD "team" name)) db
    = (Ok d, db')
    /\ filed db'.
Proof.
  intros (Ht & Hp & Hs). unfold upsertTeam.
  set (td := IngestCSV.teamDataOf _ _).
  assert (teamId_of td
          = JStr (IngestCSV.generateId toLowerCase normalizeNFD "team" name)) as Hid
    by reflexivity.
  assert (indexKey provider_providerId_unique (teamDoc now td)
          = [DPrim (JStr "csv"); DPrim (JStr name)]) as Hkey by reflexivity.
  rewrite upsertInto_filed.
  - eexists _, _. split; [done|]. split; [|by split].
    intros k d name' Hk Hd. unfold setTeams in Hk. cbn [db_teams] in Hk.
    apply lookup_insert_Some in Hk as [[<- <-]|[_ Hk]]; [|by eapply Ht].
    rewrite indexKey_union_l, Hkey in Hd by (intros f Hf; index_members Hf).
    injection Hd as <-. by rewrite Hid.
  - intros f Hf. index_members Hf.
  - intros k d' Hk Hd. rewrite Hkey in Hd. rewrite Hid. by eapply Ht.
Qed.

Lemma csv_upsertPlayer_filed now teamName player db :
  filed db ->
  exists d db',
    upsertPlayer now
      (IngestCSV.playerDataOf toLowerCase normalizeNFD teamName player) db
    = (Ok d, db')
    /\ filed db'.
Proof.
  intros (Ht & Hp & Hs). unfold upsertPlayer.
  set (pd := IngestCSV.playerDataOf _ _ _ _).
  set (playerName := toString (orElse (IngestCSV.member player "name")
                                 (IngestCSV.member player "player_fullname"))).
  assert (playerId_of pd
          = JStr (IngestCSV.generateId toLowerCase normalizeNFD "player"
                    (teamName +:+ "-" +:+ playerName))) as Hid by reflexivity.
  assert (indexKey provider_providerId_unique (playerDoc now pd)
          = [DPrim (JStr "csv"); DPrim (JStr (teamName +:+ ":" +:+ playerName))])
    as Hkey by reflexivity.
  rewrite upsertInto_filed.
  - eexists _, _. split; [done|]. split; [done|]. split; [|done].
    intros k d t n Hk Hd. unfold setPlayers in Hk. cbn [db_players] in Hk.
    apply lookup_insert_Some in Hk as [[<- <-]|[_ Hk]]; [|by eapply Hp].
    rewrite indexKey_union_l, Hkey in Hd by (intros f Hf; index_members Hf).
    injection Hd as Hd. rewrite Hid. unfold IngestCSV.generateId.
    by rewrite (slugs _ _ _ _ Hd).
  - intros f Hf. index_members Hf.
  - intros k d' Hk Hd. rewrite Hkey in Hd. rewrite Hid. by eapply Hp.
Qed.

Lemma csv_upsertSquad_filed now name playerIds db :
  filed db ->
  exists d db',
    upsertSquad now (IngestCSV.squadDataOf toLowerCase name playerIds) db = (Ok d, db')
    /\ filed db'.
Proof.
  intros (Ht & Hp & Hs). unfold upsertSquad.
  set (sd := IngestCSV.squadDataOf _ _ _).
  assert (squadId_of sd = JStr (IngestCSV.squadIdOf toLowerCase name)) as Hid
    by reflexivity.
  assert (indexKey provider_teamId_unique (squadDoc now sd)
          = [DPrim (JStr "csv"); DPrim (JStr name)]) as Hkey by reflexivity.
  rewrite upsertInto_filed.
  - eexists _, _. split; [done|]. split; [done|]. split; [done|].
    intros k d name' Hk Hd. unfold setSquads in Hk. cbn [db_squads] in Hk.
    apply lookup_insert_Some in Hk as [[<- <-]|[_ Hk]]; [|by eapply Hs].
    rewrite indexKey_union_l, Hkey in Hd by (intros f Hf; index_members Hf).
    injection Hd as <-. by rewrite Hid.
  - intros f Hf. index_members Hf.
  - intros k d' Hk Hd. rewrite Hkey in Hd. rewrite Hid. by eapply Hs.
Qed.

Lemma csv_callDb_Ok {A : Type} (c : Z -> M database A) s (a : A) db' :
  c (Date_now (IngestCSV.writes s)) (IngestCSV.store s) = (Ok a, db') ->
  IngestCSV.callDb Date_now c s
  = (Ok a, IngestCSV.ImportState (S (IngestCSV.writes s)) db').
Proof. unfold IngestCSV.callDb. by intros ->. Qed.

Lemma upsertPlayers_completes teamName players :
  forall playerIds sum s,
    filed (IngestCSV.store s) ->
    exists done s',
      IngestCSV.upsertPlayers toLowerCase normalizeNFD Date_now teamName players
        playerIds sum s = (Ok done, s')
      /\ filed (IngestCSV.store s').
Proof.
  induction players as [|player players IH]; intros playerIds sum s Hfiled.
  - by eexists _, _.
  - simpl.
    destruct (csv_upsertPlayer_filed (Date_now (IngestCSV.writes s)) teamName player
                (IngestCSV.store s) Hfiled) as (d & db' & Hrun & Hfiled').
    erewrite bind_Ok; [|by apply csv_callDb_Ok]. by apply IH.
Qed.

Lemma processTeam_completes name players sum s :
  filed (IngestCSV.store s) ->
  exists sum' s',
    IngestCSV.processTeam toLowerCase normalizeNFD Date_now (JStr name) players sum s
    = (Ok sum', s')
    /\ filed (IngestCSV.store s').
Proof.
  intros Hfiled. unfold IngestCSV.processTeam.
  erewrite bind_Ok; [|reflexivity].
  destruct (csv_upsertTeam_filed (Date_now (IngestCSV.writes s)) name
              (IngestCSV.store s) Hfiled) as (d1 & db1 & H1 & Hfiled1).
  erewrite bind_Ok; [|by apply csv_callDb_Ok].
  edestruct (upsertPlayers_completes name) as ([ids sum2] & s2 & H2 & Hfiled2);
    [|erewrite bind_Ok; [|exact H2]]; [exact Hfiled1|].
  destruct (csv_upsertSquad_filed (Date_now (IngestCSV.writes s2)) name ids
              (IngestCSV.store s2) Hfiled2) as (d3 & db3 & H3 & Hfiled3).
  erewrite bind_Ok; [|by apply csv_callDb_Ok]. by eexists _, _.
Qed.

Lemma processTeams_completes teamMap :
  Forall (fun g => exists name, g.1 = JStr name) teamMap ->
  forall sum s,
    filed (IngestCSV.store s) ->
    exists sum' s',
      IngestCSV.processTeams toLowerCase normalizeNFD Date_now teamMap sum s
      = (Ok sum', s')
      /\ filed (IngestCSV.store s').
Proof.
  induction 1 as [|[teamName players] teamMap [name Hname] _ IH]; intros sum s Hfiled.
  - by eexists _, _.
  - simpl in *. subst teamName.
    destruct (processTeam_completes name players sum s Hfiled)
      as (sum1 & s1 & H1 & Hfiled1).
    erewrite bind_Ok; [|exact H1]. by apply IH.
Qed.
End ImportCompletes.

Lemma asciiLower_app (s t : string) :
  asciiLower (s +:+ t) = asciiLower s +:+ asciiLower t.
Proof.
  induction s as [|c s IH]; [done|].
  rewrite string_app_cons. simpl. by rewrite IH, string_app_cons.
Qed.

Lemma removeMarks_cons2 (c1 c2 : ascii) (rest : string) :
  removeMarks (String c1 (String c2 rest))
  = if isMark c1 c2 then removeMarks rest else String c1 (removeMarks (String c2 rest)).
Proof. reflexivity. Qed.

Lemma removeMarks_sep (sep : ascii) (x y : string) :
  (forall a, isMark a sep = false) -> (forall b, isMark sep b = false) ->
  removeMarks (x +:+ String sep y) = removeMarks x +:+ String sep (removeMarks y).
Proof.
  intros Hl Hr.
  assert (removeMarks (String sep y) = String sep (removeMarks y)) as Hbase.
  { destruct y as [|b y]; [done|]. by rewrite removeMarks_cons2, Hr. }
  enough ((removeMarks (x +:+ String sep y)
           = removeMarks x +:+ String sep (removeMarks y))
          /\ forall c, removeMarks (String c x +:+ String sep y)
                       = removeMarks (String c x) +:+ String sep (removeMarks y))
    as [H _] by exact H.
  induction x as [|c x [IH1 IH2]].
  - split; [by rewrite !string_app_nil_l|].
    intros c. rewrite string_app_cons, string_app_nil_l, removeMarks_cons2, Hl, Hbase.
    reflexivity.
  - split; [apply IH2|].
    intros c'. rewrite !string_app_cons, !removeMarks_cons2.
    destruct (isMark c' c); [exact IH1|].
    rewrite <- string_app_cons, IH2. by rewrite string_app_cons.
Qed.

Lemma dashRuns_sep (sep : ascii) (a b : string) (inRun : bool) :
  isAlnum sep = false ->
  dashRuns (a +:+ String sep b) inRun = dashRuns (a +:+ String "-" b) inRun.
Proof.
  intros Hsep. revert inRun. induction a as [|c a IH]; intros inRun.
  - rewrite !string_app_nil_l. simpl. by rewrite Hsep.
  - rewrite !string_app_cons. simpl. by rewrite !IH.
Qed.

Lemma asciiLower_slugsOfKeys : slugsOfKeys asciiLower (fun s => s).
Proof.
  assert (forall t n,
            IngestCSV.slugOf asciiLower (fun s => s) (t +:+ "-" +:+ n)
            = IngestCSV.slugOf asciiLower (fun s => s) (t +:+ ":" +:+ n)) as Hsame.
  { intros t n. unfold IngestCSV.slugOf.
    rewrite !string_app_cons, !string_app_nil_l, !asciiLower_app. simpl asciiLower.
    change (lowerChar "-") with "-"%char. change (lowerChar ":") with ":"%char.
    rewrite !removeMarks_sep; try (by intros a; destruct a as [[] [] [] [] [] [] [] []]).
    by rewrite (dashRuns_sep ":"). }
  intros t n t' n' Hkey. by rewrite !Hsame, Hkey.
Qed.

(** [X30] The import of a file completes when no row has an empty team
    cell, in a database where the documents of the provider [csv] are
    filed as the import files them (the empty database is one): no write
    is refused, and the database is left such that the file, or another
    one, can be imported again.  (The slug of the key of a player does
    not depend on how the key splits into the names of the team and of
    the player.) *)
Theorem csv_import_completes (toLowerCase normalizeNFD : string -> string)
    (Date_now : nat -> Z) (csvContent : string) (rows : list IngestCSV.row)
    (s : IngestCSV.importState) :
  slugsOfKeys toLowerCase normalizeNFD ->
  IngestCSV.parseCSV toLowerCase csvContent = Ok rows ->
  Forall (fun r => IngestCSV.member r "team" <> JNull) rows ->
  csvFiled toLowerCase normalizeNFD (IngestCSV.store s) ->
  exists sum s',
    IngestCSV.main toLowerCase normalizeNFD Date_now csvContent s = (Ok sum, s')
    /\ csvFiled toLowerCase normalizeNFD (IngestCSV.store s').
Proof.
  intros Hslugs Hparse Hteams Hfiled. unfold IngestCSV.main.
  erewrite bind_Ok; [|by rewrite Hparse].
  apply processTeams_completes; [done| |done].
  assert (Forall (fun r => isCell (IngestCSV.member r "team")) rows) as Hcells.
  { eapply Forall_impl; [by eapply parseCSV_cells|]. by intros ? [? _]. }
  pose proof (groupByTeam_cells rows Hcells) as Hkeys.
  destruct (groupByTeam_keys rows) as (_ & Hgroups & _).
  rewrite Forall_forall in Hkeys. rewrite Forall_forall in Hteams.
  apply Forall_forall.
  intros [team players] Hg.
  destruct (Hkeys _ Hg) as [Hnull|(name & Hname & _)]; [|by exists name].
  simpl in Hnull. subst team. exfalso.
  assert (rowsOf JNull rows <> []) as Hne.
  { apply Hgroups, list_elem_of_fmap. by exists (JNull, players). }
  destruct (rowsOf JNull rows) as [|r l] eqn:Hl; [done|].
  assert (r ∈ rowsOf JNull rows) as Hr by (rewrite Hl; by left).
  apply list_elem_of_filter in Hr as [Hteam Hr]. by apply (Hteams r Hr).
Qed.

Lemma csv_import_completes_witness :
  exists sum s',
    IngestCSV.main asciiLower (fun s => s) everySecond squadsCsv
      (IngestCSV.ImportState 0 emptyDb) = (Ok sum, s')
    /\ csvFiled asciiLower (fun s => s) (IngestCSV.store s').
Proof.
  eapply (csv_import_completes asciiLower (fun s => s) everySecond squadsCsv).
  - exact asciiLower_slugsOfKeys.
  - vm_compute. reflexivity.
  - repeat constructor; discriminate.
  - repeat split; intros k d; intros;
      match goal with
      | H : _ !! _ = Some _ |- _ => cbn in H; by rewrite lookup_empty in H
      end.
Defined.

(** ** The order of the positions *)

Section SortByKey.
Context {A : Type} (cmp : A -> A -> option Z) (key : A -> Z) (P : A -> Prop).
Hypothesis cmp_key : forall a b, P a -> P b -> notAfter cmp a b = (key a <=? key b).

Lemma sortInsert_class (k : Z) (x : A) (l : list A) :
  P x -> Forall P l ->
  filter (fun y => key y = k) (sortInsert cmp x l)
  = filter (fun y => key y = k) (x :: l).
Proof.
  intros Hx. induction l as [|y l IH]; intros Hl; simpl; [done|].
  apply Forall_cons in Hl as [Hy Hl].
  rewrite (cmp_key x y Hx Hy). destruct (key x <=? key y) eqn:E; [done|].
  apply Z.leb_gt in E.
  rewrite (filter_cons _ y), IH, !filter_cons by done.
  repeat case_decide; try done; lia.
Qed.

Lemma jsSort_class (k : Z) (l : list A) :
  Forall P l ->
  filter (fun y => key y = k) (jsSort cmp l) = filter (fun y => key y = k) l.
Proof.
  induction l as [|x l IH]; intros Hl; [done|].
  apply Forall_cons in Hl as [Hx Hl]. simpl. fold (jsSort cmp l).
  rewrite sortInsert_class; [|done|].
  - by rewrite !filter_cons, IH.
  - by rewrite jsSort_perm.
Qed.

Lemma jsSort_by_key (l : list A) :
  Forall P l -> StronglySorted (fun a b => key a <= key b) (jsSort cmp l).
Proof.
  intros Hl.
  assert (Forall P (jsSort cmp l)) as Hl' by by rewrite jsSort_perm.
  pose proof (jsSort_sorted cmp P) as Hs.
  assert (StronglySorted (fun a b => notAfter cmp a b = true) (jsSort cmp l)) as Hsorted.
  { apply Hs; [| |done].
    - intros a b Ha Hb. rewrite !cmp_key by done.
      destruct (Z.leb_spec (key a) (key b)); [by left|right].
      apply Z.leb_le. lia.
    - intros a b c Ha Hb Hc. rewrite !cmp_key by done.
      rewrite !Z.leb_le. lia. }
  clear Hs. induction Hsorted as [|a s Hs IH Ha]; [constructor|].
  apply Forall_cons in Hl' as [HPa Hl'].
  constructor; [by apply IH|].
  rewrite Forall_forall in Ha, Hl' |- *. intros b Hb.
  apply Z.leb_le. rewrite <- cmp_key by auto. by apply Ha.
Qed.
End SortByKey.

(** [X29] Players whose positions name no member that an object inherits
    are sorted by position: the result has the same players, goalkeepers
    first, then defenders, midfielders and forwards, then the others, and
    the players of one position stay in the order they came in. *)
Theorem sortPlayersByPosition_in_order {A : Type} (position : A -> prim)
    (players : list A) :
  Forall (fun p => positionOrder (position p) <> None) players ->
  sortPlayersByPosition position players ≡ₚ players
  /\ StronglySorted (fun a b => positionRank position a <= positionRank position b)
       (sortPlayersByPosition position players)
  /\ forall rank,
       filter (fun p => positionRank position p = rank)
         (sortPlayersByPosition position players)
       = filter (fun p => positionRank position p = rank) players.
Proof.
  intros Hplayers. unfold sortPlayersByPosition.
  assert (forall a b,
            positionOrder (position a) <> None -> positionOrder (position b) <> None ->
            notAfter (comparePositions position) a b
            = (positionRank position a <=? positionRank position b)) as Hcmp.
  { intros a b Ha Hb. unfold notAfter, comparePositions, positionRank.
    destruct (positionOrder (position a)) as [x|]; [|done].
    destruct (positionOrder (position b)) as [y|]; [|done]. simpl.
    destruct (Z.leb_spec x y), (Z.leb_spec (x - y) 0); lia. }
  split; [apply jsSort_perm|]. split.
  - by apply (jsSort_by_key _ _ _ Hcmp).
  - intros rank. by apply (jsSort_class _ _ _ Hcmp).
Qed.

Lemma sortPlayersByPosition_in_order_witness :
  sortPlayersByPosition snd fourPlayers
  = [("Unai Simon", JStr "GK"); ("Pedri", JStr "MID"); ("Rodri", JStr "MID");
     ("Coach", JNull)]
  /\ sortPlayersByPosition snd fourPlayers ≡ₚ fourPlayers.
Proof.
  split; [vm_compute; reflexivity|].
  apply (sortPlayersByPosition_in_order snd fourPlayers).
  repeat constructor; vm_compute; discriminate.
Defined.

(** ** Loading the configuration *)

Section LoadConfigFacts.
Variable number : Type.
Variable parseInt : string -> number.
Variable isNaN : number -> bool.

Lemma parseTeamId_fold (segments : list string) :
  forall errors parsed,
    foldl (parseTeamId number parseInt isNaN) (errors, parsed) segments
    = (errors ++ ((fun id => "Invalid team ID: " +:+ quoted id +:+ " is not a number")
                    <$> filter (fun id => isNaN (parseInt id) = true) segments),
       parsed ++ ((fun id => if isNaN (parseInt id) then None else Some (parseInt id))
                    <$> segments)).
Proof.
  induction segments as [|id segments IH]; intros errors parsed; csimpl.
  - by rewrite !app_nil_r.
  - unfold parseTeamId at 2.
    destruct (isNaN (parseInt id)) eqn:E; cbn [fst snd]; rewrite IH.
    + rewrite filter_cons_True by done. csimpl. by rewrite <- !app_assoc.
    + rewrite filter_cons_False by congruence. by rewrite <- !app_assoc.
Qed.

Lemma omap_parsed (segments : list string) :
  Forall (fun id => isNaN (parseInt id) = false) segments ->
  omap id ((fun id => if isNaN (parseInt id) then None else Some (parseInt id))
             <$> segments)
  = parseInt <$> segments.
Proof.
  induction 1 as [|x l Hx _ IH]; [done|]. csimpl. rewrite Hx. csimpl. by rewrite IH.
Qed.

Lemma no_invalid_ids (segments : list string) :
  filter (fun id => isNaN (parseInt id) = true) segments = []
  <-> Forall (fun id => isNaN (parseInt id) = false) segments.
Proof.
  induction segments as [|x l IH]; [done|].
  rewrite filter_cons, Forall_cons.
  destruct (isNaN (parseInt x)) eqn:E.
  - rewrite decide_True by done. split; [done|by intros [? _]].
  - rewrite decide_False by done. rewrite IH. by intuition.
Qed.

Lemma loadConfig_cases (env : string -> option string) :
  let valid :=
    blank (trim <$> env "SPORTMONKS_API_KEY") = false
    /\ blank (trim <$> env "MONGODB_URI") = false
    /\ Forall (fun id => isNaN (parseInt id) = false)
         (teamIdSegments (trim <$> env "TEAM_IDS")) in
  (valid
   /\ loadConfig number parseInt isNaN env
      = Returned
          [("SPORTMONKS_API_KEY", stringValue number (trim <$> env "SPORTMONKS_API_KEY"));
           ("MONGODB_URI", stringValue number (trim <$> env "MONGODB_URI"));
           ("DB_NAME", CStr "football");
           ("TEAM_IDS", CIds (parseInt <$> teamIdSegments (trim <$> env "TEAM_IDS")));
           ("REQUEST_DELAY_MS", CNum 350);
           ("REQUEST_TIMEOUT_MS", CNum 30000);
           ("MAX_RETRIES", CNum 4);
           ("MAX_PLAYERS_PER_SQUAD", CNum 24)])
  \/ (~ valid
      /\ exists stderr, loadConfig number parseInt isNaN env = Exited 1 stderr).
Proof.
  intros valid. subst valid. unfold loadConfig.
  rewrite parseTeamId_fold.
  set (segments := teamIdSegments (trim <$> env "TEAM_IDS")).
  set (invalid := (fun id => "Invalid team ID: " +:+ quoted id +:+ " is not a number")
                    <$> filter (fun id => isNaN (parseInt id) = true) segments).
  destruct (blank (trim <$> env "SPORTMONKS_API_KEY")) eqn:Ekey;
    destruct (blank (trim <$> env "MONGODB_URI")) eqn:Euri;
    try (right; split; [by intros (? & ? & _)|]; by eexists).
  destruct (filter (fun id => isNaN (parseInt id) = true) segments) as [|bad l] eqn:Ebad.
  - left. apply no_invalid_ids in Ebad. split; [done|].
    subst invalid. simpl. by rewrite omap_parsed.
  - right. split.
    + intros (_ & _ & Hall). apply no_invalid_ids in Hall. congruence.
    + subst invalid. by eexists.
Qed.
End LoadConfigFacts.

(** [X26] The database name of the configuration is [football] whatever
    the environment says: [DEFAULTS] is spread over the members that were
    computed, so that [DB_NAME] of the environment changes nothing in what
    [loadConfig] does. *)
Theorem loadConfig_ignores_DB_NAME (number : Type) (parseInt : string -> number)
    (isNaN : number -> bool) (env : string -> option string) (name : option string) :
  loadConfig number parseInt isNaN (setenv "DB_NAME" name env)
  = loadConfig number parseInt isNaN env
  /\ forall config,
       loadConfig number parseInt isNaN env = Returned config ->
       objGet config "DB_NAME" = Some (CStr "football").
Proof.
  split.
  - unfold loadConfig.
    change (setenv "DB_NAME" name env "SPORTMONKS_API_KEY") with (env "SPORTMONKS_API_KEY").
    change (setenv "DB_NAME" name env "MONGODB_URI") with (env "MONGODB_URI").
    change (setenv "DB_NAME" name env "TEAM_IDS") with (env "TEAM_IDS").
    destruct (foldl _ _ _) as [errors parsed].
    destruct (0 <? List.length errors)%nat; reflexivity.
  - intros config Hrun.
    destruct (loadConfig_cases number parseInt isNaN env) as [[_ H]|[_ [err H]]];
      rewrite H in Hrun; [|done].
    by injection Hrun as <-.
Qed.

Lemma loadConfig_ignores_DB_NAME_witness :
  exampleEnv "DB_NAME" = Some "worldcup"
  /\ exists config,
       loadConfig (option Z) digits notANumber exampleEnv = Returned config
       /\ objGet config "DB_NAME" = Some (CStr "football").
Proof.
  split; [reflexivity|].
  eexists. split; [vm_compute; reflexivity|].
  apply (proj2 (loadConfig_ignores_DB_NAME (option Z) digits notANumber exampleEnv None)).
  vm_compute. reflexivity.
Defined.

(** [X27] [loadConfig] returns exactly when the API key and the database
    address are set and not blank and every segment of [TEAM_IDS] that is
    not blank parses to a number; the team identifiers it returns are the
    numbers of these segments, one for each and in their order, and
    [requireTeamIds] accepts them unless there is none.  Otherwise the
    process exits with code 1. *)
Theorem loadConfig_validates (number : Type) (parseInt : string -> number)
    (isNaN : number -> bool) (env : string -> option string) :
  let segments := teamIdSegments (trim <$> env "TEAM_IDS") in
  let valid :=
    blank (trim <$> env "SPORTMONKS_API_KEY") = false
    /\ blank (trim <$> env "MONGODB_URI") = false
    /\ Forall (fun id => isNaN (parseInt id) = false) segments in
  (valid <-> exists config, loadConfig number parseInt isNaN env = Returned config)
  /\ (forall config,
        loadConfig number parseInt isNaN env = Returned config ->
        objGet config "TEAM_IDS" = Some (CIds (parseInt <$> segments))
        /\ (requireTeamIds number config = Returned tt <-> segments <> []))
  /\ forall code stderr,
       loadConfig number parseInt isNaN env = Exited code stderr -> code = 1.
Proof.
  intros segments valid. subst segments valid.
  destruct (loadConfig_cases number parseInt isNaN env) as [[Hv H]|[Hnot [err H]]];
    rewrite H.
  - split; [split; [by eexists|done]|]. split; [|done].
    intros config [= <-]. split; [done|].
    unfold requireTeamIds. simpl.
    destruct (teamIdSegments (trim <$> env "TEAM_IDS")); simpl; [|done].
    split; [done|]. by intros [].
  - split; [split; [done|by intros [? ?]]|]. split; [done|].
    by intros code stderr [= <- _].
Qed.

Lemma loadConfig_validates_witness :
  exists config,
    loadConfig (option Z) digits notANumber exampleEnv = Returned config
    /\ objGet config "TEAM_IDS" = Some (CIds [Some 18710; Some 18645; Some 18647])
    /\ requireTeamIds (option Z) config = Returned tt.
Proof.
  destruct (loadConfig_validates (option Z) digits notANumber exampleEnv)
    as (Hvalid & Hids & _).
  destruct (proj1 Hvalid) as [config Hrun].
  { vm_compute. repeat split; repeat constructor. }
  exists config. split; [exact Hrun|].
  destruct (Hids config Hrun) as [Hteam Hreq]. split.
  - rewrite Hteam. vm_compute. reflexivity.
  - apply Hreq. vm_compute. discriminate.
Defined.

(** ** Finding the teams of a country *)

Lemma includes_empty (hay : string) : includes hay "" = true.
Proof. by destruct hay. Qed.

Lemma filterR_total {A : Type} (f : A -> result bool) (l : list A) :
  Forall (fun x => exists b, f x = Ok b) l ->
  exists kept,
    filterR f l = Ok kept
    /\ forall x, x ∈ kept <-> x ∈ l /\ f x = Ok true.
Proof.
  induction 1 as [|x l [b Hx] _ (kept & IH & Hkept)]; simpl.
  - exists []. split; [done|]. intros x. split; [|by intros [? _]].
    intros Hin. by apply elem_of_nil in Hin.
  - rewrite Hx, IH. eexists. split; [done|]. intros y.
    destruct b.
    + rewrite !elem_of_cons, Hkept. split.
      * intros [->|[? ?]]; auto.
      * intros [[->|?] ?]; auto.
    + rewrite elem_of_cons, Hkept. split.
      * intros [? ?]; auto.
      * intros [[->|?] ?]; [congruence|auto].
Qed.

Lemma combine_fold (l : list team) :
  forall seen combined,
    seen = ft_id <$> combined -> NoDup seen ->
    exists new,
      foldl combine (seen, combined) l
      = (seen ++ (ft_id <$> new), combined ++ new)
      /\ NoDup (seen ++ (ft_id <$> new))
      /\ (forall x, x ∈ new -> (ft_id x ∉ seen) /\ ft_id x ∈ (t_id <$> l))
      /\ forall t, t ∈ l -> t_id t ∈ (seen ++ (ft_id <$> new)).
Proof.
  induction l as [|t l IH]; intros seen combined Hseen Hnd.
  - exists []. csimpl. rewrite !app_nil_r. split; [done|]. split; [done|].
    split; intros x Hx; by apply elem_of_nil in Hx.
  - simpl. unfold combine at 2. cbn [fst snd].
    destruct (bool_decide (t_id t ∈ seen)) eqn:Eseen.
    + apply bool_decide_eq_true in Eseen.
      destruct (IH seen combined Hseen Hnd) as (new & -> & Hnd' & Hnew & Hl).
      exists new. split; [done|]. split; [done|]. split.
      * intros x Hx. destruct (Hnew x Hx) as [? ?]. split; [done|]. csimpl. by right.
      * intros t' [->|Ht']%elem_of_cons; [|by apply Hl].
        apply elem_of_app. by left.
    + apply bool_decide_eq_false in Eseen.
      edestruct (IH (seen ++ [t_id t])) as (new & -> & Hnd' & Hnew & Hl).
      { rewrite Hseen at 1. by rewrite fmap_app. }
      { apply NoDup_app. split; [done|]. split; [|apply NoDup_singleton].
        intros x Hx ->%list_elem_of_singleton. done. }
      exists (foundTeamOf t :: new). csimpl. rewrite <- !app_assoc. csimpl.
      split; [done|]. rewrite <- app_assoc in Hnd'. split; [done|]. split.
      * intros x [->|Hx]%elem_of_cons; csimpl; [split; [done|by left]|].
        destruct (Hnew x Hx) as [Hout ?]. split; [|by right].
        intros Hin. apply Hout, elem_of_app. by left.
      * intros t' [->|Ht']%elem_of_cons.
        { apply elem_of_app. right. by left. }
        specialize (Hl t' Ht'). by rewrite <- app_assoc in Hl.
Qed.

(** [X28] When every team that the search returns has a name that is a
    string, or none, [findNationalTeam] returns: each identifier at most
    once; those of the teams that are national or whose name matches the
    country, and no other; at the front the teams that are national, by
    their type or by their name.  A team of type [national] and a team
    without a name are always among them. *)
Theorem findNationalTeam_teams {E : Type} (toLowerCase : string -> string)
    (searchTeam : string -> M E (list team)) (countryName : string)
    (results : list team) (e e' : E) :
  searchTeam countryName e = (Ok results, e') ->
  Forall (fun t => exists name, nameLowerOf toLowerCase t = Ok name) results ->
  exists teams,
    findNationalTeam toLowerCase searchTeam countryName e
    = (Ok (SearchResult countryName (bool_decide (teams <> [])) teams), e')
    /\ NoDup (ft_id <$> teams)
    /\ (forall id,
          id ∈ (ft_id <$> teams)
          <-> exists t, t ∈ results /\ t_id t = id
                        /\ (isNational toLowerCase t = Ok true
                            \/ isMatch toLowerCase countryName t = Ok true))
    /\ (exists front back,
          teams = front ++ back
          /\ (forall x, x ∈ front ->
                exists t, t ∈ results /\ t_id t = ft_id x
                          /\ isNational toLowerCase t = Ok true)
          /\ (forall x t, x ∈ back -> t ∈ results -> t_id t = ft_id x ->
                isNational toLowerCase t <> Ok true))
    /\ forall t, t ∈ results ->
         t_type t = JStr "national" \/ t_name t = JNull \/ t_name t = JUndef ->
         t_id t ∈ (ft_id <$> teams).
Proof.
  intros Hsearch Hnames. unfold findNationalTeam.
  erewrite bind_Ok by done.
  assert (forall t, t ∈ results ->
            t_type t = JStr "national" \/ t_name t = JNull \/ t_name t = JUndef ->
            isNational toLowerCase t = Ok true
            \/ isMatch toLowerCase countryName t = Ok true) as Halways.
  { intros t _ [Ht|[Ht|Ht]].
    - left. unfold isNational. by rewrite decide_True.
    - right. unfold isMatch, nameLowerOf. rewrite Ht.
      by rewrite includes_empty, orb_true_r.
    - right. unfold isMatch, nameLowerOf. rewrite Ht.
      by rewrite includes_empty, orb_true_r. }
  destruct results as [|t0 results'] eqn:Hresults.
  { exists []. split; [done|]. split; [constructor|]. split.
    - intros id. split; [intros H; by apply elem_of_nil in H|].
      intros (t & Ht & _). by apply elem_of_nil in Ht.
    - split; [|intros t Ht; by apply elem_of_nil in Ht].
      exists [], []. split; [done|].
      split; [intros x Hx|intros x t Hx]; by apply elem_of_nil in Hx. }
  assert (results <> []) as Hsome by by rewrite Hresults.
  rewrite <- Hresults in *. clear Hresults t0 results'.
  destruct (filterR_total (isNational toLowerCase) results) as (nationals & Hn & Hnat).
  { eapply Forall_impl; [exact Hnames|]. intros t [name Hname]. unfold isNational.
    destruct (decide _); [by eexists|]. rewrite Hname. destruct name; by eexists. }
  destruct (filterR_total (isMatch toLowerCase countryName) results)
    as (matches & Hm & Hmat).
  { eapply Forall_impl; [exact Hnames|]. intros t [name Hname]. unfold isMatch.
    rewrite Hname. by eexists. }
  assert (teamsAmong toLowerCase countryName results
          = Ok (SearchResult countryName
                  (0 <? List.length (foldl combine ([], []) (nationals ++ matches)).2)%nat
                  (foldl combine ([], []) (nationals ++ matches)).2)) as ->.
  { unfold teamsAmong. rewrite Hn, Hm. by destruct results as [|? ?]. }
  rewrite foldl_app.
  destruct (combine_fold nationals [] []) as (front & -> & Hnd1 & Hfront & Hl1);
    [done|constructor|].
  destruct (combine_fold matches ([] ++ (ft_id <$> front)) ([] ++ front))
    as (back & -> & Hnd2 & Hback & Hl2); [done|done|].
  simpl in *. exists (front ++ back). split.
  { do 3 f_equal. destruct (front ++ back); [done|].
    symmetry. by apply bool_decide_eq_true. }
  rewrite fmap_app. split; [done|].
  assert (forall id,
            id ∈ (ft_id <$> front) ++ (ft_id <$> back)
            <-> exists t, t ∈ results /\ t_id t = id
                          /\ (isNational toLowerCase t = Ok true
                              \/ isMatch toLowerCase countryName t = Ok true)) as Hids.
  { intros id. split.
    - intros [Hid|Hid]%elem_of_app;
        apply list_elem_of_fmap in Hid as (x & -> & Hx).
      + destruct (Hfront x Hx) as [_ (t & Hid & Ht)%list_elem_of_fmap].
        apply Hnat in Ht as [? ?]. exists t. by auto.
      + destruct (Hback x Hx) as [_ (t & Hid & Ht)%list_elem_of_fmap].
        apply Hmat in Ht as [? ?]. exists t. by auto.
    - intros (t & Ht & <- & [Hyes|Hyes]).
      + apply elem_of_app. left. apply Hl1, Hnat. by auto.
      + apply Hl2, Hmat. by auto. }
  split; [exact Hids|]. split.
  - exists front, back. split; [done|]. split.
    + intros x Hx. destruct (Hfront x Hx) as [_ (t & Hid & Ht)%list_elem_of_fmap].
      apply Hnat in Ht as [? ?]. exists t. by auto.
    + intros x t Hx Ht Hid Hyes. destruct (Hback x Hx) as [Hout _].
      apply Hout. rewrite <- Hid. apply Hl1, Hnat. by auto.
  - intros t Ht Hcase. apply Hids. exists t. by auto.
Qed.

Lemma findNationalTeam_teams_witness :
  exists teams,
    findNationalTeam asciiLower (fun _ (e : unit) => (Ok spanishTeams, e)) "Spain" tt
    = (Ok (SearchResult "Spain" (bool_decide (teams <> [])) teams), tt)
    /\ ft_id <$> teams = [JNum 3; JNum 1; JNum 2].
Proof.
  destruct (findNationalTeam_teams asciiLower (fun _ (e : unit) => (Ok spanishTeams, e))
              "Spain" spanishTeams tt tt eq_refl) as (teams & Hrun & _).
  { repeat constructor; by eexists. }
  exists teams. split; [exact Hrun|].
  vm_compute in Hrun. by injection Hrun as _ <-.
Defined.
